(** * Roon MPRIS bridge: the zone state synchronizer of [src/index.js]

    A shallow embedding of the bridge's event handlers.  The process-wide
    variables of the script become the fields of one [State] record that
    every handler takes and returns; calls on the collaborators (the
    remote transport, the image service, the status service, the
    control surface's [seeked] signal) are appended to logs kept in the
    same record; [Date.now()] is an argument of the handlers that read it.

    A number is an IEEE 754 double: a rational of the binary64 grid, an
    infinity or NaN, and every arithmetic operation rounds the exact
    result to the nearest double, ties to even.  A number of a payload
    is given by its JSON literal, a rational, which is rounded where the
    script reads it.  Strings are byte strings. *)

From Stdlib Require Import Ascii String DecimalString ZArith QArith Qround Lqa.
From Stdlib Require Import Floats.
From stdpp Require Import base option list sorting strings gmap.

Set Warnings "-register-all".

Open Scope string_scope.
Open Scope Z_scope.

(** ** Numbers *)

(** Rounding of a rational to the nearest integer, ties to even. *)
Definition rne (x : Q) : Z :=
  let f := Qfloor x in
  match Qcompare (x - inject_Z f)%Q (1 # 2)%Q with
  | Lt => f
  | Gt => f + 1
  | Eq => if Z.even f then f else f + 1
  end.

(** Rounding of a non-negative rational given in units of [2^-1074], the
    smallest positive double, to a double in the same units: 53
    significant bits are kept, and no bit below the unit. *)
Definition round_units (x : Q) : Z :=
  let s := Z.max (Z.log2 (Qfloor x) - 52) 0 in
  rne (x / inject_Z (2 ^ s))%Q * 2 ^ s.

Definition unit_scale : Q := inject_Z (2 ^ 1074).

Definition round_magnitude (x : Q) : Q :=
  (inject_Z (round_units (x * unit_scale)) / unit_scale)%Q.

(** Rounding to the binary64 grid, the exponent unbounded above. *)
Definition round_finite (x : Q) : Q :=
  (if Qle_bool 0 x then round_magnitude x else - round_magnitude (- x))%Q.

(** A value of the Number type.  The two zeros are one value here: no
    operation of the script tells them apart. *)
Inductive Number : Type :=
| NaN
| Infinity (negative : bool)
| Finite (value : Q).

Definition overflow_bound : Q := inject_Z (2 ^ 1024).

(** The double nearest to a rational; a magnitude that rounds to [2^1024]
    or more overflows to an infinity. *)
Definition round (x : Q) : Number :=
  let r := Qred (round_finite x) in
  if Qle_bool overflow_bound r then Infinity false
  else if Qle_bool r (- overflow_bound)%Q then Infinity true
  else Finite r.

(** The number an integer converts to. *)
Definition number_of_Z (z : Z) : Number := round (inject_Z z).

(** [a <= b]. *)
Definition num_leb (a b : Number) : bool :=
  match a, b with
  | NaN, _ | _, NaN => false
  | Infinity true, _ => true
  | _, Infinity false => true
  | Finite p, Finite q => Qle_bool p q
  | _, _ => false
  end.

(** The order of the numbers as a proposition; NaN is not comparable. *)
Definition num_le (a b : Number) : Prop :=
  match a, b with
  | NaN, _ | _, NaN => False
  | Infinity true, _ => True
  | _, Infinity false => True
  | Finite p, Finite q => (p <= q)%Q
  | _, _ => False
  end.

Definition is_NaN (a : Number) : bool :=
  match a with NaN => true | _ => false end.

(** Truthiness of a number: every number but zero and NaN. *)
Definition number_truthy (a : Number) : bool :=
  match a with
  | NaN => false
  | Infinity _ => true
  | Finite q => negb (Qeq_bool q 0)
  end.

Definition Math_min (a b : Number) : Number :=
  if is_NaN a || is_NaN b then NaN else if num_leb a b then a else b.

Definition Math_max (a b : Number) : Number :=
  if is_NaN a || is_NaN b then NaN else if num_leb a b then b else a.

Definition Math_floor (a : Number) : Number :=
  match a with
  | Finite q => Finite (inject_Z (Qfloor q))
  | _ => a
  end.

(** An infinity times or divided by a finite number. *)
Definition signed_infinity (negative : bool) (q : Q) : Number :=
  match Qcompare q 0 with
  | Eq => NaN
  | Gt => Infinity negative
  | Lt => Infinity (negb negative)
  end.

(** [a + b]. *)
Definition num_add (a b : Number) : Number :=
  match a, b with
  | NaN, _ | _, NaN => NaN
  | Infinity s, Infinity t => if Bool.eqb s t then Infinity s else NaN
  | Infinity s, Finite _ | Finite _, Infinity s => Infinity s
  | Finite p, Finite q => round (p + q)
  end.

(** [a * b]. *)
Definition num_mul (a b : Number) : Number :=
  match a, b with
  | NaN, _ | _, NaN => NaN
  | Infinity s, Infinity t => Infinity (xorb s t)
  | Infinity s, Finite q | Finite q, Infinity s => signed_infinity s q
  | Finite p, Finite q => round (p * q)
  end.

(** [a / b]. *)
Definition num_div (a b : Number) : Number :=
  match a, b with
  | NaN, _ | _, NaN => NaN
  | Infinity _, Infinity _ => NaN
  | Infinity s, Finite q =>
      if Qle_bool 0 q then Infinity s else Infinity (negb s)
  | Finite _, Infinity _ => Finite 0
  | Finite p, Finite q =>
      if Qeq_bool q 0 then signed_infinity false p else round (p / q)
  end.

(** [value || 0] on a numeric property given by its literal. *)
Definition or_zero (value : option Q) : Number :=
  match value with
  | Some literal =>
      if number_truthy (round literal) then round literal else Finite 0
  | None => Finite 0
  end.

(** ** JavaScript values and objects *)

(** The own properties of a plain object, in creation order.  Keys are
    unique: [obj_set] overwrites in place and [obj_delete] removes the
    entry.  [obj_get] reads an own property; the script's [o[k]] also
    finds the members that [o] inherits from [Object.prototype], under
    the keys [Object_prototype_keys], so the two agree for the keys that
    are own properties and for those that are not in that list.  The
    members of [Object.prototype] are as the engine provides them and
    are no part of the state: what the script does to them, when a zone
    id names one, is outside this development. *)
Abbreviation JsObj V := (list (string * V)).

Fixpoint obj_get {V} (o : JsObj V) (k : string) : option V :=
  match o with
  | [] => None
  | (k', v) :: o' => if String.eqb k' k then Some v else obj_get o' k
  end.

Fixpoint obj_set {V} (o : JsObj V) (k : string) (v : V) : JsObj V :=
  match o with
  | [] => [(k, v)]
  | (k', v') :: o' =>
      if String.eqb k' k then (k', v) :: o' else (k', v') :: obj_set o' k v
  end.

Fixpoint obj_delete {V} (o : JsObj V) (k : string) : JsObj V :=
  match o with
  | [] => []
  | (k', v') :: o' =>
      if String.eqb k' k then obj_delete o' k else (k', v') :: obj_delete o' k
  end.

(** The property names of [Object.prototype]. *)
Definition Object_prototype_keys : list string :=
  [ "constructor"; "__defineGetter__"; "__defineSetter__"; "hasOwnProperty";
    "__lookupGetter__"; "__lookupSetter__"; "isPrototypeOf";
    "propertyIsEnumerable"; "toString"; "valueOf"; "__proto__";
    "toLocaleString" ].

Definition inherited_key (k : string) : bool :=
  existsb (String.eqb k) Object_prototype_keys.

(** [o[k] = v] on a plain object whose values are objects: the key
    [__proto__] names the accessor of [Object.prototype], and assigning
    an object to it replaces the prototype of [o] and creates no
    property.  The replaced prototype is not part of the state. *)
Definition obj_assign {V} (o : JsObj V) (k : string) (v : V) : JsObj V :=
  if String.eqb k "__proto__" then o else obj_set o k v.

Definition is_digit (c : ascii) : bool :=
  let n := N_of_ascii c in ((48 <=? n) && (n <=? 57))%N.

Fixpoint digits_value (s : string) (acc : N) : option N :=
  match s with
  | EmptyString => Some acc
  | String c s' =>
      if is_digit c then digits_value s' (acc * 10 + (N_of_ascii c - 48))%N
      else None
  end.

(** A property key is an array index when it is the canonical decimal
    form of an integer below 2^32 - 1. *)
Definition array_index (k : string) : option N :=
  match k with
  | EmptyString => None
  | String c rest =>
      if (N_of_ascii c =? 48)%N then
        match rest with EmptyString => Some 0%N | _ => None end
      else
        match digits_value k 0 with
        | Some n => if (n <? 4294967295)%N then Some n else None
        | None => None
        end
  end.

Definition index_entry {V} (kv : string * V) : option (N * V) :=
  match array_index kv.1 with Some n => Some (n, kv.2) | None => None end.

Definition index_le {V} (a b : N * V) : Prop := (a.1 <= b.1)%N.

#[local] Instance index_le_dec {V} (a b : N * V) : Decision (index_le a b).
Proof. unfold index_le. apply _. Defined.

(** [Object.values]: array-index keys first, in ascending numeric order,
    then the other keys in creation order. *)
Definition obj_values {V} (o : JsObj V) : list V :=
  map snd (merge_sort index_le (omap index_entry o))
  ++ map snd (filter (fun kv => array_index kv.1 = None) o).

(** Lower case of the letters A-Z; other bytes are left alone.  This
    is what the [i] flag of a regular expression without the [u] flag
    folds for an ASCII pattern, and what [String.prototype.toLowerCase]
    does to a string of ASCII characters. *)
Definition lower_ascii (c : ascii) : ascii :=
  let n := N_of_ascii c in
  if ((65 <=? n) && (n <=? 90))%N then ascii_of_N (n + 32) else c.

Fixpoint ascii_toLowerCase (s : string) : string :=
  match s with
  | EmptyString => EmptyString
  | String c s' => String (lower_ascii c) (ascii_toLowerCase s')
  end.

(** Truthiness of a string: every string but the empty one. *)
Definition truthy_string (s : string) : bool :=
  match s with EmptyString => false | _ => true end.

(** Truthiness of a property that is a string when present. *)
Definition truthy_opt (o : option string) : bool :=
  match o with Some s => truthy_string s | None => false end.

(** [a || b] on strings. *)
Definition or_string (o : option string) (d : string) : string :=
  match o with
  | Some s => if truthy_string s then s else d
  | None => d
  end.

(** A JSON value as the transport delivers it in a text position;
    [JsAbsent] stands for [undefined] and [null], and a number is given
    by its literal. *)
Inductive JsValue : Type :=
| JsAbsent
| JsBool (b : bool)
| JsNumber (n : Q)
| JsString (s : string)
| JsObject (props : list (string * JsValue)).

Definition truthy (v : JsValue) : bool :=
  match v with
  | JsAbsent => false
  | JsBool b => b
  | JsNumber n => number_truthy (round n)
  | JsString s => truthy_string s
  | JsObject _ => true
  end.

Definition is_string (v : JsValue) : bool :=
  match v with JsString _ => true | _ => false end.

(** ** The zone as the transport delivers it *)

Record Output : Type := {
  output_id : option string;
  output_display_name : option string
}.

(** [np_length] is the [length] property.  A numeric property holds the
    literal of a number or is absent ([None]: [undefined] or [null]). *)
Record NowPlaying : Type := {
  title : JsValue;
  artist : JsValue;
  album : JsValue;
  artist_line : JsValue;
  three_line : JsValue;
  two_line : JsValue;
  one_line : JsValue;
  np_length : option Q;
  seek_position : option Q;
  image_key : option string
}.

Record Settings : Type := {
  settings_shuffle : bool;
  settings_loop : option string
}.

(** A string property that can also be [null] or missing. *)
Inductive Nullable (A : Type) : Type :=
| js_undefined
| js_null
| js_value (a : A).

Arguments js_undefined {A}.
Arguments js_null {A}.
Arguments js_value {A} a.

(** [display_name_property] is the [display_name] property. *)
Record Zone : Type := {
  zone_id : string;
  display_name_property : Nullable string;
  state : option string;
  now_playing : option NowPlaying;
  is_play_allowed : bool;
  is_pause_allowed : bool;
  is_seek_allowed : bool;
  is_next_allowed : bool;
  is_previous_allowed : bool;
  settings : option Settings;
  outputs : option (list Output);
  queue_time_remaining : option Q
}.

(** [zone.display_name] where the script tests it or reads its text. *)
Definition display_name (zone : Zone) : option string :=
  match display_name_property zone with
  | js_value s => Some s
  | _ => None
  end.

Record SeekUpdate : Type := {
  su_zone_id : string;
  su_seek_position : option Q;
  su_queue_time_remaining : option Q
}.

Record ChangeSet : Type := {
  zones_removed : option (list string);
  zones_added : option (list Zone);
  zones_changed : option (list Zone);
  zones_seek_changed : option (list SeekUpdate)
}.

Record Core : Type := { core_display_name : string }.

Inductive Service : Type := RoonApiTransport | RoonApiImage.

(** ** The control surface and the process state *)

Record Metadata : Type := {
  mpris_trackid : string;
  mpris_length : option Number;
  xesam_title : string;
  xesam_album : string;
  xesam_artist : list string;
  mpris_artUrl : option string
}.

Record Player : Type := {
  metadata : Metadata;
  playbackStatus : string;
  canControl : bool;
  canPlay : bool;
  canPause : bool;
  canSeek : bool;
  canGoNext : bool;
  canGoPrevious : bool;
  shuffle : bool;
  loopStatus : string
}.

(** A call on the remote transport; the zone argument is recorded by its
    id, by which the transport addresses the zone. *)
Inductive TransportCall : Type :=
| control_call (zone : string) (verb : string)
| seek_call (zone : string) (how : string) (seconds : Number).

(** A pending continuation of [resolveArtFile]: the promise is already
    fulfilled with a file URL (cache hit), or waits for the reply to a
    [get_image] request. *)
Inductive ArtJob : Type :=
| art_hit (fileUrl : string)
| art_fetch (imageKey : string).

(** The reply to a [get_image] request, with the outcome of the
    [fs.writeFile] that follows a successful reply. *)
Inductive ImageReply : Type :=
| image_error
| image_body (contentType : string) (written : bool).

(** The module-level variables, the part of the file system the script
    looks at ([files]: the paths that exist), the continuations that are
    pending, and the log of every call made on a collaborator.

    [lastSeekSeconds] and [activeLengthSeconds] hold finite numbers.
    [activeZone] holds the zone by value.  In the script it is the object
    that was stored in [zones] when the zone was activated; of that
    object the script later reads only that it is not null and, in the
    transport, its [zone_id], which never changes. *)
Record State : Type := {
  activeCore : option Core;
  transport : option Service;
  imageSvc : option Service;
  zones : JsObj Zone;
  activeZoneId : option string;
  activeZone : option Zone;
  lastSeekSeconds : Q;
  lastSeekUpdate : Z;
  activeLengthSeconds : option Q;
  lastKnownZoneState : string;
  player : Player;
  keyToFilePath : gmap string string;
  files : gset string;
  artJobs : list ArtJob;
  imageRequests : list string;
  transportCalls : list TransportCall;
  seekedSignals : list Number;
  statusLog : list (string * bool)
}.

Definition set_session (c : option Core) (t i : option Service) (st : State) : State :=
  Build_State c t i (zones st) (activeZoneId st) (activeZone st)
    (lastSeekSeconds st) (lastSeekUpdate st) (activeLengthSeconds st)
    (lastKnownZoneState st) (player st) (keyToFilePath st) (files st)
    (artJobs st) (imageRequests st) (transportCalls st) (seekedSignals st)
    (statusLog st).

Definition set_zones (zs : JsObj Zone) (st : State) : State :=
  Build_State (activeCore st) (transport st) (imageSvc st) zs
    (activeZoneId st) (activeZone st)
    (lastSeekSeconds st) (lastSeekUpdate st) (activeLengthSeconds st)
    (lastKnownZoneState st) (player st) (keyToFilePath st) (files st)
    (artJobs st) (imageRequests st) (transportCalls st) (seekedSignals st)
    (statusLog st).

Definition set_active (id : option string) (z : option Zone) (st : State) : State :=
  Build_State (activeCore st) (transport st) (imageSvc st) (zones st) id z
    (lastSeekSeconds st) (lastSeekUpdate st) (activeLengthSeconds st)
    (lastKnownZoneState st) (player st) (keyToFilePath st) (files st)
    (artJobs st) (imageRequests st) (transportCalls st) (seekedSignals st)
    (statusLog st).

Definition set_lastSeekSeconds (q : Q) (st : State) : State :=
  Build_State (activeCore st) (transport st) (imageSvc st) (zones st)
    (activeZoneId st) (activeZone st)
    q (lastSeekUpdate st) (activeLengthSeconds st)
    (lastKnownZoneState st) (player st) (keyToFilePath st) (files st)
    (artJobs st) (imageRequests st) (transportCalls st) (seekedSignals st)
    (statusLog st).

Definition set_lastSeekUpdate (t : Z) (st : State) : State :=
  Build_State (activeCore st) (transport st) (imageSvc st) (zones st)
    (activeZoneId st) (activeZone st)
    (lastSeekSeconds st) t (activeLengthSeconds st)
    (lastKnownZoneState st) (player st) (keyToFilePath st) (files st)
    (artJobs st) (imageRequests st) (transportCalls st) (seekedSignals st)
    (statusLog st).

Definition set_activeLengthSeconds (l : option Q) (st : State) : State :=
  Build_State (activeCore st) (transport st) (imageSvc st) (zones st)
    (activeZoneId st) (activeZone st)
    (lastSeekSeconds st) (lastSeekUpdate st) l
    (lastKnownZoneState st) (player st) (keyToFilePath st) (files st)
    (artJobs st) (imageRequests st) (transportCalls st) (seekedSignals st)
    (statusLog st).

Definition set_lastKnownZoneState (s : string) (st : State) : State :=
  Build_State (activeCore st) (transport st) (imageSvc st) (zones st)
    (activeZoneId st) (activeZone st)
    (lastSeekSeconds st) (lastSeekUpdate st) (activeLengthSeconds st)
    s (player st) (keyToFilePath st) (files st)
    (artJobs st) (imageRequests st) (transportCalls st) (seekedSignals st)
    (statusLog st).

Definition set_player (p : Player) (st : State) : State :=
  Build_State (activeCore st) (transport st) (imageSvc st) (zones st)
    (activeZoneId st) (activeZone st)
    (lastSeekSeconds st) (lastSeekUpdate st) (activeLengthSeconds st)
    (lastKnownZoneState st) p (keyToFilePath st) (files st)
    (artJobs st) (imageRequests st) (transportCalls st) (seekedSignals st)
    (statusLog st).

Definition set_art (m : gmap string string) (fs : gset string)
    (jobs : list ArtJob) (reqs : list string) (st : State) : State :=
  Build_State (activeCore st) (transport st) (imageSvc st) (zones st)
    (activeZoneId st) (activeZone st)
    (lastSeekSeconds st) (lastSeekUpdate st) (activeLengthSeconds st)
    (lastKnownZoneState st) (player st) m fs jobs reqs
    (transportCalls st) (seekedSignals st) (statusLog st).

Definition set_transportCalls (cs : list TransportCall) (st : State) : State :=
  Build_State (activeCore st) (transport st) (imageSvc st) (zones st)
    (activeZoneId st) (activeZone st)
    (lastSeekSeconds st) (lastSeekUpdate st) (activeLengthSeconds st)
    (lastKnownZoneState st) (player st) (keyToFilePath st) (files st)
    (artJobs st) (imageRequests st) cs (seekedSignals st) (statusLog st).

Definition set_seekedSignals (l : list Number) (st : State) : State :=
  Build_State (activeCore st) (transport st) (imageSvc st) (zones st)
    (activeZoneId st) (activeZone st)
    (lastSeekSeconds st) (lastSeekUpdate st) (activeLengthSeconds st)
    (lastKnownZoneState st) (player st) (keyToFilePath st) (files st)
    (artJobs st) (imageRequests st) (transportCalls st) l (statusLog st).

Definition set_statusLog (l : list (string * bool)) (st : State) : State :=
  Build_State (activeCore st) (transport st) (imageSvc st) (zones st)
    (activeZoneId st) (activeZone st)
    (lastSeekSeconds st) (lastSeekUpdate st) (activeLengthSeconds st)
    (lastKnownZoneState st) (player st) (keyToFilePath st) (files st)
    (artJobs st) (imageRequests st) (transportCalls st) (seekedSignals st) l.

Definition set_metadata (m : Metadata) (p : Player) : Player :=
  Build_Player m (playbackStatus p) (canControl p) (canPlay p) (canPause p)
    (canSeek p) (canGoNext p) (canGoPrevious p) (shuffle p) (loopStatus p).

Definition set_playbackStatus (s : string) (p : Player) : Player :=
  Build_Player (metadata p) s (canControl p) (canPlay p) (canPause p)
    (canSeek p) (canGoNext p) (canGoPrevious p) (shuffle p) (loopStatus p).

(** The outcome of a handler: it returns, or it throws the [TypeError] of
    a property read on [null] (the state is the one reached when it
    threw). *)
Inductive Completion : Type :=
| Returned (st : State)
| TypeError (st : State).

(** ** Helpers of the host library *)

(** [String.prototype.includes]. *)
Fixpoint includes (needle hay : string) : bool :=
  if String.prefix needle hay then true
  else match hay with
       | EmptyString => false
       | String _ hay' => includes needle hay'
       end.

(** [path.join] of a directory and a file name. *)
Definition path_join (dir name : string) : string := dir +:+ "/" +:+ name.

(** [Player#objectPath] of the control-surface library, for the player
    named [roon]. *)
Definition objectPath (subpath : string) : string :=
  let path := "/org/node/mediaplayer/roon" in
  if truthy_string subpath then path +:+ "/" +:+ subpath else path.

Definition DEFAULT_TRACK_ID_SUFFIX : string := "track/0".

Definition idle_metadata : Metadata :=
  {| mpris_trackid := objectPath DEFAULT_TRACK_ID_SUFFIX;
     mpris_length := None;
     xesam_title := "Roon";
     xesam_album := "—";
     xesam_artist := ["—"];
     mpris_artUrl := None |}.

(** The object [{}] read as a [now_playing] record. *)
Definition empty_now_playing : NowPlaying :=
  {| title := JsAbsent; artist := JsAbsent; album := JsAbsent;
     artist_line := JsAbsent; three_line := JsAbsent; two_line := JsAbsent;
     one_line := JsAbsent; np_length := None; seek_position := None;
     image_key := None |}.

(** [zone.now_playing || {}]. *)
Definition now_playing_or_empty (zone : Zone) : NowPlaying :=
  match now_playing zone with Some np => np | None => empty_now_playing end.

(** [zone.state === s]. *)
Definition state_is (zone : Zone) (s : string) : bool :=
  match state zone with Some s' => String.eqb s' s | None => false end.

(** [id === activeZoneId]. *)
Definition is_active_id (id : string) (active : option string) : bool :=
  match active with Some a => String.eqb id a | None => false end.

Section Bridge.

(** [process.env.ROON_MPRIS_ZONE || ''], trimmed. *)
Variable ZONE_PREFERENCE : string.

(** [Number.prototype.toString], on the number that a literal denotes. *)
Variable Number_toString : Q -> string.

(** [String.prototype.toLowerCase], which folds the letters of every
    script.  It maps the empty string, and no other, to the empty
    string. *)
Variable toLowerCase : string -> string.

Hypothesis toLowerCase_empty :
  forall s : string, toLowerCase s = EmptyString <-> s = EmptyString.

(** [os.tmpdir()]. *)
Variable os_tmpdir : string.

Definition zonePreferenceLower : string := toLowerCase ZONE_PREFERENCE.

(** The state when the script has been loaded, at time [now], with the
    files [existing] in the file system. *)
Definition init (now : Z) (existing : gset string) : State :=
  {| activeCore := None; transport := None; imageSvc := None;
     zones := []; activeZoneId := None; activeZone := None;
     lastSeekSeconds := 0; lastSeekUpdate := now;
     activeLengthSeconds := None; lastKnownZoneState := "stopped";
     player :=
       {| metadata := idle_metadata; playbackStatus := "Stopped";
          canControl := false; canPlay := false; canPause := false;
          canSeek := false; canGoNext := false; canGoPrevious := false;
          shuffle := false; loopStatus := "None" |};
     keyToFilePath := ∅; files := existing; artJobs := [];
     imageRequests := [];
     transportCalls := []; seekedSignals := [];
     statusLog := [("Waiting for Roon Core authorisation...", false)] |}.

Definition setStatus (message : string) (isError : bool) (st : State) : State :=
  set_statusLog (statusLog st ++ [(message, isError)]) st.

(** [Date.now()] and [lastSeekUpdate] are integers below [2^53], so the
    script computes their difference exactly. *)
Definition getPosition (now : Z) (st : State) : Number :=
  match activeZone st with
  | None => Finite 0
  | Some _ =>
      let seconds := Finite (lastSeekSeconds st) in
      let seconds :=
        if String.eqb (lastKnownZoneState st) "playing"
        then num_add seconds
               (num_div (number_of_Z (now - lastSeekUpdate st)) (Finite 1000))
        else seconds in
      let seconds :=
        match activeLengthSeconds st with
        | Some len => Math_min seconds (Finite len)
        | None => seconds
        end in
      Math_max (Finite 0) (Math_floor (num_mul seconds (Finite 1000000)))
  end.

(** *** Text extraction *)

Definition extractLine (line : JsValue) (key : string) : option string :=
  if negb (truthy line) then None
  else match line with
       | JsString s => Some s
       | JsNumber n => Some (Number_toString n)
       | JsObject props =>
           let candidate :=
             match find is_string (obj_values props) with
             | Some (JsString c) => if truthy_string c then Some c else None
             | _ => None
             end in
           match obj_get props key with
           | Some (JsString s) => if truthy_string s then Some s else candidate
           | _ => candidate
           end
       | _ => None
       end.

Definition extractText (value : JsValue) : option string :=
  if negb (truthy value) then None
  else match value with
       | JsString s => Some s
       | JsNumber n => Some (Number_toString n)
       | JsObject _ => extractLine value "line1"
       | _ => None
       end.

(** The result of [extractLine] put back in an array of values. *)
Definition line_value (o : option string) : JsValue :=
  match o with Some s => JsString s | None => JsAbsent end.

Fixpoint pickText (values : list JsValue) : option string :=
  match values with
  | [] => None
  | value :: rest =>
      match extractText value with
      | Some text => if truthy_string text then Some text else pickText rest
      | None => pickText rest
      end
  end.

(** The result is a finite number, given by its value. *)
Definition normaliseNumber (value : option Q) : option Q :=
  match value with
  | None => None
  | Some literal =>
      match round literal with
      | Finite num => Some num
      | _ => None
      end
  end.

Definition hasSeekInfo (zone : Zone) : bool :=
  match now_playing zone with
  | Some nowPlaying =>
      match normaliseNumber (seek_position nowPlaying) with
      | Some _ => true
      | None => false
      end
  | None => false
  end.

Definition mapPlaybackStatus (st : option string) : string :=
  let s := toLowerCase (or_string st EmptyString) in
  if String.eqb s "playing" then "Playing"
  else if String.eqb s "paused" then "Paused"
  else if String.eqb s "loading" then "Playing"
  else "Stopped".

Definition mapLoopStatus (loop : option string) : string :=
  let s := toLowerCase (or_string loop EmptyString) in
  if String.eqb s "loop_one" then "Track"
  else if String.eqb s "loop" then "Playlist"
  else "None".

(** *** Album art caching *)

Definition artCacheDir : string := path_join os_tmpdir "roon-mpris-art".

Definition safe_char (c : ascii) : ascii :=
  let n := N_of_ascii c in
  if (((97 <=? n) && (n <=? 122)) || ((65 <=? n) && (n <=? 90))
      || ((48 <=? n) && (n <=? 57))
      || (n =? 46) || (n =? 95) || (n =? 45))%N
  then c else "_"%char.

Fixpoint sanitize (key : string) : string :=
  match key with
  | EmptyString => EmptyString
  | String c key' => String (safe_char c) (sanitize key')
  end.

Definition keyToFilename (key : string) : string :=
  path_join artCacheDir (sanitize key +:+ ".jpg").

(** [p.replace(/\.(jpg|png)$/i, '')]. *)
Definition strip_image_ext (p : string) : string :=
  let n := String.length p in
  if (4 <=? n)%nat then
    let suffix := ascii_toLowerCase (substring (n - 4) 4 p) in
    if String.eqb suffix ".jpg" || String.eqb suffix ".png"
    then substring 0 (n - 4) p else p
  else p.

Definition targetBase (imageKey : string) : string :=
  strip_image_ext (keyToFilename imageKey).

(** The part of [resolveArtFile] that runs in the caller's turn: up to
    the return of a cached URL, or up to the [get_image] request.  A call
    that resolves to [null] leaves no continuation, as the caller drops a
    null URL. *)
Definition resolveArtFile (imageKey : string) (st : State) : State :=
  if negb (bool_decide (is_Some (imageSvc st))) || negb (truthy_string imageKey)
  then st
  else
    let fetch :=
      set_art (keyToFilePath st) (files st)
        (artJobs st ++ [art_fetch imageKey])
        (imageRequests st ++ [imageKey]) st in
    match keyToFilePath st !! imageKey with
    | Some existing =>
        if truthy_string existing && bool_decide (existing ∈ files st)
        then set_art (keyToFilePath st) (files st)
               (artJobs st ++ [art_hit ("file://" +:+ existing)])
               (imageRequests st) st
        else fetch
    | None => fetch
    end.

(** The caller's continuation in [updateMetadata]: the art URL is added
    to whatever metadata the player has by then. *)
Definition apply_art_url (fileUrl : string) (st : State) : State :=
  if negb (truthy_string fileUrl) then st
  else
    let current := metadata (player st) in
    let current :=
      {| mpris_trackid := mpris_trackid current;
         mpris_length := mpris_length current;
         xesam_title := xesam_title current;
         xesam_album := xesam_album current;
         xesam_artist := xesam_artist current;
         mpris_artUrl := Some fileUrl |} in
    set_player (set_metadata current (player st)) st.

(** The rest of [resolveArtFile] and the caller's continuation, run when
    the promise settles: for a request, on the reply [reply]. *)
Definition settle_art (job : ArtJob) (reply : ImageReply) (st : State) : State :=
  match job with
  | art_hit fileUrl => apply_art_url fileUrl st
  | art_fetch imageKey =>
      match reply with
      | image_error => st
      | image_body contentType written =>
          let ext :=
            if includes "png" (ascii_toLowerCase contentType) then "png" else "jpg" in
          let targetPath := targetBase imageKey +:+ "." +:+ ext in
          if written then
            let fs := files st ∪ {[ targetPath ]} in
            let ext :=
              if bool_decide ((targetBase imageKey +:+ ".png") ∈ fs)
              then "png" else "jpg" in
            let finalPath := targetBase imageKey +:+ "." +:+ ext in
            let st := set_art (<[imageKey := finalPath]> (keyToFilePath st)) fs
                        (artJobs st) (imageRequests st) st in
            apply_art_url ("file://" +:+ finalPath) st
          else st
      end
  end.

(** *** Projection of the active zone *)

(** A falsy value assigned to [canSeek] is recorded as [false]. *)
Definition updateCapabilities (zone : Zone) (st : State) : State :=
  let p := player st in
  set_player
    {| metadata := metadata p;
       playbackStatus := playbackStatus p;
       canControl := true;
       canPlay := is_play_allowed zone || state_is zone "playing"
                  || state_is zone "paused" || state_is zone "loading";
       canPause := is_pause_allowed zone;
       canSeek := is_seek_allowed zone && hasSeekInfo zone;
       canGoNext := is_next_allowed zone;
       canGoPrevious := is_previous_allowed zone;
       shuffle := match settings zone with
                  | Some s => settings_shuffle s
                  | None => false
                  end;
       loopStatus := match settings zone with
                     | Some s => mapLoopStatus (settings_loop s)
                     | None => "None"
                     end |} st.

Definition updateMetadata (zone : Zone) (st : State) : State :=
  let nowPlaying := now_playing_or_empty zone in
  let length := normaliseNumber (np_length nowPlaying) in
  let title :=
    pickText [ title nowPlaying;
               line_value (extractLine (three_line nowPlaying) "line1");
               line_value (extractLine (two_line nowPlaying) "line2");
               line_value (extractLine (one_line nowPlaying) "line1") ] in
  let title :=
    if truthy_opt title then default EmptyString title
    else or_string (display_name zone) "Roon" in
  let artist :=
    pickText [ artist nowPlaying;
               artist_line nowPlaying;
               line_value (extractLine (three_line nowPlaying) "line2");
               line_value (extractLine (two_line nowPlaying) "line1") ] in
  let artist := or_string artist "Roon" in
  let album :=
    pickText [ album nowPlaying;
               line_value (extractLine (three_line nowPlaying) "line3") ] in
  let album := or_string album "—" in
  let metadata :=
    {| mpris_trackid := objectPath ("zone/" +:+ zone_id zone);
       mpris_length :=
         match length with
         | Some len => Some (Math_floor (num_mul (Finite len) (Finite 1000000)))
         | None => None
         end;
       xesam_title := title;
       xesam_album := album;
       xesam_artist := [artist];
       mpris_artUrl := None |} in
  let st :=
    if truthy_opt (image_key nowPlaying)
    then resolveArtFile (default EmptyString (image_key nowPlaying)) st
    else st in
  set_player (set_metadata metadata (player st)) st.

Definition updatePlaybackState (zone : Zone) (st : State) : State :=
  let st := set_lastKnownZoneState (or_string (state zone) "stopped") st in
  set_player (set_playbackStatus (mapPlaybackStatus (state zone)) (player st)) st.

Definition updateSeekState (now : Z) (zone : Zone) (st : State) : State :=
  let nowPlaying := now_playing_or_empty zone in
  let position := normaliseNumber (seek_position nowPlaying) in
  let st :=
    match position with
    | Some position => set_lastSeekUpdate now (set_lastSeekSeconds position st)
    | None => set_lastSeekUpdate now (set_lastSeekSeconds 0 st)
    end in
  let length := normaliseNumber (np_length nowPlaying) in
  set_activeLengthSeconds length st.

(** [`${zone.display_name}`]. *)
Definition display_name_text (zone : Zone) : string :=
  match display_name_property zone with
  | js_value s => s
  | js_null => "null"
  | js_undefined => "undefined"
  end.

Definition updateFromActiveZone (now : Z) (zone : Zone) (st : State) : State :=
  let st := updateCapabilities zone st in
  let st := updateMetadata zone st in
  let st := updatePlaybackState zone st in
  let st := updateSeekState now zone st in
  match activeCore st with
  | Some core =>
      setStatus ("Connected to " +:+ core_display_name core +:+ " · Zone: "
                 +:+ display_name_text zone) false st
  | None => st
  end.

Definition activateZone (now : Z) (zone : option Zone) (st : State) : State :=
  match zone with
  | None =>
      let st := set_active None None st in
      let st := set_lastKnownZoneState "stopped" st in
      let st := set_lastSeekSeconds 0 st in
      let st := set_activeLengthSeconds None st in
      let st :=
        set_player
          {| metadata := idle_metadata;
             playbackStatus := "Stopped";
             canControl := bool_decide (is_Some (transport st));
             canPlay := false; canPause := false; canSeek := false;
             canGoNext := false; canGoPrevious := false;
             shuffle := false; loopStatus := "None" |} st in
      match activeCore st with
      | Some core =>
          setStatus ("Connected to " +:+ core_display_name core
                     +:+ " (no active zone)") false st
      | None => st
      end
  | Some zone =>
      let st := set_active (Some (zone_id zone)) (Some zone) st in
      updateFromActiveZone now zone st
  end.

(** *** Zone selection *)

Definition matchesOutput (output : Output) : bool :=
  (truthy_opt (output_id output)
   && String.eqb (toLowerCase (default EmptyString (output_id output)))
        zonePreferenceLower)
  || (truthy_opt (output_display_name output)
      && String.eqb
           (toLowerCase (default EmptyString (output_display_name output)))
           zonePreferenceLower).

Definition matchesZonePreference (zone : Zone) : bool :=
  if negb (truthy_string ZONE_PREFERENCE) then false
  else if truthy_string (zone_id zone)
          && String.eqb (toLowerCase (zone_id zone)) zonePreferenceLower
  then true
  else if truthy_opt (display_name zone)
          && String.eqb (toLowerCase (default EmptyString (display_name zone)))
               zonePreferenceLower
  then true
  else match outputs zone with
       | Some outs => existsb matchesOutput outs
       | None => false
       end.

Definition pickPreferredZone (zoneCandidates : list Zone) : option Zone :=
  let matched :=
    if truthy_string ZONE_PREFERENCE
    then find matchesZonePreference zoneCandidates
    else None in
  match matched with
  | Some zone => Some zone
  | None => find (fun zone => state_is zone "playing") zoneCandidates
  end.

Definition selectAndActivateZone (now : Z) (st : State) : State :=
  let zoneCandidates := obj_values (zones st) in
  match zoneCandidates with
  | [] => activateZone now None st
  | first :: _ =>
      match pickPreferredZone zoneCandidates with
      | Some preferred => activateZone now (Some preferred) st
      | None =>
          let current :=
            if truthy_opt (activeZoneId st)
            then obj_get (zones st) (default EmptyString (activeZoneId st))
            else None in
          match current with
          | Some zone => activateZone now (Some zone) st
          | None => activateZone now (Some first) st
          end
      end
  end.

Definition ensureActiveZone (now : Z) (st : State) : State * option Zone :=
  match activeZone st with
  | Some zone => (st, Some zone)
  | None =>
      let st := selectAndActivateZone now st in
      (st, activeZone st)
  end.

(** *** The zone feed *)

Definition onZonesSubscribed (now : Z) (zoneList : list Zone) (st : State) : State :=
  let st :=
    set_zones
      (fold_left (fun acc zone => obj_assign acc (zone_id zone) zone)
         zoneList [])
      st in
  selectAndActivateZone now st.

(** The bodies of the four [forEach] loops of [onZonesChanged]. *)
Definition zone_removed (now : Z) (st : State) (zoneId : string) : State :=
  let st := set_zones (obj_delete (zones st) zoneId) st in
  if is_active_id zoneId (activeZoneId st)
  then activateZone now None st
  else st.

Definition zone_added (st : State) (zone : Zone) : State :=
  set_zones (obj_assign (zones st) (zone_id zone) zone) st.

Definition zone_changed (now : Z) (st : State) (zone : Zone) : State :=
  let st := set_zones (obj_assign (zones st) (zone_id zone) zone) st in
  if is_active_id (zone_id zone) (activeZoneId st)
  then activateZone now (Some zone) st
  else st.

(** The zone after the two assignments of the seek loop. *)
Definition seek_patched (zone : Zone) (seekUpdate : SeekUpdate) : Zone :=
  let np := now_playing_or_empty zone in
  {| zone_id := zone_id zone;
     display_name_property := display_name_property zone;
     state := state zone;
     now_playing :=
       Some {| title := title np; artist := artist np; album := album np;
               artist_line := artist_line np; three_line := three_line np;
               two_line := two_line np; one_line := one_line np;
               np_length := np_length np;
               seek_position := su_seek_position seekUpdate;
               image_key := image_key np |};
     is_play_allowed := is_play_allowed zone;
     is_pause_allowed := is_pause_allowed zone;
     is_seek_allowed := is_seek_allowed zone;
     is_next_allowed := is_next_allowed zone;
     is_previous_allowed := is_previous_allowed zone;
     settings := settings zone;
     outputs := outputs zone;
     queue_time_remaining := su_queue_time_remaining seekUpdate |}.

Definition zone_seek_changed (now : Z) (st : State) (seekUpdate : SeekUpdate) : State :=
  match obj_get (zones st) (su_zone_id seekUpdate) with
  | None => st
  | Some zone =>
      let zone := seek_patched zone seekUpdate in
      let st := set_zones (obj_set (zones st) (su_zone_id seekUpdate) zone) st in
      if is_active_id (su_zone_id seekUpdate) (activeZoneId st) then
        let st := updateSeekState now zone st in
        set_seekedSignals
          (seekedSignals st
           ++ [Math_floor
                 (num_mul (or_zero (su_seek_position seekUpdate))
                    (Finite 1000000))])
          st
      else st
  end.

Definition onZonesChanged (now : Z) (changeSet : ChangeSet) (st : State) : State :=
  let st :=
    match zones_removed changeSet with
    | Some l => fold_left (zone_removed now) l st
    | None => st
    end in
  let st :=
    match zones_added changeSet with
    | Some l => fold_left zone_added l st
    | None => st
    end in
  let st :=
    match zones_changed changeSet with
    | Some l => fold_left (zone_changed now) l st
    | None => st
    end in
  let st :=
    match zones_seek_changed changeSet with
    | Some l => fold_left (zone_seek_changed now) l st
    | None => st
    end in
  if negb (truthy_opt (activeZoneId st)) then selectAndActivateZone now st
  else st.

(** A message of the zone subscription, by its command. *)
Inductive ZonesMessage : Type :=
| Subscribed (zones : option (list Zone))
| Changed (changeSet : ChangeSet)
| Unsubscribed
| other_message (command : string).

Definition on_zones_message (now : Z) (msg : ZonesMessage) (st : State) : State :=
  match msg with
  | Subscribed zs => onZonesSubscribed now (default [] zs) st
  | Changed changeSet => onZonesChanged now changeSet st
  | Unsubscribed => activateZone now None (set_zones [] st)
  | other_message _ => st
  end.

Definition onCorePaired (core : Core) (st : State) : State :=
  let st := set_session (Some core) (Some RoonApiTransport) (Some RoonApiImage) st in
  setStatus ("Connected to " +:+ core_display_name core) false st.

Definition onCoreUnpaired (now : Z) (core : Core) (st : State) : State :=
  let st := set_session None None (imageSvc st) st in
  let st := set_zones [] st in
  let st := activateZone now None st in
  setStatus "Waiting for Roon Core authorisation..." false st.

(** *** Control actions *)

Definition sendTransportCommand (now : Z) (control : string) (st : State) : State :=
  let (st, zone) := ensureActiveZone now st in
  match zone with
  | None => st
  | Some zone =>
      match transport st with
      | None => st
      | Some _ =>
          set_transportCalls
            (transportCalls st ++ [control_call (zone_id zone) control]) st
      end
  end.

(** [transport.seek(...)]: a [TypeError] when [transport] is [null]. *)
Definition transport_seek (zone : Zone) (how : string) (seconds : Number)
    (st : State) : Completion :=
  match transport st with
  | None => TypeError st
  | Some _ =>
      Returned
        (set_transportCalls
           (transportCalls st ++ [seek_call (zone_id zone) how seconds]) st)
  end.

Definition on_seek (now : Z) (offset : Z) (st : State) : Completion :=
  let (st, zone) := ensureActiveZone now st in
  match zone with
  | None => Returned st
  | Some zone =>
      let seconds := num_div (number_of_Z offset) (Finite 1000000) in
      transport_seek zone "relative" seconds st
  end.

Record PositionEvent : Type := {
  trackId : option string;
  position : Z
}.

Definition on_position (now : Z) (event : PositionEvent) (st : State) : Completion :=
  let (st, zone) := ensureActiveZone now st in
  match zone with
  | None => Returned st
  | Some zone =>
      if truthy_opt (trackId event)
         && negb (String.eqb (default EmptyString (trackId event))
                    (mpris_trackid (metadata (player st))))
      then Returned st
      else
        let seconds :=
          num_div (number_of_Z (position event)) (Finite 1000000) in
        transport_seek zone "absolute" seconds st
  end.

(** *** Events and reachable states *)

Inductive Event : Type :=
| core_paired (core : Core)
| core_unpaired (core : Core)
| zones_message (msg : ZonesMessage)
| mpris_control (verb : string)
| mpris_seek (offset : Z)
| mpris_position (event : PositionEvent)
| art_settled (i : nat) (reply : ImageReply).

(** A pending continuation of [resolveArtFile] runs as an event of its
    own.  The continuation of a promise that is already fulfilled, which
    the script runs as soon as the current handler has returned, may run
    later here as well. *)
Definition on_art_settled (i : nat) (reply : ImageReply) (st : State) : State :=
  match artJobs st !! i with
  | Some job =>
      settle_art job reply
        (set_art (keyToFilePath st) (files st) (delete i (artJobs st))
           (imageRequests st) st)
  | None => st
  end.

Definition handle (now : Z) (ev : Event) (st : State) : Completion :=
  match ev with
  | core_paired core => Returned (onCorePaired core st)
  | core_unpaired core => Returned (onCoreUnpaired now core st)
  | zones_message msg => Returned (on_zones_message now msg st)
  | mpris_control verb => Returned (sendTransportCommand now verb st)
  | mpris_seek offset => on_seek now offset st
  | mpris_position event => on_position now event st
  | art_settled i reply => Returned (on_art_settled i reply st)
  end.

(** Every event may arrive in every state: the script never cancels the
    zone subscription, so its messages can follow the loss of the core. *)
Inductive reachable : State -> Prop :=
| reachable_init (now : Z) (existing : gset string) :
    reachable (init now existing)
| reachable_step (now : Z) (ev : Event) (st st' : State) :
    reachable st -> handle now ev st = Returned st' ->
    reachable st'.

(** The zone ids that an event carries in a zone or a seek update. *)
Definition event_zone_ids (ev : Event) : list string :=
  match ev with
  | zones_message (Subscribed zs) => map zone_id (default [] zs)
  | zones_message (Changed changeSet) =>
      map zone_id (default [] (zones_added changeSet))
      ++ map zone_id (default [] (zones_changed changeSet))
      ++ map su_zone_id (default [] (zones_seek_changed changeSet))
  | _ => []
  end.

(** The states reached through events none of whose zone ids is a
    property name of [Object.prototype]: for these the script's reads of
    [zones[id]] are reads of own properties. *)
Inductive reachable_plain : State -> Prop :=
| reachable_plain_init (now : Z) (existing : gset string) :
    reachable_plain (init now existing)
| reachable_plain_step (now : Z) (ev : Event) (st st' : State) :
    reachable_plain st ->
    Forall (fun k => inherited_key k = false) (event_zone_ids ev) ->
    handle now ev st = Returned st' ->
    reachable_plain st'.

(** ** Notions of the specification *)

(** Case-insensitive equality of two strings. *)
Definition ci_equal (a b : string) : Prop := toLowerCase a = toLowerCase b.

(** A zone whose id, display name, or any output's id or display name
    case-insensitively equals the preference. *)
Definition zone_matches (preference : string) (zone : Zone) : Prop :=
  ci_equal (zone_id zone) preference
  \/ (exists d, display_name zone = Some d /\ ci_equal d preference)
  \/ (exists outs o, outputs zone = Some outs /\ In o outs
       /\ ((exists i, output_id o = Some i /\ ci_equal i preference)
           \/ (exists d, output_display_name o = Some d
                         /\ ci_equal d preference))).

(** A zone of the registry. *)
Definition in_registry (zone : Zone) (zs : JsObj Zone) : Prop :=
  In zone (map snd zs).

(** The idle projection: the default metadata, stopped, every control
    but [canControl] disabled, and no selection. *)
Definition idle_projection (st : State) : Prop :=
  metadata (player st) = idle_metadata
  /\ playbackStatus (player st) = "Stopped"
  /\ canPlay (player st) = false /\ canPause (player st) = false
  /\ canSeek (player st) = false /\ canGoNext (player st) = false
  /\ canGoPrevious (player st) = false
  /\ activeZoneId st = None /\ activeZone st = None.

(** The position estimate as the specification words it: the elapsed
    seconds of the anchor, clamped to the length when it is known, then
    to zero from below, in whole microseconds, each step in double
    precision.  Wall-clock times are in milliseconds. *)
Definition currentPositionMicros (anchorSeconds : Q) (anchorWallClockTime : Z)
    (playing : bool) (lengthSeconds : option Q) (now : Z) : Number :=
  let elapsed :=
    if playing
    then num_add (Finite anchorSeconds)
           (num_div (number_of_Z (now - anchorWallClockTime)) (Finite 1000))
    else Finite anchorSeconds in
  let elapsed :=
    match lengthSeconds with
    | Some len => Math_min elapsed (Finite len)
    | None => elapsed
    end in
  let elapsed := Math_max (Finite 0) elapsed in
  Math_floor (num_mul elapsed (Finite 1000000)).

(** A key that the script reads from the registry as this development
    does: an own property, or no property at all. *)
Definition own_or_absent (zs : JsObj Zone) (k : string) : Prop :=
  is_Some (obj_get zs k) \/ inherited_key k = false.

(** The first candidate that is present and not empty. *)
Fixpoint first_non_empty (candidates : list (option string)) : option string :=
  match candidates with
  | [] => None
  | Some s :: rest => if truthy_string s then Some s else first_non_empty rest
  | None :: rest => first_non_empty rest
  end.

(** The zone that [selectAndActivateZone] activates, read off its
    branches. *)
Definition selected (zs : JsObj Zone) (active : option string) : option Zone :=
  match obj_values zs with
  | [] => None
  | first :: _ =>
      match pickPreferredZone (obj_values zs) with
      | Some preferred => Some preferred
      | None =>
          match (if truthy_opt active
                 then obj_get zs (default EmptyString active) else None) with
          | Some zone => Some zone
          | None => Some first
          end
      end
  end.

(** Zone [a] is the active zone: the active id is [a] and the active
    snapshot is a zone of that id. *)
Definition active_zone_is (a : string) (st : State) : Prop :=
  activeZoneId st = Some a
  /\ exists zone, activeZone st = Some zone /\ zone_id zone = a.

(** With no active zone the seek anchor is the one [activateZone(null)]
    leaves: position zero, stopped, no length. *)
Definition anchor_reset (st : State) : Prop :=
  activeZone st = None ->
  activeZoneId st = None /\ lastSeekSeconds st = 0%Q
  /\ lastKnownZoneState st = "stopped" /\ activeLengthSeconds st = None.

(** With no active zone the registry is empty. *)
Definition no_active_no_registry (st : State) : Prop :=
  activeZone st = None -> zones st = [].

(** The seconds that [getPosition] scales, at wall-clock time [now]. *)
Definition elapsed_seconds (st : State) (now : Z) : Number :=
  let seconds :=
    if String.eqb (lastKnownZoneState st) "playing"
    then num_add (Finite (lastSeekSeconds st))
           (num_div (number_of_Z (now - lastSeekUpdate st)) (Finite 1000))
    else Finite (lastSeekSeconds st) in
  match activeLengthSeconds st with
  | Some len => Math_min seconds (Finite len)
  | None => seconds
  end.

(** The zone ids that a change set carries in a zone or a seek update
    are no property names of [Object.prototype]. *)
Definition plain_ids (changeSet : ChangeSet) : Prop :=
  Forall (fun k => inherited_key k = false)
    (event_zone_ids (zones_message (Changed changeSet))).

(** Two states that differ at most in the log of the transport calls. *)
Definition only_calls_differ (st st' : State) : Prop :=
  activeCore st' = activeCore st /\ transport st' = transport st
  /\ imageSvc st' = imageSvc st /\ zones st' = zones st
  /\ activeZoneId st' = activeZoneId st /\ activeZone st' = activeZone st
  /\ lastSeekSeconds st' = lastSeekSeconds st
  /\ lastSeekUpdate st' = lastSeekUpdate st
  /\ activeLengthSeconds st' = activeLengthSeconds st
  /\ lastKnownZoneState st' = lastKnownZoneState st
  /\ player st' = player st /\ keyToFilePath st' = keyToFilePath st
  /\ files st' = files st /\ artJobs st' = artJobs st
  /\ imageRequests st' = imageRequests st
  /\ seekedSignals st' = seekedSignals st /\ statusLog st' = statusLog st.

(** Two zones that differ at most in [now_playing.seek_position] and
    [queue_time_remaining], an absent [now_playing] read as [{}]. *)
Definition same_but_seek (zone zone' : Zone) : Prop :=
  let np := now_playing_or_empty zone in
  let np' := now_playing_or_empty zone' in
  zone_id zone' = zone_id zone
  /\ display_name_property zone' = display_name_property zone
  /\ state zone' = state zone
  /\ is_play_allowed zone' = is_play_allowed zone
  /\ is_pause_allowed zone' = is_pause_allowed zone
  /\ is_seek_allowed zone' = is_seek_allowed zone
  /\ is_next_allowed zone' = is_next_allowed zone
  /\ is_previous_allowed zone' = is_previous_allowed zone
  /\ settings zone' = settings zone /\ outputs zone' = outputs zone
  /\ title np' = title np /\ artist np' = artist np /\ album np' = album np
  /\ artist_line np' = artist_line np /\ three_line np' = three_line np
  /\ two_line np' = two_line np /\ one_line np' = one_line np
  /\ np_length np' = np_length np /\ image_key np' = image_key np.

(** The key has a resolved path whose file exists. *)
Definition art_cached (imageKey : string) (st : State) : Prop :=
  exists path, keyToFilePath st !! imageKey = Some path
               /\ path <> EmptyString /\ path ∈ files st.

(** The [now_playing] record [{three_line: {line1: T, line2: A,
    line3: Al}}]. *)
Definition three_line_only : NowPlaying :=
  {| title := JsAbsent; artist := JsAbsent; album := JsAbsent;
     artist_line := JsAbsent;
     three_line :=
       JsObject [("line1", JsString "T"); ("line2", JsString "A");
                 ("line3", JsString "Al")];
     two_line := JsAbsent; one_line := JsAbsent; np_length := None;
     seek_position := None; image_key := None |}.

(** The variables that the projection of a zone never assigns. *)
Definition kept (st : State) :=
  (activeCore st, transport st, imageSvc st, zones st, activeZoneId st,
   activeZone st, transportCalls st, seekedSignals st).

(** * Properties *)

(** ** Rounding and the order of the numbers *)

Lemma Qcompare_cases (a b : Q) :
  match Qcompare a b with
  | Eq => (a == b)%Q
  | Lt => (a < b)%Q
  | Gt => (b < a)%Q
  end.
Proof.
  destruct (Qcompare a b) eqn:E.
  - exact (proj2 (Qeq_alt a b) E).
  - exact (proj2 (Qlt_alt a b) E).
  - exact (proj2 (Qgt_alt a b) E).
Qed.

Lemma rne_floor (x : Q) : Qfloor x <= rne x <= Qfloor x + 1.
Proof.
  unfold rne. cbv zeta.
  destruct (Qcompare _ _); [destruct (Z.even _)| |]; lia.
Qed.

Lemma rne_le_int (x : Q) (k : Z) : (x <= inject_Z k)%Q -> rne x <= k.
Proof.
  intros H. pose proof (Qfloor_resp_le _ _ H) as Hf. rewrite Qfloor_Z in Hf.
  destruct (Z.eq_dec (Qfloor x) k) as [E|E].
  - unfold rne. cbv zeta. rewrite E.
    pose proof (Qcompare_cases (x - inject_Z k) (1 # 2)) as Hc.
    destruct (Qcompare (x - inject_Z k)%Q (1 # 2)%Q); [exfalso; lra|lia|exfalso; lra].
  - pose proof (rne_floor x). lia.
Qed.

Lemma int_le_rne (x : Q) (k : Z) : (inject_Z k <= x)%Q -> k <= rne x.
Proof.
  intros H. pose proof (Qfloor_resp_le _ _ H) as Hf. rewrite Qfloor_Z in Hf.
  pose proof (rne_floor x). lia.
Qed.

Lemma rne_mono (x y : Q) : (x <= y)%Q -> rne x <= rne y.
Proof.
  intros H. pose proof (Qfloor_resp_le _ _ H) as Hf.
  destruct (Z.eq_dec (Qfloor x) (Qfloor y)) as [E|E].
  - unfold rne. cbv zeta. rewrite E.
    pose proof (Qcompare_cases (x - inject_Z (Qfloor y)) (1 # 2)) as Ex.
    pose proof (Qcompare_cases (y - inject_Z (Qfloor y)) (1 # 2)) as Ey.
    destruct (Qcompare (x - inject_Z (Qfloor y))%Q (1 # 2)%Q);
      destruct (Qcompare (y - inject_Z (Qfloor y))%Q (1 # 2)%Q);
      try (destruct (Z.even (Qfloor y))); try lia; exfalso; lra.
  - pose proof (rne_floor x). pose proof (rne_floor y). lia.
Qed.

Lemma rne_int (k : Z) : rne (inject_Z k) = k.
Proof.
  pose proof (rne_le_int (inject_Z k) k (Qle_refl _)).
  pose proof (int_le_rne (inject_Z k) k (Qle_refl _)). lia.
Qed.

Lemma pow2_pos (s : Z) : 0 <= s -> (0 < inject_Z (2 ^ s))%Q.
Proof.
  intros H. change 0%Q with (inject_Z 0). rewrite <- Zlt_Qlt.
  apply Z.pow_pos_nonneg; lia.
Qed.

Lemma floor_lt_pow2 (x : Q) :
  (0 <= x)%Q -> (x < inject_Z (2 ^ (Z.log2 (Qfloor x) + 1)))%Q.
Proof.
  intros H.
  assert (Hf : 0 <= Qfloor x).
  { exact (Qfloor_resp_le 0 x H). }
  assert (Hz : Qfloor x + 1 <= 2 ^ (Z.log2 (Qfloor x) + 1)).
  { destruct (Z.eq_dec (Qfloor x) 0) as [E|E].
    - rewrite E. simpl. lia.
    - pose proof (Z.log2_spec (Qfloor x) ltac:(lia)) as Hs.
      replace (Z.succ (Z.log2 (Qfloor x))) with (Z.log2 (Qfloor x) + 1) in Hs
        by lia.
      lia. }
  apply Qlt_le_trans with (inject_Z (Qfloor x + 1)).
  - apply Qlt_floor.
  - rewrite <- Zle_Qle. exact Hz.
Qed.

Lemma round_units_mono (x y : Q) :
  (0 <= x)%Q -> (x <= y)%Q -> round_units x <= round_units y.
Proof.
  intros H0 H. unfold round_units. cbv zeta.
  pose proof (Qfloor_resp_le _ _ H) as Hf.
  pose proof (Z.log2_le_mono _ _ Hf) as Hl.
  set (ex := Z.log2 (Qfloor x)) in *. set (ey := Z.log2 (Qfloor y)) in *.
  assert (Hex : 0 <= ex) by apply Z.log2_nonneg.
  set (sx := Z.max (ex - 52) 0). set (sy := Z.max (ey - 52) 0).
  assert (Hsx : 0 <= sx) by lia. assert (Hsy : 0 <= sy) by lia.
  pose proof (pow2_pos sx Hsx) as Px. pose proof (pow2_pos sy Hsy) as Py.
  destruct (Z.eq_dec sx sy) as [E|E].
  - rewrite <- E. apply Z.mul_le_mono_nonneg_r; [apply Z.pow_nonneg; lia|].
    apply rne_mono. apply Qmult_le_r; [apply Qinv_lt_0_compat; exact Px|exact H].
  - assert (Hlt : sx < sy) by lia.
    assert (Esy : sy = ey - 52) by lia.
    assert (Hxy : ex + 1 <= ey) by lia.
    (* upper bound for x *)
    assert (Ux : rne (x / inject_Z (2 ^ sx)) <= 2 ^ (ex + 1 - sx)).
    { apply rne_le_int. apply Qle_shift_div_r; [exact Px|].
      rewrite <- inject_Z_mult, <- Z.pow_add_r by lia.
      replace (ex + 1 - sx + sx) with (ex + 1) by lia.
      apply Qlt_le_weak. subst ex. apply floor_lt_pow2. exact H0. }
    (* lower bound for y *)
    assert (Ly : 2 ^ 52 <= rne (y / inject_Z (2 ^ sy))).
    { apply int_le_rne. apply Qle_shift_div_l; [exact Py|].
      rewrite <- inject_Z_mult, <- Z.pow_add_r by lia.
      replace (52 + sy) with ey by lia.
      apply Qle_trans with (inject_Z (Qfloor y)); [|apply Qfloor_le].
      rewrite <- Zle_Qle.
      assert (Hp : 0 < Qfloor y).
      { destruct (Z.le_gt_cases (Qfloor y) 0) as [Hn|Hp]; [|lia].
        exfalso. pose proof (Z.log2_nonpos _ Hn). subst ey. lia. }
      subst ey. apply Z.log2_spec. exact Hp. }
    assert (Ex1 : 2 ^ (ex + 1) = 2 ^ (ex + 1 - sx) * 2 ^ sx).
    { rewrite <- Z.pow_add_r by lia. f_equal. lia. }
    assert (Ey1 : 2 ^ ey = 2 ^ 52 * 2 ^ sy).
    { rewrite <- Z.pow_add_r by lia. f_equal. lia. }
    assert (Hp : 0 <= 2 ^ sx) by (apply Z.pow_nonneg; lia).
    assert (Hq : 0 <= 2 ^ sy) by (apply Z.pow_nonneg; lia).
    apply Z.le_trans with (2 ^ (ex + 1)).
    + rewrite Ex1. apply Z.mul_le_mono_nonneg_r; assumption.
    + apply Z.le_trans with (2 ^ ey); [apply Z.pow_le_mono_r; lia|].
      rewrite Ey1. apply Z.mul_le_mono_nonneg_r; assumption.
Qed.

Lemma round_units_0 : round_units 0 = 0.
Proof. reflexivity. Qed.

Lemma unit_scale_pos : (0 < unit_scale)%Q.
Proof. apply pow2_pos. lia. Qed.

Lemma round_magnitude_mono (x y : Q) :
  (0 <= x)%Q -> (x <= y)%Q -> (round_magnitude x <= round_magnitude y)%Q.
Proof.
  intros H0 H. unfold round_magnitude. pose proof unit_scale_pos as P.
  apply Qmult_le_r; [apply Qinv_lt_0_compat; exact P|].
  rewrite <- Zle_Qle. apply round_units_mono.
  - apply Qmult_le_0_compat; [exact H0|apply Qlt_le_weak; exact P].
  - apply Qmult_le_r; [exact P|exact H].
Qed.

Lemma round_magnitude_nonneg (x : Q) : (0 <= x)%Q -> (0 <= round_magnitude x)%Q.
Proof.
  intros H. pose proof (round_magnitude_mono 0 x (Qle_refl 0) H) as Hm.
  assert (E : (round_magnitude 0 == 0)%Q) by reflexivity.
  rewrite E in Hm. exact Hm.
Qed.

Lemma round_finite_mono (x y : Q) :
  (x <= y)%Q -> (round_finite x <= round_finite y)%Q.
Proof.
  intros H. unfold round_finite.
  destruct (Qle_bool 0 x) eqn:Ex; destruct (Qle_bool 0 y) eqn:Ey.
  - apply Qle_bool_iff in Ex. apply round_magnitude_mono; assumption.
  - apply Qle_bool_iff in Ex.
    assert (Hy : ~ (0 <= y)%Q) by (rewrite <- Qle_bool_iff; congruence).
    exfalso. apply Hy. lra.
  - apply Qle_bool_iff in Ey.
    assert (Hx : ~ (0 <= x)%Q) by (rewrite <- Qle_bool_iff; congruence).
    pose proof (round_magnitude_nonneg (- x) ltac:(lra)).
    pose proof (round_magnitude_nonneg y Ey). lra.
  - assert (Hx : ~ (0 <= x)%Q) by (rewrite <- Qle_bool_iff; congruence).
    assert (Hy : ~ (0 <= y)%Q) by (rewrite <- Qle_bool_iff; congruence).
    pose proof (round_magnitude_mono (- y) (- x) ltac:(lra) ltac:(lra)). lra.
Qed.

Lemma num_le_refl (a : Number) : a <> NaN -> num_le a a.
Proof.
  destruct a as [|[|]|q]; simpl; try tauto. intros _. apply Qle_refl.
Qed.

Lemma num_le_trans (a b c : Number) : num_le a b -> num_le b c -> num_le a c.
Proof.
  destruct a as [|[|]|p], b as [|[|]|q], c as [|[|]|r]; simpl; try tauto.
  apply Qle_trans.
Qed.

Lemma num_le_not_NaN (a b : Number) : num_le a b -> a <> NaN /\ b <> NaN.
Proof. destruct a as [|[|]|p], b as [|[|]|q]; simpl; try tauto; split; discriminate. Qed.

Lemma num_leb_le (a b : Number) : num_leb a b = true <-> num_le a b.
Proof.
  destruct a as [|[|]|p], b as [|[|]|q]; simpl;
    try (split; [discriminate|tauto]); try (split; [tauto|reflexivity]).
  apply Qle_bool_iff.
Qed.

Lemma num_le_total (a b : Number) :
  a <> NaN -> b <> NaN -> num_le a b \/ num_le b a.
Proof.
  destruct a as [|[|]|p], b as [|[|]|q]; simpl; try tauto.
  intros _ _. destruct (Qlt_le_dec p q); [left; lra|right; assumption].
Qed.

Lemma is_NaN_false (a : Number) : a <> NaN -> is_NaN a = false.
Proof. destruct a; [intros H; contradiction|reflexivity|reflexivity]. Qed.

Lemma overflow_bound_pos : (0 < overflow_bound)%Q.
Proof. apply pow2_pos. lia. Qed.

Lemma round_not_NaN (x : Q) : round x <> NaN.
Proof.
  unfold round. cbv zeta.
  destruct (Qle_bool _ _); [discriminate|]. destruct (Qle_bool _ _); discriminate.
Qed.

Lemma round_mono (x y : Q) : (x <= y)%Q -> num_le (round x) (round y).
Proof.
  intros H. pose proof (round_finite_mono x y H) as Hm.
  pose proof overflow_bound_pos as HB. unfold round. cbv zeta.
  pose proof (Qred_correct (round_finite x)) as Ex.
  pose proof (Qred_correct (round_finite y)) as Ey.
  set (rx := Qred (round_finite x)) in *. set (ry := Qred (round_finite y)) in *.
  set (B := overflow_bound) in *. clearbody rx ry B.
  destruct (Qle_bool B rx) eqn:E1; destruct (Qle_bool B ry) eqn:E2;
    try (destruct (Qle_bool rx (- B)) eqn:E3);
    try (destruct (Qle_bool ry (- B)) eqn:E4); simpl; try exact I;
    try apply Qle_bool_iff in E1; try apply Qle_bool_iff in E2;
    try apply Qle_bool_iff in E3; try apply Qle_bool_iff in E4;
    try (assert (N1 : ~ (B <= rx)%Q) by (rewrite <- Qle_bool_iff; congruence));
    try (assert (N2 : ~ (B <= ry)%Q) by (rewrite <- Qle_bool_iff; congruence));
    try (assert (N3 : ~ (rx <= - B)%Q) by (rewrite <- Qle_bool_iff; congruence));
    try (assert (N4 : ~ (ry <= - B)%Q) by (rewrite <- Qle_bool_iff; congruence));
    try lra.
Qed.

Lemma round_zero : round 0 = Finite 0.
Proof. vm_compute. reflexivity. Qed.

Lemma round_sign (x : Q) :
  ((0 <= x)%Q -> num_le (Finite 0) (round x))
  /\ ((x <= 0)%Q -> num_le (round x) (Finite 0)).
Proof.
  split; intros H; [pose proof (round_mono 0 x H) as Hm
                   |pose proof (round_mono x 0 H) as Hm];
    rewrite round_zero in Hm; exact Hm.
Qed.

(** A literal of magnitude at most [2^1023] reads as a finite number. *)
Lemma round_in_range (x : Q) :
  (- inject_Z (2 ^ 1023) <= x)%Q -> (x <= inject_Z (2 ^ 1023))%Q ->
  exists d, round x = Finite d.
Proof.
  intros Hl Hu.
  pose proof (round_finite_mono _ _ Hl) as H1.
  pose proof (round_finite_mono _ _ Hu) as H2.
  assert (E1 : (round_finite (- inject_Z (2 ^ 1023)) == - inject_Z (2 ^ 1023))%Q)
    by (vm_compute; reflexivity).
  assert (E2 : (round_finite (inject_Z (2 ^ 1023)) == inject_Z (2 ^ 1023))%Q)
    by (vm_compute; reflexivity).
  rewrite E1 in H1. rewrite E2 in H2.
  assert (Hb : (inject_Z (2 ^ 1023) < overflow_bound)%Q).
  { unfold overflow_bound. rewrite <- Zlt_Qlt. apply Z.pow_lt_mono_r; lia. }
  unfold round. cbv zeta.
  pose proof (Qred_correct (round_finite x)) as Er.
  set (r := Qred (round_finite x)) in *.
  set (B := overflow_bound) in *. set (M := inject_Z (2 ^ 1023)) in *.
  clearbody r B M.
  destruct (Qle_bool B r) eqn:Ea.
  - apply Qle_bool_iff in Ea. exfalso. lra.
  - destruct (Qle_bool r (- B)) eqn:Eb.
    + apply Qle_bool_iff in Eb. exfalso. lra.
    + exists r. reflexivity.
Qed.

Lemma Math_floor_mono (a b : Number) :
  num_le a b -> num_le (Math_floor a) (Math_floor b).
Proof.
  destruct a as [|[|]|p], b as [|[|]|q]; simpl; try tauto.
  intros H. rewrite <- Zle_Qle. apply Qfloor_resp_le. exact H.
Qed.

Lemma Math_floor_le (a : Number) : a <> NaN -> num_le (Math_floor a) a.
Proof.
  destruct a as [|[|]|p]; simpl; try tauto. intros _. apply Qfloor_le.
Qed.

Lemma Math_min_mono (a b c : Number) :
  c <> NaN -> num_le a b -> num_le (Math_min a c) (Math_min b c).
Proof.
  intros Hc H. destruct (num_le_not_NaN a b H) as [Ha Hb].
  unfold Math_min.
  rewrite (is_NaN_false a Ha).
  rewrite (is_NaN_false b Hb).
  rewrite (is_NaN_false c Hc).
  cbv beta iota delta [orb].
  destruct (num_leb a c) eqn:E1; destruct (num_leb b c) eqn:E2.
  - exact H.
  - apply num_leb_le. exact E1.
  - apply num_leb_le in E2. exfalso.
    assert (N : ~ num_le a c) by (rewrite <- num_leb_le; congruence).
    apply N. eapply num_le_trans; eassumption.
  - apply num_le_refl. exact Hc.
Qed.

Lemma Math_min_le_r (a c : Number) :
  a <> NaN -> c <> NaN -> num_le (Math_min a c) c.
Proof.
  intros Ha Hc. unfold Math_min.
  rewrite (is_NaN_false a Ha).
  rewrite (is_NaN_false c Hc).
  cbv beta iota delta [orb].
  destruct (num_leb a c) eqn:E; [apply num_leb_le; exact E|].
  apply num_le_refl. exact Hc.
Qed.

Lemma Math_max_mono (a b c : Number) :
  c <> NaN -> num_le a b -> num_le (Math_max c a) (Math_max c b).
Proof.
  intros Hc H. destruct (num_le_not_NaN a b H) as [Ha Hb].
  unfold Math_max.
  rewrite (is_NaN_false a Ha).
  rewrite (is_NaN_false b Hb).
  rewrite (is_NaN_false c Hc).
  cbv beta iota delta [orb].
  destruct (num_leb c a) eqn:E1; destruct (num_leb c b) eqn:E2.
  - exact H.
  - exfalso. apply num_leb_le in E1.
    assert (N : ~ num_le c b) by (rewrite <- num_leb_le; congruence).
    apply N. eapply num_le_trans; eassumption.
  - apply num_leb_le. exact E2.
  - apply num_le_refl. exact Hc.
Qed.

Lemma Math_max_ge_l (c a : Number) :
  c <> NaN -> a <> NaN -> num_le c (Math_max c a).
Proof.
  intros Hc Ha. unfold Math_max.
  rewrite (is_NaN_false a Ha).
  rewrite (is_NaN_false c Hc).
  cbv beta iota delta [orb].
  destruct (num_leb c a) eqn:E; [apply num_leb_le; exact E|].
  apply num_le_refl. exact Hc.
Qed.

Lemma num_mul_mono (a b : Number) (c : Q) :
  (0 < c)%Q -> num_le a b ->
  num_le (num_mul a (Finite c)) (num_mul b (Finite c)).
Proof.
  intros Hc H.
  assert (Es : forall s, signed_infinity s c = Infinity s).
  { intros s. unfold signed_infinity.
    pose proof (Qcompare_cases c 0) as C.
    destruct (Qcompare c 0); [exfalso; lra|exfalso; lra|reflexivity]. }
  destruct a as [|[|]|p], b as [|[|]|q]; simpl in *; rewrite ?Es; try tauto.
  - pose proof (round_not_NaN (q * c)). destruct (round (q * c)); simpl; tauto.
  - pose proof (round_not_NaN (p * c)).
    destruct (round (p * c)) as [|[|]|r]; simpl; tauto.
  - apply round_mono. apply Qmult_le_r; assumption.
Qed.

Lemma num_div_mono (a b : Number) (c : Q) :
  (0 < c)%Q -> num_le a b ->
  num_le (num_div a (Finite c)) (num_div b (Finite c)).
Proof.
  intros Hc H.
  assert (E0 : Qle_bool 0 c = true) by (apply Qle_bool_iff; lra).
  assert (E1 : Qeq_bool c 0 = false).
  { destruct (Qeq_bool c 0) eqn:E; [|reflexivity].
    apply Qeq_bool_eq in E. exfalso. lra. }
  destruct a as [|[|]|p], b as [|[|]|q]; simpl in *; rewrite ?E0, ?E1;
    try tauto.
  - pose proof (round_not_NaN (q / c)). destruct (round (q / c)); simpl; tauto.
  - pose proof (round_not_NaN (p / c)).
    destruct (round (p / c)) as [|[|]|r]; simpl; tauto.
  - apply round_mono. apply Qmult_le_r; [apply Qinv_lt_0_compat|]; assumption.
Qed.

Lemma num_add_mono (a b : Number) (c : Q) :
  num_le a b -> num_le (num_add (Finite c) a) (num_add (Finite c) b).
Proof.
  intros H.
  destruct a as [|[|]|p], b as [|[|]|q]; simpl in *; try tauto.
  - pose proof (round_not_NaN (c + q)). destruct (round (c + q)); simpl; tauto.
  - pose proof (round_not_NaN (c + p)).
    destruct (round (c + p)) as [|[|]|r]; simpl; tauto.
  - apply round_mono. lra.
Qed.

(** ** Objects and strings *)

Lemma obj_get_set_eq {V} (o : JsObj V) (k : string) (v : V) :
  obj_get (obj_set o k v) k = Some v.
Proof.
  induction o as [|[k' v'] o IH]; simpl.
  - now rewrite String.eqb_refl.
  - destruct (String.eqb k' k) eqn:E; simpl; rewrite E; auto.
Qed.

Lemma obj_get_set_ne {V} (o : JsObj V) (k k' : string) (v : V) :
  k <> k' -> obj_get (obj_set o k v) k' = obj_get o k'.
Proof.
  intros Hne. induction o as [|[k0 v0] o IH]; simpl.
  - destruct (String.eqb k k') eqn:E; auto.
    apply String.eqb_eq in E. contradiction.
  - destruct (String.eqb k0 k) eqn:E; simpl.
    + apply String.eqb_eq in E. subst k0.
      destruct (String.eqb k k') eqn:E'; auto.
      apply String.eqb_eq in E'. contradiction.
    + rewrite IH. reflexivity.
Qed.

Lemma obj_values_In {V} (o : JsObj V) (v : V) :
  In v (obj_values o) <-> In v (map snd o).
Proof.
  unfold obj_values. rewrite in_app_iff.
  assert (Hs : In v (map snd (merge_sort index_le (omap index_entry o)))
               <-> In v (map snd (omap index_entry o))).
  { split; apply Permutation_in; apply Permutation_map;
      [|symmetry]; apply merge_sort_Permutation. }
  rewrite Hs. clear Hs.
  induction o as [|[k x] o IH].
  - cbn. tauto.
  - rewrite filter_cons. cbn [omap list_omap]. unfold index_entry at 1.
    cbn [fst snd]. destruct (array_index k) eqn:E.
    + rewrite decide_False by discriminate. simpl. tauto.
    + rewrite decide_True by reflexivity. simpl. tauto.
Qed.

Lemma obj_values_nil {V} (o : JsObj V) : obj_values o = [] <-> o = [].
Proof.
  split.
  - destruct o as [|[k v] o]; [reflexivity|].
    intros H. assert (Hin : In v (obj_values ((k, v) :: o))).
    { apply obj_values_In. simpl. now left. }
    rewrite H in Hin. destruct Hin.
  - intros ->. reflexivity.
Qed.

Lemma obj_get_In {V} (o : JsObj V) (k : string) (v : V) :
  obj_get o k = Some v -> In v (map snd o).
Proof.
  induction o as [|[k' v'] o IH]; simpl; [discriminate|].
  destruct (String.eqb k' k); intros H.
  - injection H as ->. now left.
  - right. auto.
Qed.

Lemma ascii_toLowerCase_empty (s : string) :
  ascii_toLowerCase s = EmptyString <-> s = EmptyString.
Proof. destruct s; simpl; split; congruence. Qed.

Lemma truthy_string_true (s : string) :
  truthy_string s = true <-> s <> EmptyString.
Proof. destruct s; simpl; split; congruence. Qed.

(** ** Frame lemmas: what the projection functions leave alone *)

Lemma setStatus_kept m e st : kept (setStatus m e st) = kept st.
Proof. reflexivity. Qed.

Lemma resolveArtFile_kept k st : kept (resolveArtFile k st) = kept st.
Proof.
  unfold resolveArtFile. destruct (_ || _); [reflexivity|].
  destruct (keyToFilePath st !! k); [destruct (_ && _)|]; reflexivity.
Qed.

Lemma updateCapabilities_kept z st : kept (updateCapabilities z st) = kept st.
Proof. reflexivity. Qed.

Lemma updateMetadata_kept z st : kept (updateMetadata z st) = kept st.
Proof.
  unfold updateMetadata. cbv zeta.
  destruct (truthy_opt (image_key _)); [|reflexivity].
  change (kept (set_player ?p ?s)) with (kept s).
  apply resolveArtFile_kept.
Qed.

Lemma updatePlaybackState_kept z st : kept (updatePlaybackState z st) = kept st.
Proof. reflexivity. Qed.

Lemma updateSeekState_kept now z st : kept (updateSeekState now z st) = kept st.
Proof.
  unfold updateSeekState.
  destruct (normaliseNumber (seek_position _)); reflexivity.
Qed.

Lemma updateFromActiveZone_kept now z st :
  kept (updateFromActiveZone now z st) = kept st.
Proof.
  unfold updateFromActiveZone. cbv zeta.
  destruct (activeCore _); rewrite ?setStatus_kept, updateSeekState_kept,
    updatePlaybackState_kept, updateMetadata_kept, updateCapabilities_kept;
    reflexivity.
Qed.

Lemma activateZone_Some now zone st :
  kept (activateZone now (Some zone) st)
  = kept (set_active (Some (zone_id zone)) (Some zone) st).
Proof. unfold activateZone. apply updateFromActiveZone_kept. Qed.

Lemma activateZone_None now st :
  kept (activateZone now None st) = kept (set_active None None st).
Proof. unfold activateZone. destruct (activeCore _); reflexivity. Qed.

Lemma kept_fields st st' :
  kept st = kept st' ->
  activeCore st = activeCore st' /\ transport st = transport st'
  /\ imageSvc st = imageSvc st' /\ zones st = zones st'
  /\ activeZoneId st = activeZoneId st' /\ activeZone st = activeZone st'
  /\ transportCalls st = transportCalls st'
  /\ seekedSignals st = seekedSignals st'.
Proof. unfold kept. intros H. injection H. intros. repeat split; congruence. Qed.

Lemma activateZone_kept now z st :
  kept (activateZone now z st) = kept (set_active (option_map zone_id z) z st).
Proof. destruct z; [apply activateZone_Some | apply activateZone_None]. Qed.

Lemma activateZone_fields now z st :
  activeCore (activateZone now z st) = activeCore st
  /\ transport (activateZone now z st) = transport st
  /\ imageSvc (activateZone now z st) = imageSvc st
  /\ zones (activateZone now z st) = zones st
  /\ activeZoneId (activateZone now z st) = option_map zone_id z
  /\ activeZone (activateZone now z st) = z
  /\ transportCalls (activateZone now z st) = transportCalls st
  /\ seekedSignals (activateZone now z st) = seekedSignals st.
Proof. exact (kept_fields _ _ (activateZone_kept now z st)). Qed.

Lemma activateZone_activeZone now z st :
  activeZone (activateZone now z st) = z.
Proof. apply activateZone_fields. Qed.

Lemma activateZone_activeZoneId now z st :
  activeZoneId (activateZone now z st) = option_map zone_id z.
Proof. apply activateZone_fields. Qed.

Lemma activateZone_zones now z st :
  zones (activateZone now z st) = zones st.
Proof. apply activateZone_fields. Qed.

Lemma activateZone_transport now z st :
  transport (activateZone now z st) = transport st.
Proof. apply activateZone_fields. Qed.

Lemma activateZone_transportCalls now z st :
  transportCalls (activateZone now z st) = transportCalls st.
Proof. apply activateZone_fields. Qed.

Lemma updateMetadata_player z st :
  player (updateMetadata z st)
  = set_metadata (metadata (player (updateMetadata z st))) (player st).
Proof.
  unfold updateMetadata. cbv zeta.
  destruct (truthy_opt (image_key _)); [|reflexivity].
  unfold resolveArtFile. destruct (_ || _); [reflexivity|].
  destruct (keyToFilePath st !! _); [destruct (_ && _)|]; reflexivity.
Qed.

Lemma updateMetadata_trackid z st :
  mpris_trackid (metadata (player (updateMetadata z st)))
  = objectPath ("zone/" +:+ zone_id z).
Proof. reflexivity. Qed.

Lemma activateZone_trackid now zone st :
  mpris_trackid (metadata (player (activateZone now (Some zone) st)))
  = objectPath ("zone/" +:+ zone_id zone).
Proof.
  unfold activateZone, updateFromActiveZone. cbv zeta.
  destruct (activeCore _); unfold setStatus, updateSeekState;
    destruct (normaliseNumber (seek_position _)); reflexivity.
Qed.

Lemma activateZone_None_idle now st :
  idle_projection (activateZone now None st).
Proof.
  unfold idle_projection, activateZone.
  destruct (activeCore _); repeat split; reflexivity.
Qed.

Lemma activateZone_None_anchor now st :
  lastSeekSeconds (activateZone now None st) = 0%Q
  /\ lastKnownZoneState (activateZone now None st) = "stopped"
  /\ activeLengthSeconds (activateZone now None st) = None.
Proof. unfold activateZone. destruct (activeCore _); repeat split; reflexivity. Qed.

(** ** Zone selection *)

Lemma selectAndActivateZone_selected now st :
  selectAndActivateZone now st
  = activateZone now (selected (zones st) (activeZoneId st)) st.
Proof.
  unfold selectAndActivateZone, selected.
  destruct (obj_values (zones st)) as [|first rest]; [reflexivity|].
  destruct (pickPreferredZone (first :: rest)); [reflexivity|].
  destruct (if truthy_opt (activeZoneId st) then _ else _); reflexivity.
Qed.

Lemma ci_test_string (s : string) :
  ZONE_PREFERENCE <> EmptyString ->
  truthy_string s && String.eqb (toLowerCase s) zonePreferenceLower = true
  <-> ci_equal s ZONE_PREFERENCE.
Proof.
  intros Hp. unfold ci_equal, zonePreferenceLower.
  rewrite andb_true_iff, String.eqb_eq. split; [tauto|].
  intros H. split; [|exact H].
  apply truthy_string_true. intros ->.
  rewrite (proj2 (toLowerCase_empty EmptyString) eq_refl) in H.
  symmetry in H. exact (Hp (proj1 (toLowerCase_empty _) H)).
Qed.

Lemma ci_test_option (o : option string) :
  ZONE_PREFERENCE <> EmptyString ->
  truthy_opt o
  && String.eqb (toLowerCase (default EmptyString o)) zonePreferenceLower = true
  <-> exists d, o = Some d /\ ci_equal d ZONE_PREFERENCE.
Proof.
  intros Hp. destruct o as [d|]; simpl.
  - rewrite (ci_test_string d Hp). split.
    + intros H. exists d. split; [reflexivity|exact H].
    + intros [d' [Hd H]]. injection Hd as ->. exact H.
  - split; [discriminate|]. intros [d [Hd _]]. discriminate.
Qed.

Lemma matchesOutput_spec (o : Output) :
  ZONE_PREFERENCE <> EmptyString ->
  matchesOutput o = true
  <-> (exists i, output_id o = Some i /\ ci_equal i ZONE_PREFERENCE)
      \/ (exists d, output_display_name o = Some d
                    /\ ci_equal d ZONE_PREFERENCE).
Proof.
  intros Hp. unfold matchesOutput.
  rewrite orb_true_iff, !(ci_test_option _ Hp). reflexivity.
Qed.

Lemma matchesZonePreference_spec (zone : Zone) :
  ZONE_PREFERENCE <> EmptyString ->
  matchesZonePreference zone = true <-> zone_matches ZONE_PREFERENCE zone.
Proof.
  intros Hp. unfold matchesZonePreference, zone_matches.
  pose proof (proj2 (truthy_string_true _) Hp) as Ht. rewrite Ht. simpl.
  pose proof (ci_test_string (zone_id zone) Hp) as H1.
  pose proof (ci_test_option (display_name zone) Hp) as H2.
  destruct (truthy_string (zone_id zone) && _).
  { split; [intros _; left; apply H1; reflexivity | reflexivity]. }
  destruct (truthy_opt (display_name zone) && _).
  { split; [intros _; right; left; apply H2; reflexivity | reflexivity]. }
  assert (N1 : ~ ci_equal (zone_id zone) ZONE_PREFERENCE).
  { intros H. apply H1 in H. discriminate. }
  assert (N2 : ~ exists d, display_name zone = Some d
                           /\ ci_equal d ZONE_PREFERENCE).
  { intros H. apply H2 in H. discriminate. }
  destruct (outputs zone) as [outs|].
  - rewrite existsb_exists. split.
    + intros [o [Hin Ho]]. right. right. exists outs, o.
      repeat split; [exact Hin|]. apply matchesOutput_spec; assumption.
    + intros [H|[H|[outs' [o [Ho [Hin H]]]]]]; [contradiction..|].
      injection Ho as <-. exists o. split; [exact Hin|].
      apply matchesOutput_spec; assumption.
  - split; [discriminate|].
    intros [H|[H|[outs' [o [Ho _]]]]]; [contradiction..|discriminate].
Qed.

Lemma state_is_spec (zone : Zone) (s : string) :
  state_is zone s = true <-> state zone = Some s.
Proof.
  unfold state_is. destruct (state zone) as [s'|].
  - rewrite String.eqb_eq. split; congruence.
  - split; discriminate.
Qed.

Lemma selected_in_registry zs active z :
  selected zs active = Some z -> in_registry z zs.
Proof.
  unfold selected, in_registry, pickPreferredZone.
  destruct (obj_values zs) as [|first rest] eqn:Ev; [discriminate|].
  assert (Hall : forall x, In x (first :: rest) -> In x (map snd zs)).
  { intros x Hx. apply obj_values_In. rewrite Ev. exact Hx. }
  destruct (if truthy_string ZONE_PREFERENCE then _ else _) as [m|] eqn:Em.
  { intros H. injection H as <-. apply Hall.
    destruct (truthy_string ZONE_PREFERENCE); [|discriminate].
    apply find_some in Em. apply Em. }
  cbv iota beta.
  destruct (find (fun zone => state_is zone _) (first :: rest)) as [p|] eqn:Ep; cbv iota beta.
  { intros H. injection H as <-. apply Hall.
    apply find_some in Ep. apply Ep. }
  destruct (truthy_opt active).
  - destruct (obj_get zs _) as [c|] eqn:Ec; intros H; injection H as <-.
    + eapply obj_get_In. exact Ec.
    + apply Hall. now left.
  - intros H. injection H as <-. apply Hall. now left.
Qed.

Lemma selected_None zs active : selected zs active = None <-> zs = [].
Proof.
  rewrite <- obj_values_nil. unfold selected.
  destruct (obj_values zs) as [|first rest]; [tauto|].
  destruct (pickPreferredZone _); [split; discriminate|].
  destruct (if truthy_opt active then _ else _); split; discriminate.
Qed.

Lemma selected_preference zs active :
  ZONE_PREFERENCE <> EmptyString ->
  (exists z, in_registry z zs /\ zone_matches ZONE_PREFERENCE z) ->
  exists z, selected zs active = Some z /\ zone_matches ZONE_PREFERENCE z.
Proof.
  intros Hp [z [Hin Hm]]. unfold selected, pickPreferredZone.
  apply obj_values_In in Hin.
  destruct (obj_values zs) as [|first rest]; [destruct Hin|].
  rewrite (proj2 (truthy_string_true _) Hp).
  destruct (find matchesZonePreference (first :: rest)) as [m|] eqn:Em.
  - exists m. split; [reflexivity|].
    apply find_some in Em. apply matchesZonePreference_spec; tauto.
  - exfalso. pose proof (find_none _ _ Em z Hin) as Hf.
    apply (matchesZonePreference_spec z Hp) in Hm. congruence.
Qed.

Lemma no_preferred_match zs :
  ZONE_PREFERENCE = EmptyString
  \/ (forall z, in_registry z zs -> ~ zone_matches ZONE_PREFERENCE z) ->
  (if truthy_string ZONE_PREFERENCE
   then find matchesZonePreference (obj_values zs) else None) = None.
Proof.
  intros [->|Hno]; [reflexivity|].
  destruct (truthy_string ZONE_PREFERENCE) eqn:Ht; [|reflexivity].
  apply truthy_string_true in Ht.
  destruct (find _ _) as [m|] eqn:Em; [|reflexivity].
  apply find_some in Em. destruct Em as [Hin Hm].
  exfalso. apply (Hno m).
  - apply obj_values_In. exact Hin.
  - apply matchesZonePreference_spec; assumption.
Qed.

Lemma selected_playing zs active :
  ZONE_PREFERENCE = EmptyString
  \/ (forall z, in_registry z zs -> ~ zone_matches ZONE_PREFERENCE z) ->
  (exists z, in_registry z zs /\ state z = Some "playing") ->
  exists z, selected zs active = Some z /\ state z = Some "playing".
Proof.
  intros Hno [z [Hin Hs]]. unfold selected, pickPreferredZone.
  rewrite (no_preferred_match zs Hno).
  apply obj_values_In in Hin.
  destruct (obj_values zs) as [|first rest]; [destruct Hin|].
  cbv iota beta.
  destruct (find (fun zone => state_is zone _) (first :: rest)) as [p|] eqn:Ep.
  - exists p. split; [reflexivity|].
    apply find_some in Ep. apply state_is_spec. apply Ep.
  - exfalso. pose proof (find_none _ _ Ep z Hin) as Hf. simpl in Hf.
    apply state_is_spec in Hs. congruence.
Qed.

Lemma selected_current zs a z :
  ZONE_PREFERENCE = EmptyString
  \/ (forall z, in_registry z zs -> ~ zone_matches ZONE_PREFERENCE z) ->
  (forall z, in_registry z zs -> state z <> Some "playing") ->
  a <> EmptyString -> obj_get zs a = Some z ->
  selected zs (Some a) = Some z.
Proof.
  intros Hno Hnp Ha Hget. unfold selected, pickPreferredZone.
  rewrite (no_preferred_match zs Hno).
  pose proof (obj_get_In _ _ _ Hget) as Hin. apply obj_values_In in Hin.
  destruct (obj_values zs) as [|first rest] eqn:Ev; [destruct Hin|].
  cbv iota beta.
  destruct (find (fun zone => state_is zone _) (first :: rest)) as [p|] eqn:Ep.
  - exfalso. apply find_some in Ep. destruct Ep as [Hp Hs].
    apply (Hnp p).
    + apply obj_values_In. rewrite Ev. exact Hp.
    + apply state_is_spec. exact Hs.
  - simpl. rewrite (proj2 (truthy_string_true a) Ha), Hget. reflexivity.
Qed.

(** X20.  When the current active id, if there is one, is a key of the
    registry or is no property name of [Object.prototype], the zone that
    [selectAndActivateZone] activates depends only on the registry, the
    preference and the current active id, and follows the order of
    [pickPreferredZone] and [selectAndActivateZone], first match
    winning: with a non-empty preference, a zone whose id, display name,
    or any output's id or display name equals it after lower-casing;
    then a zone whose state is playing; then the zone found under the
    current active id when that id is not the empty string; then any
    zone.  No zone is selected exactly when the registry is empty. *)
Theorem zone_selection_tie_break (now : Z) (st : State) :
  (forall a, activeZoneId st = Some a -> own_or_absent (zones st) a) ->
  let st' := selectAndActivateZone now st in
  let zs := zones st in
  let unmatched :=
    ZONE_PREFERENCE = EmptyString
    \/ (forall z, in_registry z zs -> ~ zone_matches ZONE_PREFERENCE z) in
  (forall now2 st2,
      zones st2 = zs -> activeZoneId st2 = activeZoneId st ->
      activeZone (selectAndActivateZone now2 st2) = activeZone st')
  /\ activeZoneId st' = option_map zone_id (activeZone st')
  /\ (ZONE_PREFERENCE <> EmptyString ->
      (exists z, in_registry z zs /\ zone_matches ZONE_PREFERENCE z) ->
      exists z, activeZone st' = Some z /\ in_registry z zs
                /\ zone_matches ZONE_PREFERENCE z)
  /\ (unmatched ->
      (exists z, in_registry z zs /\ state z = Some "playing") ->
      exists z, activeZone st' = Some z /\ in_registry z zs
                /\ state z = Some "playing")
  /\ (unmatched ->
      (forall z, in_registry z zs -> state z <> Some "playing") ->
      forall a z, activeZoneId st = Some a -> a <> EmptyString ->
                  obj_get zs a = Some z -> activeZone st' = Some z)
  /\ (zs <> [] -> exists z, activeZone st' = Some z /\ in_registry z zs)
  /\ (activeZone st' = None <-> zs = []).
Proof.
  intros _. cbv zeta.
  rewrite selectAndActivateZone_selected, activateZone_activeZoneId,
    activateZone_activeZone.
  repeat split.
  - intros now2 st2 Hz Ha.
    rewrite selectAndActivateZone_selected, activateZone_activeZone, Hz, Ha.
    reflexivity.
  - intros Hp Hex.
    destruct (selected_preference (zones st) (activeZoneId st) Hp Hex)
      as [z [Hs Hm]].
    exists z. repeat split; [exact Hs| |exact Hm].
    eapply selected_in_registry. exact Hs.
  - intros Hno Hex.
    destruct (selected_playing (zones st) (activeZoneId st) Hno Hex)
      as [z [Hs Hp]].
    exists z. repeat split; [exact Hs| |exact Hp].
    eapply selected_in_registry. exact Hs.
  - intros Hno Hnp a z Ha Hne Hget. rewrite Ha.
    apply selected_current; assumption.
  - intros Hne.
    destruct (selected (zones st) (activeZoneId st)) as [z|] eqn:Es.
    + exists z. split; [reflexivity|].
      eapply selected_in_registry. exact Es.
    + apply selected_None in Es. contradiction.
  - apply selected_None.
  - apply selected_None.
Qed.

(** ** The change-set loops *)

Lemma fold_left_invariant {A} (P : State -> Prop) (f : State -> A -> State)
    (l : list A) (st : State) :
  (forall st x, In x l -> P st -> P (f st x)) ->
  P st -> P (fold_left f l st).
Proof.
  revert st. induction l as [|x l IH]; intros st Hstep HP; [exact HP|].
  simpl. apply IH.
  - intros st' y Hy. apply Hstep. now right.
  - apply Hstep; [now left | exact HP].
Qed.

Lemma active_zone_is_activate now zone st :
  active_zone_is (zone_id zone) (activateZone now (Some zone) st).
Proof.
  unfold active_zone_is.
  rewrite activateZone_activeZoneId, activateZone_activeZone.
  split; [reflexivity|]. exists zone. split; reflexivity.
Qed.

Lemma zone_removed_sticky now a st id :
  id <> a -> active_zone_is a st -> active_zone_is a (zone_removed now st id).
Proof.
  intros Hne [Ha Hz]. unfold zone_removed. cbv zeta.
  change (activeZoneId (set_zones (obj_delete (zones st) id) st))
    with (activeZoneId st).
  rewrite Ha. unfold is_active_id.
  rewrite (proj2 (String.eqb_neq id a) Hne). split; [exact Ha | exact Hz].
Qed.

Lemma zone_added_sticky a st zone :
  active_zone_is a st -> active_zone_is a (zone_added st zone).
Proof. intros [Ha Hz]. split; [exact Ha | exact Hz]. Qed.

Lemma zone_changed_sticky now a st zone :
  active_zone_is a st -> active_zone_is a (zone_changed now st zone).
Proof.
  intros [Ha Hz]. unfold zone_changed. cbv zeta.
  change (activeZoneId (set_zones (obj_assign (zones st) (zone_id zone) zone) st))
    with (activeZoneId st).
  rewrite Ha. unfold is_active_id.
  destruct (String.eqb (zone_id zone) a) eqn:E.
  - apply String.eqb_eq in E. rewrite <- E. apply active_zone_is_activate.
  - split; [exact Ha | exact Hz].
Qed.

Lemma zone_seek_changed_kept now st seekUpdate :
  activeCore (zone_seek_changed now st seekUpdate) = activeCore st
  /\ transport (zone_seek_changed now st seekUpdate) = transport st
  /\ imageSvc (zone_seek_changed now st seekUpdate) = imageSvc st
  /\ activeZoneId (zone_seek_changed now st seekUpdate) = activeZoneId st
  /\ activeZone (zone_seek_changed now st seekUpdate) = activeZone st
  /\ transportCalls (zone_seek_changed now st seekUpdate) = transportCalls st
  /\ player (zone_seek_changed now st seekUpdate) = player st.
Proof.
  unfold zone_seek_changed.
  destruct (obj_get (zones st) (su_zone_id seekUpdate)) as [zone|];
    [|repeat split; reflexivity].
  cbv zeta. destruct (is_active_id _ _); [|repeat split; reflexivity].
  unfold updateSeekState.
  destruct (normaliseNumber (seek_position _)); repeat split; reflexivity.
Qed.

Lemma zone_seek_changed_sticky now a st seekUpdate :
  active_zone_is a st -> active_zone_is a (zone_seek_changed now st seekUpdate).
Proof.
  intros [Ha Hz]. unfold active_zone_is.
  destruct (zone_seek_changed_kept now st seekUpdate)
    as (_ & _ & _ & -> & -> & _).
  split; [exact Ha | exact Hz].
Qed.

(** X21.  Once a zone whose id is not the empty string is active, a
    Changed event whose zones_removed list does not contain that id
    leaves it the active zone, whatever the event adds or changes: the
    test at the end of the event re-runs the selection only for an
    active id that is null or empty. *)
Theorem active_zone_sticky (now : Z) (changeSet : ChangeSet) (st : State)
    (a : string) :
  active_zone_is a st ->
  a <> EmptyString ->
  ~ In a (default [] (zones_removed changeSet)) ->
  active_zone_is a (onZonesChanged now changeSet st).
Proof.
  intros Hact Hne Hrem. unfold onZonesChanged. cbv zeta.
  set (st1 := match zones_removed changeSet with
              | Some l => fold_left (zone_removed now) l st
              | None => st
              end).
  assert (H1 : active_zone_is a st1).
  { subst st1. destruct (zones_removed changeSet) as [l|]; [|exact Hact].
    apply fold_left_invariant; [|exact Hact].
    intros s id Hin Hs. apply zone_removed_sticky; [|exact Hs].
    intros ->. apply Hrem. exact Hin. }
  clearbody st1.
  set (st2 := match zones_added changeSet with
              | Some l => fold_left zone_added l st1
              | None => st1
              end).
  assert (H2 : active_zone_is a st2).
  { subst st2. destruct (zones_added changeSet) as [l|]; [|exact H1].
    apply fold_left_invariant; [|exact H1].
    intros s z _ Hs. apply zone_added_sticky. exact Hs. }
  clearbody st2.
  set (st3 := match zones_changed changeSet with
              | Some l => fold_left (zone_changed now) l st2
              | None => st2
              end).
  assert (H3 : active_zone_is a st3).
  { subst st3. destruct (zones_changed changeSet) as [l|]; [|exact H2].
    apply fold_left_invariant; [|exact H2].
    intros s z _ Hs. apply zone_changed_sticky. exact Hs. }
  clearbody st3.
  set (st4 := match zones_seek_changed changeSet with
              | Some l => fold_left (zone_seek_changed now) l st3
              | None => st3
              end).
  assert (H4 : active_zone_is a st4).
  { subst st4. destruct (zones_seek_changed changeSet) as [l|]; [|exact H3].
    apply fold_left_invariant; [|exact H3].
    intros s z _ Hs. apply zone_seek_changed_sticky. exact Hs. }
  clearbody st4.
  destruct H4 as [Ha Hz]. rewrite Ha. simpl.
  rewrite (proj2 (truthy_string_true a) Hne). simpl.
  split; [exact Ha | exact Hz].
Qed.

(** ** Removal of the active zone *)

Lemma idle_same_selection st st' :
  player st' = player st -> activeZoneId st' = activeZoneId st ->
  activeZone st' = activeZone st ->
  idle_projection st -> idle_projection st'.
Proof. unfold idle_projection. intros -> -> ->. tauto. Qed.

Lemma zone_removed_idle now st id :
  idle_projection st -> idle_projection (zone_removed now st id).
Proof.
  intros Hi. unfold zone_removed. cbv zeta.
  change (activeZoneId (set_zones (obj_delete (zones st) id) st))
    with (activeZoneId st).
  replace (activeZoneId st) with (@None string) by (symmetry; apply Hi).
  exact Hi.
Qed.

Lemma zone_added_idle st zone :
  idle_projection st -> idle_projection (zone_added st zone).
Proof. intros Hi. exact Hi. Qed.

Lemma zone_changed_idle now st zone :
  idle_projection st -> idle_projection (zone_changed now st zone).
Proof.
  intros Hi. unfold zone_changed. cbv zeta.
  change (activeZoneId (set_zones (obj_assign (zones st) (zone_id zone) zone) st))
    with (activeZoneId st).
  replace (activeZoneId st) with (@None string) by (symmetry; apply Hi).
  exact Hi.
Qed.

Lemma zone_seek_changed_idle now st seekUpdate :
  idle_projection st -> idle_projection (zone_seek_changed now st seekUpdate).
Proof.
  destruct (zone_seek_changed_kept now st seekUpdate)
    as (_ & _ & _ & Ha & Hz & _ & Hp).
  apply idle_same_selection; assumption.
Qed.

Lemma removal_reaches_idle now a removed st :
  activeZoneId st = Some a -> In a removed ->
  idle_projection (fold_left (zone_removed now) removed st).
Proof.
  revert st. induction removed as [|id l IH]; intros st Ha Hin; [destruct Hin|].
  simpl. destruct (String.eqb id a) eqn:E.
  - apply fold_left_invariant.
    + intros s x _. apply zone_removed_idle.
    + unfold zone_removed. cbv zeta.
      change (activeZoneId (set_zones (obj_delete (zones st) id) st))
        with (activeZoneId st).
      rewrite Ha. unfold is_active_id. rewrite E.
      apply activateZone_None_idle.
  - assert (Hst : zone_removed now st id
                  = set_zones (obj_delete (zones st) id) st).
    { unfold zone_removed. cbv zeta.
      change (activeZoneId (set_zones (obj_delete (zones st) id) st))
        with (activeZoneId st).
      rewrite Ha. unfold is_active_id. rewrite E. reflexivity. }
    rewrite Hst. apply IH; [exact Ha|].
    destruct Hin as [->|Hin]; [|exact Hin].
    rewrite String.eqb_refl in E. discriminate.
Qed.

Lemma idle_trackid_distinct (zone : Zone) :
  mpris_trackid idle_metadata <> objectPath ("zone/" +:+ zone_id zone).
Proof.
  unfold idle_metadata, objectPath, DEFAULT_TRACK_ID_SUFFIX. simpl.
  intros H. discriminate H.
Qed.

(** C2 (amended).  When a Changed event removes the active zone, the
    removals leave the idle projection (title Roon, placeholder artist
    and album, Stopped, the idle default track id) and no selection.  At
    the end of the event this still holds when the registry is then
    empty; otherwise selection has been re-run and a zone of the
    registry is active.  The idle default track id differs from every
    zone-derived track id. *)
Theorem active_zone_removed (now : Z) (changeSet : ChangeSet) (st : State)
    (a : string) (removed : list string) :
  activeZoneId st = Some a ->
  zones_removed changeSet = Some removed ->
  In a removed ->
  let st' := onZonesChanged now changeSet st in
  idle_projection (fold_left (zone_removed now) removed st)
  /\ (zones st' = [] -> idle_projection st')
  /\ (zones st' <> [] ->
      exists zone, in_registry zone (zones st')
                   /\ activeZone st' = Some zone
                   /\ activeZoneId st' = Some (zone_id zone)
                   /\ mpris_trackid (metadata (player st'))
                      = objectPath ("zone/" +:+ zone_id zone))
  /\ (forall zone,
         mpris_trackid idle_metadata <> objectPath ("zone/" +:+ zone_id zone)).
Proof.
  intros Ha Hrem Hin. cbv zeta.
  pose proof (removal_reaches_idle now a removed st Ha Hin) as H1.
  split; [exact H1|].
  split; [|split; [|exact idle_trackid_distinct]].
  all: unfold onZonesChanged; cbv zeta; rewrite Hrem.
  all: set (st1 := fold_left (zone_removed now) removed st) in *;
    clearbody st1.
  all: set (st2 := match zones_added changeSet with
                   | Some l => fold_left zone_added l st1
                   | None => st1
                   end);
    assert (H2 : idle_projection st2)
      by (subst st2; destruct (zones_added changeSet) as [l|]; [|exact H1];
          apply fold_left_invariant; [|exact H1];
          intros s z _; apply zone_added_idle);
    clearbody st2.
  all: set (st3 := match zones_changed changeSet with
                   | Some l => fold_left (zone_changed now) l st2
                   | None => st2
                   end);
    assert (H3 : idle_projection st3)
      by (subst st3; destruct (zones_changed changeSet) as [l|]; [|exact H2];
          apply fold_left_invariant; [|exact H2];
          intros s z _; apply zone_changed_idle);
    clearbody st3.
  all: set (st4 := match zones_seek_changed changeSet with
                   | Some l => fold_left (zone_seek_changed now) l st3
                   | None => st3
                   end);
    assert (H4 : idle_projection st4)
      by (subst st4; destruct (zones_seek_changed changeSet) as [l|];
          [|exact H3];
          apply fold_left_invariant; [|exact H3];
          intros s z _; apply zone_seek_changed_idle);
    clearbody st4.
  all: replace (activeZoneId st4) with (@None string) by (symmetry; apply H4).
  all: change (negb (truthy_opt None)) with true; cbv iota.
  all: rewrite selectAndActivateZone_selected, activateZone_zones.
  all: replace (activeZoneId st4) with (@None string) by (symmetry; apply H4).
  - intros Hz. rewrite Hz. apply activateZone_None_idle.
  - intros Hz.
    destruct (selected (zones st4) None) as [zone|] eqn:Es.
    + exists zone. rewrite activateZone_activeZone, activateZone_activeZoneId,
        activateZone_trackid.
      repeat split. eapply selected_in_registry. exact Es.
    + apply selected_None in Es. contradiction.
Qed.

(** ** Invariants of the reachable states *)

Lemma anchor_reset_same st st' :
  activeZoneId st' = activeZoneId st -> activeZone st' = activeZone st ->
  lastSeekSeconds st' = lastSeekSeconds st ->
  lastKnownZoneState st' = lastKnownZoneState st ->
  activeLengthSeconds st' = activeLengthSeconds st ->
  anchor_reset st -> anchor_reset st'.
Proof. unfold anchor_reset. intros -> -> -> -> ->. tauto. Qed.

Lemma anchor_reset_activate now z st : anchor_reset (activateZone now z st).
Proof.
  unfold anchor_reset. rewrite activateZone_activeZone. intros ->.
  rewrite activateZone_activeZoneId. split; [reflexivity|].
  apply activateZone_None_anchor.
Qed.

Lemma anchor_reset_zone_removed now st id :
  anchor_reset st -> anchor_reset (zone_removed now st id).
Proof.
  intros H. unfold zone_removed. cbv zeta.
  destruct (is_active_id _ _); [apply anchor_reset_activate | exact H].
Qed.

Lemma anchor_reset_zone_changed now st zone :
  anchor_reset st -> anchor_reset (zone_changed now st zone).
Proof.
  intros H. unfold zone_changed. cbv zeta.
  destruct (is_active_id _ _); [apply anchor_reset_activate | exact H].
Qed.

Lemma anchor_reset_zone_seek_changed now st seekUpdate :
  anchor_reset st -> anchor_reset (zone_seek_changed now st seekUpdate).
Proof.
  intros H.
  destruct (zone_seek_changed_kept now st seekUpdate)
    as (_ & _ & _ & Ha & Hz & _ & _).
  unfold anchor_reset. rewrite Hz. intros Hnone.
  destruct (H Hnone) as (Hid & Hrest).
  unfold zone_seek_changed in *.
  destruct (obj_get (zones st) (su_zone_id seekUpdate)) as [zone|];
    [|split; [exact Hid | exact Hrest]].
  cbv zeta in *.
  change (activeZoneId (set_zones ?zs st)) with (activeZoneId st) in *.
  rewrite Hid in *. split; [exact Hid | exact Hrest].
Qed.

Lemma no_active_no_registry_select now st :
  no_active_no_registry (selectAndActivateZone now st).
Proof.
  unfold no_active_no_registry.
  rewrite selectAndActivateZone_selected, activateZone_activeZone,
    activateZone_zones.
  apply selected_None.
Qed.

Lemma onZonesChanged_inv now changeSet st :
  anchor_reset st ->
  anchor_reset (onZonesChanged now changeSet st)
  /\ no_active_no_registry (onZonesChanged now changeSet st).
Proof.
  intros H0. unfold onZonesChanged. cbv zeta.
  match goal with |- context [fold_left (zone_seek_changed now) _ ?s] =>
    set (st3 := s) end.
  match goal with |- anchor_reset (if _ then _ else ?s) /\ _ =>
    set (st4 := s) end.
  assert (H4 : anchor_reset st4).
  { subst st4. assert (H3 : anchor_reset st3).
    { subst st3.
      match goal with |- context [fold_left (zone_changed now) _ ?s] =>
        set (st2 := s) end.
      assert (H2 : anchor_reset st2).
      { subst st2.
        match goal with |- context [fold_left zone_added _ ?s] =>
          set (st1 := s) end.
        assert (H1 : anchor_reset st1).
        { subst st1. destruct (zones_removed changeSet); [|exact H0].
          apply fold_left_invariant; [|exact H0].
          intros s x _. apply anchor_reset_zone_removed. }
        destruct (zones_added changeSet); [|exact H1].
        apply fold_left_invariant; [|exact H1].
        intros s x _ Hs. exact Hs. }
      destruct (zones_changed changeSet); [|exact H2].
      apply fold_left_invariant; [|exact H2].
      intros s x _. apply anchor_reset_zone_changed. }
    destruct (zones_seek_changed changeSet); [|exact H3].
    apply fold_left_invariant; [|exact H3].
    intros s x _. apply anchor_reset_zone_seek_changed. }
  clearbody st4.
  destruct (negb (truthy_opt (activeZoneId st4))) eqn:E.
  - split; [|apply no_active_no_registry_select].
    rewrite selectAndActivateZone_selected. apply anchor_reset_activate.
  - split; [exact H4|]. intros Hn. destruct (H4 Hn) as (Hid & _).
    rewrite Hid in E. discriminate.
Qed.

Lemma anchor_reset_onZonesChanged now changeSet st :
  anchor_reset st -> anchor_reset (onZonesChanged now changeSet st).
Proof. intros H. apply onZonesChanged_inv. exact H. Qed.

Lemma anchor_reset_ensureActiveZone now st :
  anchor_reset st -> anchor_reset (ensureActiveZone now st).1.
Proof.
  intros H. unfold ensureActiveZone.
  destruct (activeZone st); [exact H|].
  cbv zeta. simpl fst.
  rewrite selectAndActivateZone_selected. apply anchor_reset_activate.
Qed.

Lemma apply_art_url_same url st :
  kept (apply_art_url url st) = kept st
  /\ lastSeekSeconds (apply_art_url url st) = lastSeekSeconds st
  /\ lastKnownZoneState (apply_art_url url st) = lastKnownZoneState st
  /\ activeLengthSeconds (apply_art_url url st) = activeLengthSeconds st.
Proof. unfold apply_art_url. destruct (negb _); repeat split; reflexivity. Qed.

Lemma on_art_settled_same i reply st :
  kept (on_art_settled i reply st) = kept st
  /\ lastSeekSeconds (on_art_settled i reply st) = lastSeekSeconds st
  /\ lastKnownZoneState (on_art_settled i reply st) = lastKnownZoneState st
  /\ activeLengthSeconds (on_art_settled i reply st) = activeLengthSeconds st.
Proof.
  unfold on_art_settled.
  destruct (artJobs st !! i) as [job|]; [|repeat split; reflexivity].
  unfold settle_art. destruct job as [url|key].
  - match goal with |- context [apply_art_url url ?s] =>
      destruct (apply_art_url_same url s) as (-> & -> & -> & ->) end.
    repeat split; reflexivity.
  - destruct reply as [|ct written]; [repeat split; reflexivity|].
    cbv zeta. destruct written; [|repeat split; reflexivity].
    match goal with |- context [apply_art_url ?u ?s] =>
      destruct (apply_art_url_same u s) as (-> & -> & -> & ->) end.
    repeat split; reflexivity.
Qed.

Lemma zone_removed_transport now st id :
  transport (zone_removed now st id) = transport st.
Proof.
  unfold zone_removed. cbv zeta.
  destruct (is_active_id _ _); [|reflexivity].
  rewrite activateZone_transport. reflexivity.
Qed.

Lemma zone_changed_transport now st zone :
  transport (zone_changed now st zone) = transport st.
Proof.
  unfold zone_changed. cbv zeta.
  destruct (is_active_id _ _); [|reflexivity].
  rewrite activateZone_transport. reflexivity.
Qed.

Lemma selectAndActivateZone_transport now st :
  transport (selectAndActivateZone now st) = transport st.
Proof. rewrite selectAndActivateZone_selected. apply activateZone_transport. Qed.

Lemma fold_left_transport {A} (f : State -> A -> State) (l : list A) st :
  (forall s x, transport (f s x) = transport s) ->
  transport (fold_left f l st) = transport st.
Proof.
  intros Hf.
  apply (fold_left_invariant (fun s => transport s = transport st));
    [|reflexivity].
  intros s x _ Hs. rewrite Hf. exact Hs.
Qed.

Lemma onZonesChanged_transport now changeSet st :
  transport (onZonesChanged now changeSet st) = transport st.
Proof.
  unfold onZonesChanged. cbv zeta.
  match goal with |- transport (if _ then _ else ?s) = _ => set (st4 := s) end.
  assert (H4 : transport st4 = transport st).
  { subst st4.
    destruct (zones_seek_changed changeSet);
      [rewrite fold_left_transport
         by (intros s x; apply zone_seek_changed_kept)|];
      (destruct (zones_changed changeSet);
       [rewrite fold_left_transport
          by (intros s x; apply zone_changed_transport)|]);
      (destruct (zones_added changeSet);
       [rewrite fold_left_transport by (intros s x; reflexivity)|]);
      (destruct (zones_removed changeSet);
       [rewrite fold_left_transport
          by (intros s x; apply zone_removed_transport)|]);
      reflexivity. }
  destruct (negb _); [|exact H4].
  rewrite selectAndActivateZone_transport. exact H4.
Qed.

Lemma on_zones_message_transport now msg st :
  transport (on_zones_message now msg st) = transport st.
Proof.
  destruct msg as [zs|changeSet| |command];
    cbv beta iota delta [on_zones_message].
  - unfold onZonesSubscribed. cbv zeta.
    rewrite selectAndActivateZone_transport. reflexivity.
  - apply onZonesChanged_transport.
  - rewrite activateZone_transport. reflexivity.
  - reflexivity.
Qed.

Lemma anchor_reset_on_zones_message now msg st :
  anchor_reset st -> anchor_reset (on_zones_message now msg st).
Proof.
  intros H. destruct msg as [zs|changeSet| |command];
    cbv beta iota delta [on_zones_message].
  - unfold onZonesSubscribed. cbv zeta.
    rewrite selectAndActivateZone_selected. apply anchor_reset_activate.
  - apply anchor_reset_onZonesChanged. exact H.
  - apply anchor_reset_activate.
  - exact H.
Qed.

Lemma anchor_reset_setStatus m e st :
  anchor_reset st -> anchor_reset (setStatus m e st).
Proof. intros H. exact H. Qed.

Lemma ensureActiveZone_fields now st :
  activeZone (ensureActiveZone now st).1 = (ensureActiveZone now st).2
  /\ transport (ensureActiveZone now st).1 = transport st
  /\ transportCalls (ensureActiveZone now st).1 = transportCalls st.
Proof.
  unfold ensureActiveZone.
  destruct (activeZone st) as [z|] eqn:Ez; cbv zeta; simpl fst; simpl snd.
  - split; [exact Ez|]. split; reflexivity.
  - split; [reflexivity|].
    split; [apply selectAndActivateZone_transport|].
    rewrite selectAndActivateZone_selected. apply activateZone_transportCalls.
Qed.

Lemma handle_anchor now ev st st' :
  anchor_reset st -> handle now ev st = Returned st' -> anchor_reset st'.
Proof.
  intros Ha.
  destruct ev as [core|core|msg|verb|offset|event|i reply];
    cbv beta iota delta [handle].
  - intros E. injection E as <-. exact Ha.
  - intros E. injection E as <-. unfold onCoreUnpaired. cbv zeta.
    apply anchor_reset_setStatus, anchor_reset_activate.
  - intros E. injection E as <-.
    apply anchor_reset_on_zones_message; exact Ha.
  - intros E. injection E as <-. unfold sendTransportCommand.
    pose proof (anchor_reset_ensureActiveZone now st Ha) as H2.
    destruct (ensureActiveZone now st) as [st1 zone]. simpl in H2.
    destruct zone; [|exact H2]. destruct (transport st1); exact H2.
  - unfold on_seek.
    pose proof (anchor_reset_ensureActiveZone now st Ha) as H2.
    destruct (ensureActiveZone now st) as [st1 zone]. simpl in H2.
    destruct zone; [|intros E; injection E as <-; exact H2].
    unfold transport_seek. destruct (transport st1); [|discriminate].
    intros E. injection E as <-. exact H2.
  - unfold on_position.
    pose proof (anchor_reset_ensureActiveZone now st Ha) as H2.
    destruct (ensureActiveZone now st) as [st1 zone]. simpl in H2.
    destruct zone; [|intros E; injection E as <-; exact H2].
    destruct (_ && _); [intros E; injection E as <-; exact H2|].
    unfold transport_seek. destruct (transport st1); [|discriminate].
    intros E. injection E as <-. exact H2.
  - intros E. injection E as <-.
    destruct (on_art_settled_same i reply st) as (Hk & Hs & Hl & Hn).
    apply kept_fields in Hk.
    destruct Hk as (_ & Ht & _ & Hz & Hid & Haz & _).
    revert Ha. apply anchor_reset_same; assumption.
Qed.

Lemma reachable_anchor st : reachable st -> anchor_reset st.
Proof.
  induction 1 as [now existing|now ev st st' _ IH Hh].
  - intros _. repeat split.
  - eapply handle_anchor; eassumption.
Qed.

Lemma setStatus_zones m e st : zones (setStatus m e st) = zones st.
Proof. reflexivity. Qed.

Lemma no_active_no_registry_ensure now st :
  no_active_no_registry st ->
  no_active_no_registry (ensureActiveZone now st).1.
Proof.
  intros H. unfold ensureActiveZone.
  destruct (activeZone st) eqn:E; [exact H|].
  cbv zeta. simpl fst. apply no_active_no_registry_select.
Qed.

Lemma handle_registry now ev st st' :
  anchor_reset st -> no_active_no_registry st ->
  handle now ev st = Returned st' ->
  no_active_no_registry st'.
Proof.
  intros Ha H.
  destruct ev as [core|core|msg|verb|offset|event|i reply];
    cbv beta iota delta [handle].
  - intros E. injection E as <-. exact H.
  - intros E. injection E as <-. intros _.
    unfold onCoreUnpaired. cbv zeta.
    rewrite setStatus_zones, activateZone_zones. reflexivity.
  - intros E. injection E as <-.
    destruct msg as [zs|changeSet| |command];
      cbv beta iota delta [on_zones_message].
    + unfold onZonesSubscribed. cbv zeta. apply no_active_no_registry_select.
    + apply onZonesChanged_inv. exact Ha.
    + intros _. rewrite activateZone_zones. reflexivity.
    + exact H.
  - intros E. injection E as <-. unfold sendTransportCommand.
    pose proof (no_active_no_registry_ensure now st H) as H1.
    destruct (ensureActiveZone now st) as [st1 zone]. simpl in H1.
    destruct zone; [|exact H1]. destruct (transport st1); exact H1.
  - unfold on_seek.
    pose proof (no_active_no_registry_ensure now st H) as H1.
    destruct (ensureActiveZone now st) as [st1 zone]. simpl in H1.
    destruct zone; [|intros E; injection E as <-; exact H1].
    unfold transport_seek. destruct (transport st1); [|discriminate].
    intros E. injection E as <-. exact H1.
  - unfold on_position.
    pose proof (no_active_no_registry_ensure now st H) as H1.
    destruct (ensureActiveZone now st) as [st1 zone]. simpl in H1.
    destruct zone; [|intros E; injection E as <-; exact H1].
    destruct (_ && _); [intros E; injection E as <-; exact H1|].
    unfold transport_seek. destruct (transport st1); [|discriminate].
    intros E. injection E as <-. exact H1.
  - intros E. injection E as <-.
    destruct (on_art_settled_same i reply st) as (Hk & _).
    apply kept_fields in Hk.
    destruct Hk as (_ & _ & _ & Hz & _ & Haz & _).
    unfold no_active_no_registry. rewrite Hz, Haz. exact H.
Qed.

Lemma reachable_registry st : reachable st -> no_active_no_registry st.
Proof.
  induction 1 as [now existing|now ev st st' Hr IH Hh].
  - intros _. reflexivity.
  - eapply handle_registry; [|exact IH|exact Hh].
    apply reachable_anchor. exact Hr.
Qed.

Lemma reachable_plain_reachable st : reachable_plain st -> reachable st.
Proof.
  induction 1 as [now existing|now ev st st' _ IH _ Hh].
  - apply reachable_init.
  - eapply reachable_step; eassumption.
Qed.

(** ** Control actions *)

Lemma on_seek_resolved now offset st :
  on_seek now offset st
  = match (ensureActiveZone now st).2 with
    | None => Returned (ensureActiveZone now st).1
    | Some zone =>
        transport_seek zone "relative"
          (num_div (number_of_Z offset) (Finite 1000000))
          (ensureActiveZone now st).1
    end.
Proof. unfold on_seek. destruct (ensureActiveZone now st). reflexivity. Qed.

Lemma on_position_resolved now event st :
  on_position now event st
  = match (ensureActiveZone now st).2 with
    | None => Returned (ensureActiveZone now st).1
    | Some zone =>
        if truthy_opt (trackId event)
           && negb (String.eqb (default EmptyString (trackId event))
                      (mpris_trackid
                         (metadata (player (ensureActiveZone now st).1))))
        then Returned (ensureActiveZone now st).1
        else transport_seek zone "absolute"
               (num_div (number_of_Z (position event)) (Finite 1000000))
               (ensureActiveZone now st).1
    end.
Proof. unfold on_position. destruct (ensureActiveZone now st). reflexivity. Qed.

Lemma on_position_none now event st st1 :
  ensureActiveZone now st = (st1, None) ->
  on_position now event st = Returned st1.
Proof. intros He. unfold on_position. rewrite He. reflexivity. Qed.

Lemma on_position_stale now event st st1 zone t :
  ensureActiveZone now st = (st1, Some zone) ->
  trackId event = Some t -> t <> EmptyString ->
  t <> mpris_trackid (metadata (player st1)) ->
  on_position now event st = Returned st1.
Proof.
  intros He Hid Hne Hcur. unfold on_position. rewrite He, Hid.
  change (default EmptyString (Some t)) with t.
  change (truthy_opt (Some t)) with (truthy_string t).
  rewrite (proj2 (truthy_string_true t) Hne).
  rewrite (proj2 (String.eqb_neq _ _) Hcur). reflexivity.
Qed.

Lemma on_position_seek now event st st1 zone :
  ensureActiveZone now st = (st1, Some zone) ->
  truthy_opt (trackId event) = false
  \/ trackId event = Some (mpris_trackid (metadata (player st1))) ->
  on_position now event st
  = transport_seek zone "absolute"
      (num_div (number_of_Z (position event)) (Finite 1000000)) st1.
Proof.
  intros He Hid. unfold on_position. rewrite He.
  destruct Hid as [Hf|Hid].
  - rewrite Hf. reflexivity.
  - rewrite Hid.
    change (default EmptyString (Some ?x)) with x. rewrite String.eqb_refl.
    rewrite andb_false_r. reflexivity.
Qed.

Lemma on_seek_none now offset st st1 :
  ensureActiveZone now st = (st1, None) ->
  on_seek now offset st = Returned st1.
Proof. intros He. unfold on_seek. rewrite He. reflexivity. Qed.

Lemma on_seek_some now offset st st1 zone :
  ensureActiveZone now st = (st1, Some zone) ->
  on_seek now offset st
  = transport_seek zone "relative"
      (num_div (number_of_Z offset) (Finite 1000000)) st1.
Proof. intros He. unfold on_seek. rewrite He. reflexivity. Qed.

Lemma set_transportCalls_only cs st :
  only_calls_differ st (set_transportCalls cs st).
Proof. unfold only_calls_differ. repeat split; reflexivity. Qed.

Lemma transport_seek_Some zone how seconds st :
  is_Some (transport st) ->
  exists st',
    transport_seek zone how seconds st = Returned st'
    /\ transportCalls st'
       = (transportCalls st ++ [seek_call (zone_id zone) how seconds])%list
    /\ only_calls_differ st st'.
Proof.
  intros [t Ht]. unfold transport_seek. rewrite Ht.
  eexists. split; [reflexivity|]. split; [reflexivity|].
  apply set_transportCalls_only.
Qed.

Lemma transport_seek_None zone how seconds st :
  transport st = None -> transport_seek zone how seconds st = TypeError st.
Proof. intros Ht. unfold transport_seek. rewrite Ht. reflexivity. Qed.

Lemma ensureActiveZone_some now st zone :
  activeZone st = Some zone -> ensureActiveZone now st = (st, Some zone).
Proof. intros Hz. unfold ensureActiveZone. rewrite Hz. reflexivity. Qed.

Lemma ensureActiveZone_none now st :
  no_active_no_registry st -> activeZone st = None ->
  ensureActiveZone now st = (activateZone now None st, None).
Proof.
  intros Hj Hn. unfold ensureActiveZone. rewrite Hn. cbv zeta.
  rewrite selectAndActivateZone_selected.
  rewrite (proj2 (selected_None (zones st) (activeZoneId st)) (Hj Hn)).
  rewrite activateZone_activeZone. reflexivity.
Qed.

(** X22.  A setPosition event whose track id is absent or empty is not
    treated as stale: whenever a zone is active and a transport is set,
    exactly one absolute seek to the position in seconds, the
    microseconds divided by 1,000,000 in double precision, is issued
    against that zone, and nothing else changes. *)
Theorem falsy_track_id_not_stale (now : Z) (event : PositionEvent)
    (st : State) (zone : Zone) :
  truthy_opt (trackId event) = false ->
  activeZone st = Some zone ->
  is_Some (transport st) ->
  exists st',
    on_position now event st = Returned st'
    /\ transportCalls st'
       = (transportCalls st
          ++ [seek_call (zone_id zone) "absolute"
                (num_div (number_of_Z (position event)) (Finite 1000000))])%list
    /\ only_calls_differ st st'.
Proof.
  intros Hf Hz Ht.
  rewrite (on_position_seek now event st st zone
             (ensureActiveZone_some now st zone Hz) (or_introl Hf)).
  apply transport_seek_Some. exact Ht.
Qed.

(** C8 (amended).  In every state that the bridge reaches through
    events whose zone ids name no member of [Object.prototype]: with no
    active zone a setPosition event issues no seek, as no zone can be
    resolved, and only re-applies the idle projection.  With an active
    zone, an event that carries a non-empty track id other than the
    projected track id issues no seek and changes no state; an event
    that carries the projected track id, when a transport is set, has
    its position converted from microseconds to seconds and issues
    exactly one absolute seek against the active zone, and nothing else
    changes. *)
Theorem stale_position_dropped (now : Z) (event : PositionEvent) (st : State) :
  reachable_plain st ->
  let current := mpris_trackid (metadata (player st)) in
  let seconds := num_div (number_of_Z (position event)) (Finite 1000000) in
  (activeZone st = None ->
   on_position now event st = Returned (activateZone now None st)
   /\ transportCalls (activateZone now None st) = transportCalls st)
  /\ (forall zone, activeZone st = Some zone ->
        (forall t, trackId event = Some t -> t <> EmptyString ->
                   t <> current -> on_position now event st = Returned st)
        /\ (trackId event = Some current -> is_Some (transport st) ->
            exists st',
              on_position now event st = Returned st'
              /\ transportCalls st'
                 = (transportCalls st
                    ++ [seek_call (zone_id zone) "absolute" seconds])%list
              /\ only_calls_differ st st')).
Proof.
  intros Hr. cbv zeta.
  pose proof (reachable_registry st (reachable_plain_reachable st Hr)) as Hj.
  split.
  - intros Hn.
    rewrite (on_position_none now event st _
               (ensureActiveZone_none now st Hj Hn)).
    split; [reflexivity|apply activateZone_transportCalls].
  - intros zone Hz.
    pose proof (ensureActiveZone_some now st zone Hz) as He.
    split.
    + intros t Hid Hne Hcur.
      exact (on_position_stale now event st st zone t He Hid Hne Hcur).
    + intros Hid Ht.
      rewrite (on_position_seek now event st st zone He (or_intror Hid)).
      apply transport_seek_Some. exact Ht.
Qed.

(** ** Seek deltas *)

Lemma obj_set_keys {V} (o : JsObj V) (k : string) (v v' : V) :
  obj_get o k = Some v -> map fst (obj_set o k v') = map fst o.
Proof.
  induction o as [|[k0 v0] o IH]; simpl; [discriminate|].
  destruct (String.eqb k0 k); [reflexivity|].
  intros H. simpl. rewrite (IH H). reflexivity.
Qed.

Lemma seek_patched_same zone seekUpdate :
  same_but_seek zone (seek_patched zone seekUpdate).
Proof. unfold same_but_seek. cbv zeta. repeat split; reflexivity. Qed.

(** C7 (amended).  A seek-delta for a zone id z that is neither in the
    registry nor the name of a member of [Object.prototype] is a no-op.
    For z in the registry it sets only now_playing.seek_position and the
    queue time remaining of the registry entry for z: every other field
    of that entry, every other entry and the order of the registry are
    unchanged, as are the player and the selection.  When z is the
    active zone the seek anchor is recomputed from the entry and a
    seeked signal carries the new position in microseconds: the floor of
    the product, rounded to double precision, of the seconds (0 when
    absent or zero) and 1,000,000; when it is not, the anchor stays and
    no signal is sent. *)
Theorem seek_delta_frame (now : Z) (st : State) (seekUpdate : SeekUpdate) :
  let z := su_zone_id seekUpdate in
  let st' := zone_seek_changed now st seekUpdate in
  let micros :=
    Math_floor
      (num_mul (or_zero (su_seek_position seekUpdate)) (Finite 1000000)) in
  (obj_get (zones st) z = None -> inherited_key z = false -> st' = st)
  /\ (forall zone, obj_get (zones st) z = Some zone ->
        (exists zone',
            obj_get (zones st') z = Some zone'
            /\ seek_position (now_playing_or_empty zone')
               = su_seek_position seekUpdate
            /\ queue_time_remaining zone'
               = su_queue_time_remaining seekUpdate
            /\ same_but_seek zone zone')
        /\ (forall k, k <> z -> obj_get (zones st') k = obj_get (zones st) k)
        /\ map fst (zones st') = map fst (zones st)
        /\ player st' = player st
        /\ activeZoneId st' = activeZoneId st
        /\ activeZone st' = activeZone st
        /\ transportCalls st' = transportCalls st
        /\ (activeZoneId st = Some z ->
            lastSeekSeconds st'
            = default 0%Q (normaliseNumber (su_seek_position seekUpdate))
            /\ lastSeekUpdate st' = now
            /\ activeLengthSeconds st'
               = normaliseNumber (np_length (now_playing_or_empty zone))
            /\ lastKnownZoneState st' = lastKnownZoneState st
            /\ seekedSignals st' = (seekedSignals st ++ [micros])%list)
        /\ (activeZoneId st <> Some z ->
            lastSeekSeconds st' = lastSeekSeconds st
            /\ lastSeekUpdate st' = lastSeekUpdate st
            /\ activeLengthSeconds st' = activeLengthSeconds st
            /\ lastKnownZoneState st' = lastKnownZoneState st
            /\ seekedSignals st' = seekedSignals st)).
Proof.
  cbv zeta.
  destruct (zone_seek_changed_kept now st seekUpdate)
    as (_ & _ & _ & Ha & Hz & Hc & Hp).
  split.
  - intros Hn _. unfold zone_seek_changed. rewrite Hn. reflexivity.
  - intros zone Hget.
    split; [|split; [|split; [|split; [exact Hp|split; [exact Ha|
      split; [exact Hz|split; [exact Hc|]]]]]]].
    + exists (seek_patched zone seekUpdate).
      split; [|split; [reflexivity|split;
        [reflexivity|apply seek_patched_same]]].
      unfold zone_seek_changed. rewrite Hget. cbv zeta.
      destruct (is_active_id _ _);
        [unfold updateSeekState; destruct (normaliseNumber (seek_position _))|];
        apply obj_get_set_eq.
    + intros k Hk. unfold zone_seek_changed. rewrite Hget. cbv zeta.
      destruct (is_active_id _ _);
        [unfold updateSeekState; destruct (normaliseNumber (seek_position _))|];
        apply obj_get_set_ne; congruence.
    + unfold zone_seek_changed. rewrite Hget. cbv zeta.
      destruct (is_active_id _ _);
        [unfold updateSeekState; destruct (normaliseNumber (seek_position _))|];
        apply (obj_set_keys _ _ zone); exact Hget.
    + unfold zone_seek_changed. rewrite Hget. cbv zeta.
      change (activeZoneId (set_zones ?zs st)) with (activeZoneId st).
      split.
      * intros Hact. rewrite Hact. unfold is_active_id.
        rewrite String.eqb_refl. unfold updateSeekState.
        change (seek_position (now_playing_or_empty
                                 (seek_patched zone seekUpdate)))
          with (su_seek_position seekUpdate).
        change (np_length (now_playing_or_empty
                             (seek_patched zone seekUpdate)))
          with (np_length (now_playing_or_empty zone)).
        destruct (normaliseNumber (su_seek_position seekUpdate));
          repeat split; reflexivity.
      * intros Hact.
        assert (E : is_active_id (su_zone_id seekUpdate) (activeZoneId st)
                    = false).
        { unfold is_active_id. destruct (activeZoneId st) as [a|];
            [|reflexivity].
          apply String.eqb_neq. congruence. }
        rewrite E. repeat split; reflexivity.
Qed.

(** ** Artwork requests *)

Lemma art_cached_test imageKey st :
  match keyToFilePath st !! imageKey with
  | Some existing => truthy_string existing && bool_decide (existing ∈ files st)
  | None => false
  end = true <-> art_cached imageKey st.
Proof.
  unfold art_cached. destruct (keyToFilePath st !! imageKey) as [p|].
  - rewrite andb_true_iff, truthy_string_true, bool_decide_eq_true. split.
    + intros [H1 H2]. exists p. repeat split; assumption.
    + intros [p' (E & H1 & H2)]. injection E as <-. split; assumption.
  - split; [discriminate|]. intros [p (E & _)]. discriminate.
Qed.

(** C1 (amended).  With the image service present, a resolve call for a
    non-empty key issues a fetch whenever the key has no resolved path
    whose file exists, whether or not a fetch for that key is already
    pending: the cache registers nothing before the reply, so two
    concurrent resolve calls for the same unresolved key trigger two
    fetches.  When the key is resolved and its file exists, a resolve
    call issues no fetch and settles with the cached file URL. *)
Theorem resolve_fetches_unless_cached (imageKey : string) (st : State) :
  is_Some (imageSvc st) ->
  imageKey <> EmptyString ->
  (art_cached imageKey st ->
   imageRequests (resolveArtFile imageKey st) = imageRequests st
   /\ exists path, keyToFilePath st !! imageKey = Some path
                   /\ artJobs (resolveArtFile imageKey st)
                      = (artJobs st ++ [art_hit ("file://" +:+ path)])%list)
  /\ (~ art_cached imageKey st ->
      imageRequests (resolveArtFile imageKey st)
      = (imageRequests st ++ [imageKey])%list
      /\ artJobs (resolveArtFile imageKey st)
         = (artJobs st ++ [art_fetch imageKey])%list
      /\ imageRequests (resolveArtFile imageKey (resolveArtFile imageKey st))
         = (imageRequests st ++ [imageKey; imageKey])%list).
Proof.
  intros Hsvc Hkey.
  assert (Hguard : negb (bool_decide (is_Some (imageSvc st)))
                   || negb (truthy_string imageKey) = false).
  { rewrite (bool_decide_eq_true_2 _ Hsvc).
    rewrite (proj2 (truthy_string_true _) Hkey). reflexivity. }
  pose proof (art_cached_test imageKey st) as Ht.
  split.
  - intros Hc. apply Ht in Hc. unfold resolveArtFile. rewrite Hguard.
    cbv zeta. destruct (keyToFilePath st !! imageKey) as [p|]; [|discriminate].
    rewrite Hc. split; [reflexivity|]. exists p. split; reflexivity.
  - intros Hc.
    assert (Hmiss : resolveArtFile imageKey st
                    = set_art (keyToFilePath st) (files st)
                        (artJobs st ++ [art_fetch imageKey])
                        (imageRequests st ++ [imageKey]) st).
    { unfold resolveArtFile. rewrite Hguard. cbv zeta.
      destruct (keyToFilePath st !! imageKey) as [p|]; [|reflexivity].
      destruct (truthy_string p && _) eqn:E; [|reflexivity].
      exfalso. apply Hc, Ht. reflexivity. }
    rewrite Hmiss. split; [reflexivity|]. split; [reflexivity|].
    unfold resolveArtFile.
    change (imageSvc (set_art ?m ?f ?j ?r st)) with (imageSvc st).
    change (keyToFilePath (set_art ?m ?f ?j ?r st)) with m.
    change (files (set_art ?m ?f ?j ?r st)) with f.
    rewrite Hguard. cbv zeta.
    destruct (keyToFilePath st !! imageKey) as [p|].
    + destruct (truthy_string p && _) eqn:E.
      * exfalso. apply Hc, Ht. reflexivity.
      * simpl. rewrite <- app_assoc. reflexivity.
    + simpl. rewrite <- app_assoc. reflexivity.
Qed.

(** ** Metadata text *)

Lemma pickText_first (values : list JsValue) :
  pickText values = first_non_empty (map extractText values).
Proof.
  induction values as [|v values IH]; [reflexivity|].
  simpl. destruct (extractText v) as [s|]; rewrite IH; reflexivity.
Qed.

Lemma first_non_empty_line (o : option string) (rest : list (option string)) :
  first_non_empty (extractText (line_value o) :: rest)
  = first_non_empty (o :: rest).
Proof. destruct o as [[|c s]|]; reflexivity. Qed.

Lemma first_non_empty_cons (o : option string) (l l' : list (option string)) :
  first_non_empty l = first_non_empty l' ->
  first_non_empty (o :: l) = first_non_empty (o :: l').
Proof.
  intros H. destruct o as [s|]; simpl; [destruct (truthy_string s)|]; auto.
Qed.

Lemma first_non_empty_lines (os : list (option string)) :
  first_non_empty (map extractText (map line_value os)) = first_non_empty os.
Proof.
  induction os as [|o os IH]; [reflexivity|].
  cbn [map]. rewrite first_non_empty_line.
  apply first_non_empty_cons. exact IH.
Qed.

Lemma first_non_empty_truthy (l : list (option string)) (s : string) :
  first_non_empty l = Some s -> truthy_string s = true.
Proof.
  induction l as [|[x|] l IH]; simpl; [discriminate| |exact IH].
  destruct (truthy_string x) eqn:E; [|exact IH].
  intros H. injection H as <-. exact E.
Qed.

Lemma first_non_empty_app (l l' : list (option string)) :
  first_non_empty (l ++ l')
  = match first_non_empty l with
    | Some s => Some s
    | None => first_non_empty l'
    end.
Proof.
  induction l as [|[x|] l IH]; simpl; [reflexivity| |exact IH].
  destruct (truthy_string x); [reflexivity|exact IH].
Qed.

Lemma or_string_first (o : option string) (d : string) :
  or_string o d = default d (first_non_empty [o]).
Proof. destruct o as [s|]; simpl; [destruct (truthy_string s)|]; reflexivity. Qed.

Lemma or_string_truthy (l : list (option string)) (d : string) :
  or_string (first_non_empty l) d = default d (first_non_empty l).
Proof.
  destruct (first_non_empty l) as [s|] eqn:E; [|reflexivity].
  simpl. rewrite (first_non_empty_truthy l s E). reflexivity.
Qed.

(** C6.  The text fields of the projected metadata are the first
    non-empty candidate of a chain.  Title: the explicit title, the
    three-line block's line 1, the two-line block's line 2, the one-line
    block's line 1, the zone display name, else the literal Roon.
    Artist: the explicit artist, the artist line, the three-line block's
    line 2, the two-line block's line 1, else Roon.  Album: the explicit
    album, the three-line block's line 3, else the placeholder.  For a
    zone whose now_playing is only a three-line block with lines T, A
    and Al, the title is T, the artist A and the album Al. *)
Theorem metadata_fallback_chain (zone : Zone) (st : State) :
  let np := now_playing_or_empty zone in
  let m := metadata (player (updateMetadata zone st)) in
  xesam_title m
  = default "Roon"
      (first_non_empty
         [ extractText (title np); extractLine (three_line np) "line1";
           extractLine (two_line np) "line2";
           extractLine (one_line np) "line1"; display_name zone ])
  /\ xesam_artist m
     = [ default "Roon"
           (first_non_empty
              [ extractText (artist np); extractText (artist_line np);
                extractLine (three_line np) "line2";
                extractLine (two_line np) "line1" ]) ]
  /\ xesam_album m
     = default "—"
         (first_non_empty
            [ extractText (album np); extractLine (three_line np) "line3" ])
  /\ (now_playing zone = Some three_line_only ->
      xesam_title m = "T" /\ xesam_artist m = ["A"] /\ xesam_album m = "Al").
Proof.
  cbv zeta.
  set (np := now_playing_or_empty zone).
  assert (Ht : xesam_title (metadata (player (updateMetadata zone st)))
               = default "Roon"
                   (first_non_empty
                      ([ extractText (title np);
                         extractLine (three_line np) "line1";
                         extractLine (two_line np) "line2";
                         extractLine (one_line np) "line1" ]
                       ++ [display_name zone]))).
  { change (xesam_title (metadata (player (updateMetadata zone st))))
      with (let t := pickText
                       [ title np;
                         line_value (extractLine (three_line np) "line1");
                         line_value (extractLine (two_line np) "line2");
                         line_value (extractLine (one_line np) "line1") ] in
            if truthy_opt t then default EmptyString t
            else or_string (display_name zone) "Roon").
    cbv zeta. rewrite pickText_first. cbn [map].
    rewrite first_non_empty_app.
    set (a := extractText (title np)).
    assert (E : first_non_empty
                  [ a; extractText (line_value (extractLine (three_line np) "line1"));
                    extractText (line_value (extractLine (two_line np) "line2"));
                    extractText (line_value (extractLine (one_line np) "line1")) ]
                = first_non_empty
                    [ a; extractLine (three_line np) "line1";
                      extractLine (two_line np) "line2";
                      extractLine (one_line np) "line1" ]).
    { apply first_non_empty_cons.
      exact (first_non_empty_lines
               [ extractLine (three_line np) "line1";
                 extractLine (two_line np) "line2";
                 extractLine (one_line np) "line1" ]). }
    rewrite E. clear E.
    destruct (first_non_empty (a :: _)) as [s|] eqn:Es.
    - cbn [truthy_opt]. rewrite (first_non_empty_truthy _ _ Es). reflexivity.
    - cbn [truthy_opt]. apply or_string_first. }
  assert (Ha : xesam_artist (metadata (player (updateMetadata zone st)))
               = [ default "Roon"
                     (first_non_empty
                        [ extractText (artist np);
                          extractText (artist_line np);
                          extractLine (three_line np) "line2";
                          extractLine (two_line np) "line1" ]) ]).
  { change (xesam_artist (metadata (player (updateMetadata zone st))))
      with [ or_string
               (pickText
                  [ artist np; artist_line np;
                    line_value (extractLine (three_line np) "line2");
                    line_value (extractLine (two_line np) "line1") ])
               "Roon" ].
    rewrite pickText_first. cbn [map]. rewrite or_string_truthy.
    f_equal. f_equal.
    apply first_non_empty_cons, first_non_empty_cons.
    exact (first_non_empty_lines
             [ extractLine (three_line np) "line2";
               extractLine (two_line np) "line1" ]). }
  assert (Hb : xesam_album (metadata (player (updateMetadata zone st)))
               = default "—"
                   (first_non_empty
                      [ extractText (album np);
                        extractLine (three_line np) "line3" ])).
  { change (xesam_album (metadata (player (updateMetadata zone st))))
      with (or_string
              (pickText
                 [ album np;
                   line_value (extractLine (three_line np) "line3") ])
              "—").
    rewrite pickText_first. cbn [map]. rewrite or_string_truthy.
    f_equal. apply first_non_empty_cons.
    exact (first_non_empty_lines [ extractLine (three_line np) "line3" ]). }
  split; [exact Ht|]. split; [exact Ha|]. split; [exact Hb|].
  intros Hnp. rewrite Ht, Ha, Hb. subst np.
  unfold now_playing_or_empty. rewrite Hnp.
  split; [|split]; vm_compute; reflexivity.
Qed.

(** ** Position estimate *)

Lemma Math_max_lub (a b c : Number) :
  num_le a c -> num_le b c -> num_le (Math_max a b) c.
Proof.
  intros Ha Hb.
  destruct (num_le_not_NaN _ _ Ha) as [Na _].
  destruct (num_le_not_NaN _ _ Hb) as [Nb _].
  unfold Math_max. rewrite (is_NaN_false a Na), (is_NaN_false b Nb).
  cbn [orb]. destruct (num_leb a b); assumption.
Qed.

(** The last two steps of [getPosition] give a whole number that is not
    negative, or the positive infinity. *)
Lemma Math_max_zero_floor (y : Number) :
  y <> NaN ->
  Math_max (Finite 0) (Math_floor y) = Infinity false
  \/ exists n : Z,
       (0 <= n)%Z /\ Math_max (Finite 0) (Math_floor y) = Finite (inject_Z n).
Proof.
  destruct y as [|[|]|q]; intros H.
  - congruence.
  - right. exists 0%Z. split; [lia|reflexivity].
  - left. reflexivity.
  - right. unfold Math_floor, Math_max. cbn [is_NaN orb]. unfold num_leb.
    destruct (Qle_bool 0 (inject_Z (Qfloor q))) eqn:E.
    + exists (Qfloor q). split; [|reflexivity].
      apply Qle_bool_iff in E. rewrite (Zle_Qle 0 (Qfloor q)). exact E.
    + exists 0%Z. split; [lia|reflexivity].
Qed.

(** Clamping to zero before or after the scaling gives the same number. *)
Lemma floor_micros_clamp (x : Number) :
  Math_max (Finite 0) (Math_floor (num_mul x (Finite 1000000)))
  = Math_floor (num_mul (Math_max (Finite 0) x) (Finite 1000000)).
Proof.
  destruct x as [|[|]|q]; [reflexivity|reflexivity|reflexivity|].
  unfold Math_max at 2. cbn [is_NaN orb]. unfold num_leb.
  destruct (Qle_bool 0 q) eqn:E.
  - apply Qle_bool_iff in E. unfold num_mul.
    assert (Hp : (0 <= q * 1000000)%Q) by lra.
    pose proof (proj1 (round_sign (q * 1000000)) Hp) as Hr.
    destruct (round (q * 1000000)) as [|[|]|r];
      [contradiction|contradiction|reflexivity|].
    unfold Math_floor, Math_max. cbn [is_NaN orb]. unfold num_leb.
    assert (Hf : Qle_bool 0 (inject_Z (Qfloor r)) = true).
    { apply Qle_bool_iff. change (inject_Z 0 <= inject_Z (Qfloor r))%Q.
      rewrite <- Zle_Qle. exact (Qfloor_resp_le 0 r Hr). }
    rewrite Hf. reflexivity.
  - assert (Hq : (q * 1000000 <= 0)%Q).
    { assert (N : ~ (0 <= q)%Q) by (rewrite <- Qle_bool_iff; congruence).
      lra. }
    unfold num_mul.
    change (0 * 1000000)%Q with 0%Q. rewrite round_zero.
    pose proof (proj2 (round_sign (q * 1000000)) Hq) as Hr.
    destruct (round (q * 1000000)) as [|[|]|r];
      [contradiction|reflexivity|contradiction|].
    unfold Math_floor, Math_max. cbn [is_NaN orb]. unfold num_leb.
    destruct (Qle_bool 0 (inject_Z (Qfloor r))) eqn:Ef; [|reflexivity].
    apply Qle_bool_iff in Ef.
    change (inject_Z 0 <= inject_Z (Qfloor r))%Q in Ef.
    rewrite <- Zle_Qle in Ef.
    pose proof (Qfloor_resp_le r 0 Hr) as Hz.
    change (Qfloor 0) with 0%Z in Hz.
    replace (Qfloor r) with 0%Z by lia. reflexivity.
Qed.

Lemma getPosition_active now st zone :
  activeZone st = Some zone ->
  getPosition now st
  = Math_max (Finite 0)
      (Math_floor (num_mul (elapsed_seconds st now) (Finite 1000000))).
Proof. intros H. unfold getPosition. rewrite H. reflexivity. Qed.

Lemma elapsed_seconds_mono (st : State) (now now' : Z) :
  (now <= now')%Z ->
  num_le (elapsed_seconds st now) (elapsed_seconds st now').
Proof.
  intros H. unfold elapsed_seconds. cbv zeta.
  assert (He : num_le
                 (if String.eqb (lastKnownZoneState st) "playing"
                  then num_add (Finite (lastSeekSeconds st))
                         (num_div (number_of_Z (now - lastSeekUpdate st))
                            (Finite 1000))
                  else Finite (lastSeekSeconds st))
                 (if String.eqb (lastKnownZoneState st) "playing"
                  then num_add (Finite (lastSeekSeconds st))
                         (num_div (number_of_Z (now' - lastSeekUpdate st))
                            (Finite 1000))
                  else Finite (lastSeekSeconds st))).
  { destruct (String.eqb (lastKnownZoneState st) "playing").
    - apply num_add_mono. apply num_div_mono; [reflexivity|].
      apply round_mono. rewrite <- Zle_Qle. lia.
    - apply num_le_refl. discriminate. }
  destruct (activeLengthSeconds st) as [len|]; [|exact He].
  apply Math_min_mono; [discriminate|exact He].
Qed.

Lemma elapsed_seconds_length (st : State) (now : Z) (len : Q) :
  activeLengthSeconds st = Some len ->
  num_le (elapsed_seconds st now) (Finite len).
Proof.
  intros Hl.
  destruct (num_le_not_NaN _ _ (elapsed_seconds_mono st now now (Z.le_refl _)))
    as [Hn _].
  revert Hn. unfold elapsed_seconds. cbv zeta. rewrite Hl. intros Hn.
  apply Math_min_le_r; [|discriminate].
  intros E. apply Hn. unfold Math_min. rewrite E. reflexivity.
Qed.

Lemma position_estimate_bounds (now : Z) (st : State) (zone : Zone) (len : Q) :
  activeZone st = Some zone ->
  activeLengthSeconds st = Some len -> (0 <= len)%Q ->
  num_le (Finite 0) (getPosition now st)
  /\ num_le (getPosition now st)
       (Math_floor (num_mul (Finite len) (Finite 1000000))).
Proof.
  intros Ez Hlen Hpos. rewrite (getPosition_active now st zone Ez).
  assert (Hb : num_le (num_mul (elapsed_seconds st now) (Finite 1000000))
                 (num_mul (Finite len) (Finite 1000000))).
  { apply num_mul_mono; [reflexivity|].
    exact (elapsed_seconds_length st now len Hlen). }
  split.
  - apply Math_max_ge_l; [discriminate|].
    exact (proj1 (num_le_not_NaN _ _ (Math_floor_mono _ _ Hb))).
  - apply Math_max_lub; [|apply Math_floor_mono; exact Hb].
    assert (H0 : num_le (Finite 0) (num_mul (Finite len) (Finite 1000000))).
    { assert (Hp : (0 <= len * 1000000)%Q) by lra.
      exact (proj1 (round_sign (len * 1000000)) Hp). }
    change (Finite 0) with (Math_floor (Finite 0)).
    apply Math_floor_mono. exact H0.
Qed.

(** C5 (amended).  For the seek anchor of an active zone, and in every
    reachable state, [getPosition] at wall-clock time [now] is the floor
    of a million times the elapsed seconds clamped to the known length
    and to zero from below, where the elapsed seconds are the anchor
    seconds plus the time since the anchor when playing and the anchor
    seconds otherwise, and where the sum, the quotient and the product
    are rounded to double precision.  The result is a whole number that
    is not negative, or the positive infinity when the product
    overflows; it is non-decreasing in [now], constant in [now] for an
    anchor that is not playing, and, when the length is known and not
    negative, at most the floor of the rounded product of the length and
    1,000,000. *)
Theorem position_estimate (now now' : Z) (st : State) :
  is_Some (activeZone st) \/ reachable st ->
  (now <= now')%Z ->
  let playing := String.eqb (lastKnownZoneState st) "playing" in
  getPosition now st
  = currentPositionMicros (lastSeekSeconds st) (lastSeekUpdate st) playing
      (activeLengthSeconds st) now
  /\ (getPosition now st = Infinity false
      \/ exists n : Z,
           (0 <= n)%Z /\ getPosition now st = Finite (inject_Z n))
  /\ num_le (getPosition now st) (getPosition now' st)
  /\ (playing = false -> getPosition now' st = getPosition now st)
  /\ (forall len, activeLengthSeconds st = Some len -> (0 <= len)%Q ->
        num_le (getPosition now st)
          (Math_floor (num_mul (Finite len) (Finite 1000000)))).
Proof.
  intros Hst Hnow. cbv zeta.
  destruct (activeZone st) as [zone|] eqn:Ez.
  - clear Hst. rewrite !(getPosition_active _ st zone Ez).
    pose proof (elapsed_seconds_mono st now now' Hnow) as He.
    assert (Hm : num_le (num_mul (elapsed_seconds st now) (Finite 1000000))
                   (num_mul (elapsed_seconds st now') (Finite 1000000)))
      by (apply num_mul_mono; [reflexivity|exact He]).
    split; [|split; [|split; [|split]]].
    + rewrite floor_micros_clamp. reflexivity.
    + apply Math_max_zero_floor.
      exact (proj1 (num_le_not_NaN _ _ Hm)).
    + apply Math_max_mono; [discriminate|].
      apply Math_floor_mono. exact Hm.
    + intros Hp. unfold elapsed_seconds. rewrite Hp. reflexivity.
    + intros len Hlen Hpos.
      rewrite <- (getPosition_active now st zone Ez).
      exact (proj2 (position_estimate_bounds now st zone len Ez Hlen Hpos)).
  - destruct Hst as [[z Hz]|Hr]; [discriminate|].
    destruct (reachable_anchor st Hr Ez) as (_ & Hs & Hk & Hl).
    unfold getPosition. rewrite Ez, Hs, Hk, Hl.
    split; [vm_compute; reflexivity|].
    split; [right; exists 0%Z; split; [lia|reflexivity]|].
    split; [apply Qle_refl|]. split; [reflexivity|].
    intros len Hlen. discriminate.
Qed.

(** * Further properties of the handlers *)

(** ** The projection after an activation *)

Lemma updateSeekState_player now zone st :
  player (updateSeekState now zone st) = player st.
Proof.
  unfold updateSeekState.
  destruct (normaliseNumber (seek_position _)); reflexivity.
Qed.

Lemma updatePlaybackState_player zone st :
  player (updatePlaybackState zone st)
  = set_playbackStatus (mapPlaybackStatus (state zone)) (player st).
Proof. reflexivity. Qed.

Lemma activateZone_Some_player now zone st :
  player (activateZone now (Some zone) st)
  = set_playbackStatus (mapPlaybackStatus (state zone))
      (set_metadata
         (metadata
            (player
               (updateMetadata zone
                  (updateCapabilities zone
                     (set_active (Some (zone_id zone)) (Some zone) st)))))
         (player
            (updateCapabilities zone
               (set_active (Some (zone_id zone)) (Some zone) st)))).
Proof.
  unfold activateZone, updateFromActiveZone. cbv zeta.
  assert (E : forall s : State,
             player match activeCore s with
                    | Some core =>
                        setStatus
                          ("Connected to " +:+ core_display_name core
                           +:+ " · Zone: " +:+ display_name_text zone)
                          false s
                    | None => s
                    end = player s).
  { intros s. destruct (activeCore s); reflexivity. }
  rewrite E, updateSeekState_player, updatePlaybackState_player,
    updateMetadata_player.
  reflexivity.
Qed.

Lemma activateZone_Some_anchor now zone st :
  lastSeekSeconds (activateZone now (Some zone) st)
  = default 0%Q (normaliseNumber (seek_position (now_playing_or_empty zone)))
  /\ lastSeekUpdate (activateZone now (Some zone) st) = now
  /\ activeLengthSeconds (activateZone now (Some zone) st)
     = normaliseNumber (np_length (now_playing_or_empty zone))
  /\ lastKnownZoneState (activateZone now (Some zone) st)
     = or_string (state zone) "stopped".
Proof.
  unfold activateZone, updateFromActiveZone. cbv zeta.
  destruct (activeCore _); unfold setStatus, updateSeekState;
    destruct (normaliseNumber (seek_position (now_playing_or_empty zone)));
    repeat split; reflexivity.
Qed.

Lemma not_playing_state (st : option string) :
  st <> Some "playing" -> String.eqb (or_string st "stopped") "playing" = false.
Proof.
  intros H. destruct st as [s|]; [|reflexivity]. simpl.
  destruct (truthy_string s); [|reflexivity].
  apply String.eqb_neq. congruence.
Qed.

(** X1.  The playback status shown for an activated zone follows its
    state without regard to case, and a loading zone is shown as
    Playing; the position estimate, however, advances only for the
    exact state [playing]: for every other state, a loading zone
    included, it is the same at all times. *)
Theorem status_and_position_of_state (now : Z) (zone : Zone) (st : State) :
  let st' := activateZone now (Some zone) st in
  playbackStatus (player st') = mapPlaybackStatus (state zone)
  /\ (forall s, state zone = Some s ->
                toLowerCase s = "playing" \/ toLowerCase s = "loading" ->
                playbackStatus (player st') = "Playing")
  /\ (state zone <> Some "playing" ->
      forall t t', getPosition t st' = getPosition t' st').
Proof.
  cbv zeta. rewrite activateZone_Some_player.
  split; [reflexivity|]. split.
  - intros s Hs Hl.
    change (mapPlaybackStatus (state zone) = "Playing").
    rewrite Hs. unfold mapPlaybackStatus.
    assert (E : or_string (Some s) EmptyString = s)
      by (destruct s; reflexivity).
    rewrite E. destruct Hl as [-> | ->]; reflexivity.
  - intros Hnp t t'. unfold getPosition.
    rewrite activateZone_activeZone.
    destruct (activateZone_Some_anchor now zone st) as (_ & _ & _ & ->).
    rewrite (not_playing_state _ Hnp). reflexivity.
Qed.

(** X2.  After an activation the control surface can be controlled;
    play is offered whenever the zone allows it or is playing, paused or
    loading; seeking is offered exactly when the zone allows it and a
    seek position is known as a finite number, which every literal
    within the range of the doubles is ([round_in_range]); shuffle and
    loop are off when the zone has no settings. *)
Theorem capabilities_after_activation (now : Z) (zone : Zone) (st : State) :
  let p := player (activateZone now (Some zone) st) in
  canControl p = true
  /\ (state zone = Some "playing" \/ state zone = Some "paused"
      \/ state zone = Some "loading" \/ is_play_allowed zone = true ->
      canPlay p = true)
  /\ (canSeek p = true <->
      is_seek_allowed zone = true
      /\ exists np q, now_playing zone = Some np
                      /\ normaliseNumber (seek_position np) = Some q)
  /\ canPause p = is_pause_allowed zone
  /\ canGoNext p = is_next_allowed zone
  /\ canGoPrevious p = is_previous_allowed zone
  /\ (settings zone = None -> shuffle p = false /\ loopStatus p = "None").
Proof.
  cbv zeta. rewrite activateZone_Some_player.
  split; [reflexivity|]. split; [|split; [|split; [reflexivity|
    split; [reflexivity|split; [reflexivity|]]]]].
  - change (canPlay _)
      with (is_play_allowed zone || state_is zone "playing"
            || state_is zone "paused" || state_is zone "loading").
    intros [H|[H|[H|H]]].
    + rewrite (proj2 (state_is_spec zone "playing") H).
      rewrite orb_true_r. reflexivity.
    + rewrite (proj2 (state_is_spec zone "paused") H).
      rewrite orb_true_r. reflexivity.
    + rewrite (proj2 (state_is_spec zone "loading") H).
      apply orb_true_r.
    + rewrite H. reflexivity.
  - change (canSeek _) with (is_seek_allowed zone && hasSeekInfo zone).
    rewrite andb_true_iff. unfold hasSeekInfo.
    destruct (now_playing zone) as [np|].
    + destruct (normaliseNumber (seek_position np)) as [q|] eqn:Eq.
      * split; [intros [H _]; split;
                  [exact H|exists np, q; split; [reflexivity|exact Eq]]
               |intros [H _]; split; [exact H|reflexivity]].
      * split; [intros [_ H]; discriminate H|].
        intros [_ (np' & q & E & Hq)]. injection E as <-.
        rewrite Eq in Hq. discriminate.
    + split; [intros [_ H]; discriminate H|].
      intros [_ (np' & q & E & _)]. discriminate.
  - intros Hs.
    change (shuffle _)
      with (match settings zone with
            | Some s => settings_shuffle s | None => false end).
    change (loopStatus _)
      with (match settings zone with
            | Some s => mapLoopStatus (settings_loop s) | None => "None" end).
    rewrite Hs. split; reflexivity.
Qed.

(** X3.  For an activated zone whose length is known, finite and not
    negative, the projected [mpris:length] is the floor of the product,
    rounded to double precision, of that length and 1,000,000, and the
    position estimate stays between zero and it at all times. *)
Theorem position_within_projected_length (now : Z) (zone : Zone) (st : State)
    (len : Q) :
  normaliseNumber (np_length (now_playing_or_empty zone)) = Some len ->
  (0 <= len)%Q ->
  let st' := activateZone now (Some zone) st in
  let micros := Math_floor (num_mul (Finite len) (Finite 1000000)) in
  mpris_length (metadata (player st')) = Some micros
  /\ forall t, num_le (Finite 0) (getPosition t st')
               /\ num_le (getPosition t st') micros.
Proof.
  intros Hlen Hpos. cbv zeta. split.
  - rewrite activateZone_Some_player.
    change (match normaliseNumber (np_length (now_playing_or_empty zone)) with
            | Some l => Some (Math_floor (num_mul (Finite l) (Finite 1000000)))
            | None => None
            end = Some (Math_floor (num_mul (Finite len) (Finite 1000000)))).
    rewrite Hlen. reflexivity.
  - intros t.
    pose proof (activateZone_activeZone now (Some zone) st) as Hz.
    destruct (activateZone_Some_anchor now zone st) as (_ & _ & Hl & _).
    rewrite Hlen in Hl.
    exact (position_estimate_bounds t _ zone len Hz Hl Hpos).
Qed.

Lemma or_string_nonempty (o : option string) (d : string) :
  d <> EmptyString -> or_string o d <> EmptyString.
Proof.
  intros Hd. destruct o as [s|]; simpl; [|exact Hd].
  destruct (truthy_string s) eqn:E; [|exact Hd].
  apply truthy_string_true. exact E.
Qed.

(** X4.  The projected title, artist and album are never empty: whatever
    the zone reports, each holds a non-empty text, the fallback literal
    at the least, and the artist list has exactly one entry. *)
Theorem metadata_text_never_empty (zone : Zone) (st : State) :
  let m := metadata (player (updateMetadata zone st)) in
  xesam_title m <> EmptyString
  /\ (exists a, xesam_artist m = [a] /\ a <> EmptyString)
  /\ xesam_album m <> EmptyString.
Proof.
  cbv zeta. set (np := now_playing_or_empty zone).
  split; [|split].
  - change (xesam_title (metadata (player (updateMetadata zone st))))
      with (let t := pickText
                       [ title np;
                         line_value (extractLine (three_line np) "line1");
                         line_value (extractLine (two_line np) "line2");
                         line_value (extractLine (one_line np) "line1") ] in
            if truthy_opt t then default EmptyString t
            else or_string (display_name zone) "Roon").
    cbv zeta. destruct (pickText _) as [s|]; simpl.
    + destruct (truthy_string s) eqn:E.
      * apply truthy_string_true. exact E.
      * apply or_string_nonempty. discriminate.
    + apply or_string_nonempty. discriminate.
  - eexists. split; [reflexivity|]. apply or_string_nonempty. discriminate.
  - change (xesam_album (metadata (player (updateMetadata zone st))))
      with (or_string
              (pickText
                 [ album np;
                   line_value (extractLine (three_line np) "line3") ])
              "—").
    apply or_string_nonempty. discriminate.
Qed.

Lemma append_prefix_inj (p a b : string) : p +:+ a = p +:+ b -> a = b.
Proof.
  induction p as [|c p IH]; simpl; [auto|].
  intros H. injection H as H. exact (IH H).
Qed.

(** X5.  The track id projected for a zone determines the zone: two
    projections carry the same track id exactly when their zones have
    the same id. *)
Theorem zone_track_id_injective (zone zone' : Zone) (st st' : State) :
  mpris_trackid (metadata (player (updateMetadata zone st)))
  = mpris_trackid (metadata (player (updateMetadata zone' st')))
  <-> zone_id zone = zone_id zone'.
Proof.
  rewrite !updateMetadata_trackid. split.
  - unfold objectPath. cbv zeta.
    change (truthy_string ("zone/" +:+ ?x)) with true. cbv iota.
    intros H.
    apply (append_prefix_inj "/org/node/mediaplayer/roon") in H.
    apply (append_prefix_inj "/") in H.
    apply (append_prefix_inj "zone/") in H. exact H.
  - intros ->. reflexivity.
Qed.

(** ** Routing of control actions *)

Lemma sendTransportCommand_at now verb st st1 zone :
  ensureActiveZone now st = (st1, Some zone) ->
  sendTransportCommand now verb st
  = match transport st1 with
    | None => st1
    | Some _ =>
        set_transportCalls
          (transportCalls st1 ++ [control_call (zone_id zone) verb]) st1
    end.
Proof. intros He. unfold sendTransportCommand. rewrite He. reflexivity. Qed.

Lemma sendTransportCommand_none now verb st st1 :
  ensureActiveZone now st = (st1, None) ->
  sendTransportCommand now verb st = st1.
Proof. intros He. unfold sendTransportCommand. rewrite He. reflexivity. Qed.

(** X6.  In every state that the bridge reaches through events whose
    zone ids name no member of [Object.prototype], a transport action
    (play, pause, playpause, stop, next, previous) with no active zone
    sends nothing and only re-applies the idle projection.  With an
    active zone and a transport set it sends exactly one control call
    with that verb to the active zone and changes nothing else.  With an
    active zone and no transport, the state that a zone event after the
    loss of the core leaves, the guard on the transport fires: nothing
    is sent and nothing changes. *)
Theorem control_action_routed (now : Z) (verb : string) (st : State) :
  reachable_plain st ->
  (activeZone st = None ->
   sendTransportCommand now verb st = activateZone now None st
   /\ transportCalls (sendTransportCommand now verb st) = transportCalls st)
  /\ (forall zone, activeZone st = Some zone ->
        (is_Some (transport st) ->
         transportCalls (sendTransportCommand now verb st)
         = (transportCalls st ++ [control_call (zone_id zone) verb])%list
         /\ only_calls_differ st (sendTransportCommand now verb st))
        /\ (transport st = None -> sendTransportCommand now verb st = st)).
Proof.
  intros Hr.
  pose proof (reachable_registry st (reachable_plain_reachable st Hr)) as Hj.
  split.
  - intros Hn.
    rewrite (sendTransportCommand_none now verb st _
               (ensureActiveZone_none now st Hj Hn)).
    split; [reflexivity|apply activateZone_transportCalls].
  - intros zone Hz.
    rewrite (sendTransportCommand_at now verb st st zone
               (ensureActiveZone_some now st zone Hz)).
    split.
    + intros [t Ht]. rewrite Ht.
      split; [reflexivity|apply set_transportCalls_only].
    + intros Ht. rewrite Ht. reflexivity.
Qed.

(** X7.  In every state that the bridge reaches through events whose
    zone ids name no member of [Object.prototype], a relative seek by
    [offset] microseconds with no active zone sends nothing.  With an
    active zone and a transport set it sends exactly one relative seek
    of [offset / 1,000,000] seconds, the quotient in double precision,
    negative offsets included, to the active zone and changes nothing
    else.  With an active zone and no transport the handler throws a
    TypeError and nothing is sent. *)
Theorem relative_seek_routed (now : Z) (offset : Z) (st : State) :
  reachable_plain st ->
  (activeZone st = None ->
   on_seek now offset st = Returned (activateZone now None st)
   /\ transportCalls (activateZone now None st) = transportCalls st)
  /\ (forall zone, activeZone st = Some zone ->
        (is_Some (transport st) ->
         exists st',
           on_seek now offset st = Returned st'
           /\ transportCalls st'
              = (transportCalls st
                 ++ [seek_call (zone_id zone) "relative"
                       (num_div (number_of_Z offset) (Finite 1000000))])%list
           /\ only_calls_differ st st')
        /\ (transport st = None -> on_seek now offset st = TypeError st)).
Proof.
  intros Hr.
  pose proof (reachable_registry st (reachable_plain_reachable st Hr)) as Hj.
  split.
  - intros Hn.
    rewrite (on_seek_none now offset st _ (ensureActiveZone_none now st Hj Hn)).
    split; [reflexivity|apply activateZone_transportCalls].
  - intros zone Hz.
    rewrite (on_seek_some now offset st st zone
               (ensureActiveZone_some now st zone Hz)).
    split.
    + intros Ht. apply transport_seek_Some. exact Ht.
    + intros Ht. apply transport_seek_None. exact Ht.
Qed.

(** ** The registry *)

(** [zones[zone.zone_id] = zone]. *)
Definition put_zone (zs : JsObj Zone) (zone : Zone) : JsObj Zone :=
  obj_assign zs (zone_id zone) zone.


(** What one pass of the seek loop does to the registry. *)
Definition patch_seek (zs : JsObj Zone) (seekUpdate : SeekUpdate) : JsObj Zone :=
  match obj_get zs (su_zone_id seekUpdate) with
  | Some zone =>
      obj_set zs (su_zone_id seekUpdate) (seek_patched zone seekUpdate)
  | None => zs
  end.

(** No key occurs twice, and every key is the id of its zone. *)
Definition registry_keyed (zs : JsObj Zone) : Prop :=
  NoDup (map fst zs) /\ forall k z, In (k, z) zs -> zone_id z = k.

Lemma obj_get_delete {V} (o : JsObj V) (k k' : string) :
  obj_get (obj_delete o k) k' = if String.eqb k k' then None else obj_get o k'.
Proof.
  induction o as [|[k0 v0] o IH]; simpl.
  - destruct (String.eqb k k'); reflexivity.
  - destruct (String.eqb k0 k) eqn:E.
    + apply String.eqb_eq in E. subst k0. rewrite IH.
      destruct (String.eqb k k'); reflexivity.
    + simpl. rewrite IH. destruct (String.eqb k k') eqn:E'; [|reflexivity].
      apply String.eqb_eq in E'. subst k'. rewrite E. reflexivity.
Qed.

Lemma obj_get_In_pair {V} (o : JsObj V) (k : string) (v : V) :
  obj_get o k = Some v -> In (k, v) o.
Proof.
  induction o as [|[k0 v0] o IH]; simpl; [discriminate|].
  destruct (String.eqb k0 k) eqn:E.
  - apply String.eqb_eq in E. intros H. injection H as ->. left. congruence.
  - intros H. right. exact (IH H).
Qed.

Lemma In_obj_get {V} (o : JsObj V) (k : string) (v : V) :
  In (k, v) o -> is_Some (obj_get o k).
Proof.
  induction o as [|[k0 v0] o IH]; simpl; [tauto|].
  destruct (String.eqb k0 k) eqn:E; [eauto|].
  intros [H|H]; [|exact (IH H)].
  injection H as -> ->. rewrite String.eqb_refl in E. discriminate.
Qed.

Lemma In_obj_delete {V} (o : JsObj V) (k : string) (kv : string * V) :
  In kv (obj_delete o k) -> In kv o.
Proof.
  induction o as [|[k0 v0] o IH]; simpl; [tauto|].
  destruct (String.eqb k0 k); [tauto|]. simpl. tauto.
Qed.

Lemma In_obj_set {V} (o : JsObj V) (k : string) (v : V) (kv : string * V) :
  In kv (obj_set o k v) -> kv = (k, v) \/ In kv o.
Proof.
  induction o as [|[k0 v0] o IH]; simpl.
  - intros [<-|[]]. now left.
  - destruct (String.eqb k0 k) eqn:E.
    + apply String.eqb_eq in E. subst k0. simpl. intros [<-|H]; tauto.
    + simpl. intros [<-|H]; [tauto|]. destruct (IH H); tauto.
Qed.

Lemma keys_obj_delete {V} (o : JsObj V) (k x : string) :
  x ∈ map fst (obj_delete o k) -> x ∈ map fst o.
Proof.
  induction o as [|[k0 v0] o IH]; simpl; [tauto|].
  destruct (String.eqb k0 k); simpl; rewrite ?elem_of_cons; tauto.
Qed.

Lemma keys_obj_set {V} (o : JsObj V) (k : string) (v : V) (x : string) :
  x ∈ map fst (obj_set o k v) -> x = k \/ x ∈ map fst o.
Proof.
  induction o as [|[k0 v0] o IH]; simpl.
  - rewrite elem_of_cons, elem_of_nil. tauto.
  - destruct (String.eqb k0 k); simpl; rewrite !elem_of_cons; tauto.
Qed.

Lemma NoDup_obj_delete {V} (o : JsObj V) (k : string) :
  NoDup (map fst o) -> NoDup (map fst (obj_delete o k)).
Proof.
  induction o as [|[k0 v0] o IH]; simpl; [auto|].
  rewrite NoDup_cons. intros [Hn Hd].
  destruct (String.eqb k0 k); [auto|]. simpl.
  apply NoDup_cons. split; [|auto].
  intros Hx. apply Hn. eapply keys_obj_delete. exact Hx.
Qed.

Lemma NoDup_obj_set {V} (o : JsObj V) (k : string) (v : V) :
  NoDup (map fst o) -> NoDup (map fst (obj_set o k v)).
Proof.
  induction o as [|[k0 v0] o IH]; simpl.
  - intros _. apply NoDup_singleton.
  - rewrite NoDup_cons. intros [Hn Hd].
    destruct (String.eqb k0 k) eqn:E; simpl.
    + apply NoDup_cons. split; assumption.
    + apply NoDup_cons. split; [|auto].
      intros Hx. apply keys_obj_set in Hx. destruct Hx as [->|Hx]; [|auto].
      rewrite String.eqb_refl in E. discriminate.
Qed.

Lemma registry_keyed_delete zs k :
  registry_keyed zs -> registry_keyed (obj_delete zs k).
Proof.
  intros [Hd Hk]. split; [apply NoDup_obj_delete; exact Hd|].
  intros k' z Hin. apply Hk. eapply In_obj_delete. exact Hin.
Qed.

Lemma registry_keyed_set zs k z :
  zone_id z = k -> registry_keyed zs -> registry_keyed (obj_set zs k z).
Proof.
  intros Hz [Hd Hk]. split; [apply NoDup_obj_set; exact Hd|].
  intros k' z' Hin. apply In_obj_set in Hin.
  destruct Hin as [E|Hin]; [injection E as -> ->; exact Hz|auto].
Qed.

Lemma registry_keyed_put zs zone :
  registry_keyed zs -> registry_keyed (put_zone zs zone).
Proof.
  intros H. unfold put_zone, obj_assign.
  destruct (String.eqb (zone_id zone) "__proto__"); [exact H|].
  apply registry_keyed_set; [reflexivity|exact H].
Qed.

Lemma In_put_zone zs zone (kv : string * Zone) :
  In kv (put_zone zs zone) -> kv = (zone_id zone, zone) \/ In kv zs.
Proof.
  unfold put_zone, obj_assign.
  destruct (String.eqb (zone_id zone) "__proto__"); [tauto|].
  apply In_obj_set.
Qed.

Lemma inherited_key_proto (k : string) :
  inherited_key k = false -> String.eqb k "__proto__" = false.
Proof.
  intros H. destruct (String.eqb k "__proto__") eqn:E; [|reflexivity].
  apply String.eqb_eq in E. subst k. discriminate H.
Qed.

Lemma registry_keyed_patch zs seekUpdate :
  registry_keyed zs -> registry_keyed (patch_seek zs seekUpdate).
Proof.
  intros H. unfold patch_seek.
  destruct (obj_get zs (su_zone_id seekUpdate)) as [zone|] eqn:E; [|exact H].
  apply registry_keyed_set; [|exact H].
  apply obj_get_In_pair in E. exact (proj2 H _ _ E).
Qed.

Lemma registry_keyed_lookup zs k z :
  registry_keyed zs -> (obj_get zs k = Some z <-> In (k, z) zs).
Proof.
  intros [Hd _]. split; [apply obj_get_In_pair|].
  induction zs as [|[k0 z0] zs IH]; simpl; [tauto|].
  simpl in Hd. apply NoDup_cons in Hd. destruct Hd as [Hn Hd].
  intros [E|Hin].
  - injection E as -> ->. rewrite String.eqb_refl. reflexivity.
  - destruct (String.eqb k0 k) eqn:E; [|auto].
    apply String.eqb_eq in E. subst k0. exfalso. apply Hn.
    apply list_elem_of_In. apply (in_map fst) in Hin. exact Hin.
Qed.

(** The registry through the loops of a handler. *)
Lemma zones_fold_left {A} (f : State -> A -> State)
    (g : JsObj Zone -> A -> JsObj Zone) (l : list A) (st : State) :
  (forall s x, zones (f s x) = g (zones s) x) ->
  zones (fold_left f l st) = fold_left g l (zones st).
Proof.
  intros H. revert st. induction l as [|x l IH]; intros st; [reflexivity|].
  simpl. rewrite IH, H. reflexivity.
Qed.

Lemma zones_zone_removed now st id :
  zones (zone_removed now st id) = obj_delete (zones st) id.
Proof.
  unfold zone_removed. cbv zeta.
  destruct (is_active_id _ _); [|reflexivity].
  rewrite activateZone_zones. reflexivity.
Qed.

Lemma zones_zone_changed now st zone :
  zones (zone_changed now st zone) = put_zone (zones st) zone.
Proof.
  unfold zone_changed. cbv zeta.
  destruct (is_active_id _ _); [|reflexivity].
  rewrite activateZone_zones. reflexivity.
Qed.

Lemma zones_zone_seek_changed now st seekUpdate :
  zones (zone_seek_changed now st seekUpdate) = patch_seek (zones st) seekUpdate.
Proof.
  unfold zone_seek_changed, patch_seek.
  destruct (obj_get (zones st) (su_zone_id seekUpdate)); [|reflexivity].
  cbv zeta. destruct (is_active_id _ _); [|reflexivity].
  unfold updateSeekState.
  destruct (normaliseNumber (seek_position _)); reflexivity.
Qed.

(** The registry after a Changed event is the registry before it with
    the removals, the additions, the changes and the seek patches
    applied in that order. *)
Lemma zones_onZonesChanged now changeSet st :
  zones (onZonesChanged now changeSet st)
  = fold_left patch_seek (default [] (zones_seek_changed changeSet))
      (fold_left put_zone (default [] (zones_changed changeSet))
         (fold_left put_zone (default [] (zones_added changeSet))
            (fold_left obj_delete (default [] (zones_removed changeSet))
               (zones st)))).
Proof.
  unfold onZonesChanged. cbv zeta.
  match goal with |- zones (if _ then _ else ?s) = _ => set (st4 := s) end.
  assert (H4 : zones st4
               = fold_left patch_seek (default [] (zones_seek_changed changeSet))
                   (fold_left put_zone (default [] (zones_changed changeSet))
                      (fold_left put_zone (default [] (zones_added changeSet))
                         (fold_left obj_delete
                            (default [] (zones_removed changeSet))
                            (zones st))))).
  { subst st4.
    destruct (zones_seek_changed changeSet) as [l4|]; simpl default;
      [rewrite (zones_fold_left _ patch_seek)
         by (intros; apply zones_zone_seek_changed)|];
      (destruct (zones_changed changeSet) as [l3|]; simpl default;
       [rewrite (zones_fold_left _ put_zone)
          by (intros; apply zones_zone_changed)|]);
      (destruct (zones_added changeSet) as [l2|]; simpl default;
       [rewrite (zones_fold_left _ put_zone) by (intros; reflexivity)|]);
      (destruct (zones_removed changeSet) as [l1|]; simpl default;
       [rewrite (zones_fold_left _ (@obj_delete Zone))
          by (intros; apply zones_zone_removed)|]);
      reflexivity. }
  clearbody st4. destruct (negb _); [|exact H4].
  rewrite selectAndActivateZone_selected, activateZone_zones. exact H4.
Qed.

Lemma same_but_seek_refl zone : same_but_seek zone zone.
Proof. unfold same_but_seek. cbv zeta. repeat split; reflexivity. Qed.

Lemma same_but_seek_trans z1 z2 z3 :
  same_but_seek z1 z2 -> same_but_seek z2 z3 -> same_but_seek z1 z3.
Proof.
  unfold same_but_seek. cbv zeta.
  intros (a1 & a2 & a3 & a4 & a5 & a6 & a7 & a8 & a9 & a10 & a11 & a12 & a13
          & a14 & a15 & a16 & a17 & a18 & a19)
         (b1 & b2 & b3 & b4 & b5 & b6 & b7 & b8 & b9 & b10 & b11 & b12 & b13
          & b14 & b15 & b16 & b17 & b18 & b19).
  repeat split; etransitivity; eassumption.
Qed.

Lemma lookup_after_deletes (l : list string) (zs : JsObj Zone) (k : string) :
  (In k l -> obj_get (fold_left obj_delete l zs) k = None)
  /\ (~ In k l -> obj_get (fold_left obj_delete l zs) k = obj_get zs k).
Proof.
  revert zs. induction l as [|x l IH]; intros zs; simpl.
  - split; [tauto|reflexivity].
  - destruct (IH (obj_delete zs x)) as [IH1 IH2]. split.
    + intros [->|Hin].
      * destruct (in_dec string_dec k l) as [Hi|Hi]; [auto|].
        rewrite (IH2 Hi), obj_get_delete, String.eqb_refl. reflexivity.
      * auto.
    + intros Hn. rewrite IH2 by tauto. rewrite obj_get_delete.
      destruct (String.eqb x k) eqn:E; [|reflexivity].
      apply String.eqb_eq in E. tauto.
Qed.

Lemma lookup_after_puts_other (l : list Zone) (zs : JsObj Zone) (k : string) :
  (forall z, In z l -> zone_id z <> k) ->
  obj_get (fold_left put_zone l zs) k = obj_get zs k.
Proof.
  revert zs. induction l as [|x l IH]; intros zs H; simpl; [reflexivity|].
  rewrite IH by (intros z Hz; apply H; now right).
  unfold put_zone, obj_assign.
  destruct (String.eqb (zone_id x) "__proto__"); [reflexivity|].
  apply obj_get_set_ne. apply H. now left.
Qed.

Lemma lookup_after_puts_last (l1 l2 : list Zone) (z : Zone) (zs : JsObj Zone) :
  inherited_key (zone_id z) = false ->
  (forall z', In z' l2 -> zone_id z' <> zone_id z) ->
  obj_get (fold_left put_zone (l1 ++ z :: l2) zs) (zone_id z) = Some z.
Proof.
  intros Hk H. rewrite fold_left_app. simpl.
  rewrite lookup_after_puts_other by exact H.
  unfold put_zone at 1. unfold obj_assign.
  rewrite (inherited_key_proto _ Hk). apply obj_get_set_eq.
Qed.

Lemma lookup_after_patches (l : list SeekUpdate) (zs : JsObj Zone) (k : string) :
  (obj_get zs k = None -> obj_get (fold_left patch_seek l zs) k = None)
  /\ (forall z, obj_get zs k = Some z ->
        exists z', obj_get (fold_left patch_seek l zs) k = Some z'
                   /\ same_but_seek z z').
Proof.
  revert zs. induction l as [|su l IH]; intros zs; simpl.
  - split; [tauto|]. intros z Hz. exists z. split; [exact Hz|].
    apply same_but_seek_refl.
  - destruct (IH (patch_seek zs su)) as [IH1 IH2].
    unfold patch_seek in *.
    destruct (obj_get zs (su_zone_id su)) as [zone|] eqn:E.
    + destruct (String.eqb (su_zone_id su) k) eqn:Ek.
      * apply String.eqb_eq in Ek. subst k. split.
        -- intros Hn. rewrite Hn in E. discriminate.
        -- intros z Hz. rewrite E in Hz. injection Hz as <-.
           destruct (IH2 (seek_patched zone su) (obj_get_set_eq _ _ _))
             as (z' & Hz' & Hs).
           exists z'. split; [exact Hz'|].
           eapply same_but_seek_trans; [apply seek_patched_same|exact Hs].
      * apply String.eqb_neq in Ek. split.
        -- intros Hn. apply IH1. rewrite obj_get_set_ne by exact Ek. exact Hn.
        -- intros z Hz. apply IH2.
           rewrite obj_get_set_ne by exact Ek. exact Hz.
    + split; [exact IH1|exact IH2].
Qed.

(** X8.  Within one Changed event whose zone ids name no member of
    [Object.prototype], the parts apply as removals, then additions,
    then changes, then seek deltas.  So for every zone id: the last zone
    added or changed under the id is in the registry afterwards, even
    when the same event removes the id, up to the seek fields a later
    seek delta sets; an id that is removed and not added again is absent
    afterwards; and an id the event neither removes nor adds keeps its
    entry, again up to the seek fields. *)
Theorem change_set_applies_in_order (now : Z) (changeSet : ChangeSet)
    (st : State) (k : string) :
  plain_ids changeSet ->
  let st' := onZonesChanged now changeSet st in
  let removed := default [] (zones_removed changeSet) in
  let put := (default [] (zones_added changeSet)
              ++ default [] (zones_changed changeSet))%list in
  (forall l1 z l2,
      put = (l1 ++ z :: l2)%list -> zone_id z = k ->
      (forall z', In z' l2 -> zone_id z' <> k) ->
      exists z', obj_get (zones st') k = Some z' /\ same_but_seek z z')
  /\ ((forall z, In z put -> zone_id z <> k) -> In k removed ->
      obj_get (zones st') k = None)
  /\ ((forall z, In z put -> zone_id z <> k) -> ~ In k removed ->
      (obj_get (zones st) k = None -> obj_get (zones st') k = None)
      /\ (forall z, obj_get (zones st) k = Some z ->
            exists z', obj_get (zones st') k = Some z'
                       /\ same_but_seek z z')).
Proof.
  intros Hplain. cbv zeta. rewrite zones_onZonesChanged, <- fold_left_app.
  assert (Hput : forall z,
             In z (default [] (zones_added changeSet)
                   ++ default [] (zones_changed changeSet))%list ->
             inherited_key (zone_id z) = false).
  { intros z Hz. unfold plain_ids, event_zone_ids in Hplain.
    rewrite Forall_forall in Hplain. apply Hplain.
    apply list_elem_of_In. rewrite app_assoc. apply in_or_app. left.
    rewrite <- map_app. apply in_map. exact Hz. }
  clear Hplain.
  set (seeks := default [] (zones_seek_changed changeSet)).
  set (put := (default [] (zones_added changeSet)
               ++ default [] (zones_changed changeSet))%list) in *.
  set (removed := default [] (zones_removed changeSet)).
  split; [|split].
  - intros l1 z l2 Hl Hk Hlast. subst k.
    apply (lookup_after_patches seeks). rewrite Hl.
    apply lookup_after_puts_last; [|exact Hlast].
    apply Hput. rewrite Hl. apply in_or_app. right. left. reflexivity.
  - intros Hno Hin. apply (lookup_after_patches seeks).
    rewrite lookup_after_puts_other by exact Hno.
    apply lookup_after_deletes. exact Hin.
  - intros Hno Hnr.
    assert (E : obj_get (fold_left put_zone put
                           (fold_left obj_delete removed (zones st))) k
                = obj_get (zones st) k).
    { rewrite lookup_after_puts_other by exact Hno.
      apply lookup_after_deletes. exact Hnr. }
    split.
    + intros Hn. apply (lookup_after_patches seeks). rewrite E. exact Hn.
    + intros z Hz. apply (lookup_after_patches seeks). rewrite E. exact Hz.
Qed.

Lemma values_after_puts (l : list Zone) (zs : JsObj Zone) (kv : string * Zone) :
  In kv (fold_left put_zone l zs) -> In kv zs \/ In kv.2 l.
Proof.
  revert zs. induction l as [|x l IH]; intros zs; simpl; [tauto|].
  intros H. destruct (IH _ H) as [H1|H1]; [|tauto].
  apply In_put_zone in H1. destruct H1 as [->|H1]; [|tauto].
  right. left. reflexivity.
Qed.

Lemma zones_onZonesSubscribed now l st :
  zones (onZonesSubscribed now l st) = fold_left put_zone l [].
Proof.
  unfold onZonesSubscribed. cbv zeta.
  rewrite selectAndActivateZone_selected, activateZone_zones. reflexivity.
Qed.

(** X9.  When neither the ids of a zone list nor the current active id
    name a member of [Object.prototype], the zone list replaces the
    registry: afterwards the registry holds, for each id of the list,
    the last zone listed under it, and nothing of what it held before.
    With an empty list the projection is idle; otherwise a zone of the
    list is active. *)
Theorem zone_list_replaces_registry (now : Z) (l : list Zone) (st : State) :
  Forall (fun z => inherited_key (zone_id z) = false) l ->
  (forall a, activeZoneId st = Some a -> inherited_key a = false) ->
  let st' := onZonesSubscribed now l st in
  (forall k, (forall z, In z l -> zone_id z <> k) ->
             obj_get (zones st') k = None)
  /\ (forall l1 z l2,
        l = (l1 ++ z :: l2)%list ->
        (forall z', In z' l2 -> zone_id z' <> zone_id z) ->
        obj_get (zones st') (zone_id z) = Some z)
  /\ (l = [] -> idle_projection st')
  /\ (l <> [] ->
      exists z, In z l /\ activeZone st' = Some z
                /\ activeZoneId st' = Some (zone_id z)).
Proof.
  intros Hplain _. rewrite Forall_forall in Hplain.
  cbv zeta. rewrite zones_onZonesSubscribed.
  split; [|split; [|split]].
  - intros k Hno. rewrite lookup_after_puts_other by exact Hno. reflexivity.
  - intros l1 z l2 -> Hlast. apply lookup_after_puts_last; [|exact Hlast].
    apply Hplain. apply list_elem_of_In.
    apply in_or_app. right. left. reflexivity.
  - intros ->. unfold onZonesSubscribed. cbv zeta.
    rewrite selectAndActivateZone_selected.
    match goal with |- context [selected ?zs ?a] =>
      rewrite (proj2 (selected_None zs a) eq_refl) end.
    apply activateZone_None_idle.
  - intros Hne. unfold onZonesSubscribed. cbv zeta.
    rewrite selectAndActivateZone_selected, activateZone_activeZone,
      activateZone_activeZoneId.
    change (zones (set_zones ?zs st)) with zs.
    change (fold_left (fun acc zone => obj_assign acc (zone_id zone) zone) l [])
      with (fold_left put_zone l []).
    destruct (selected (fold_left put_zone l []) _) as [z|] eqn:Es.
    + exists z. split; [|split; reflexivity].
      apply selected_in_registry in Es. unfold in_registry in Es.
      apply in_map_iff in Es. destruct Es as ([k z'] & Hz & Hin).
      simpl in Hz. subst z'.
      apply values_after_puts in Hin. destruct Hin as [[]|Hin]. exact Hin.
    + exfalso. apply selected_None in Es.
      destruct (exists_last Hne) as (l1 & z & E). subst l.
      assert (Hk : inherited_key (zone_id z) = false).
      { apply Hplain. apply list_elem_of_In.
        apply in_or_app. right. left. reflexivity. }
      pose proof (lookup_after_puts_last l1 [] z [] Hk) as Hl.
      rewrite Es in Hl. simpl in Hl.
      assert (H : @None Zone = Some z) by (apply Hl; intros z' []).
      discriminate H.
Qed.

(** ** Registry and selection in the reachable states *)

(** The active id is the id of the active zone and is a key of the
    registry. *)
Definition selection_in_registry (st : State) : Prop :=
  activeZoneId st = option_map zone_id (activeZone st)
  /\ forall a, activeZoneId st = Some a -> is_Some (obj_get (zones st) a).

Definition registry_inv (st : State) : Prop :=
  registry_keyed (zones st) /\ selection_in_registry st.

Lemma is_Some_obj_set {V} (o : JsObj V) (k a : string) (v : V) :
  is_Some (obj_get o a) -> is_Some (obj_get (obj_set o k v) a).
Proof.
  intros H. destruct (string_dec k a) as [->|Hne].
  - rewrite obj_get_set_eq. eauto.
  - rewrite obj_get_set_ne by exact Hne. exact H.
Qed.

Lemma is_Some_put_zone zs zone a :
  is_Some (obj_get zs a) -> is_Some (obj_get (put_zone zs zone) a).
Proof.
  intros H. unfold put_zone, obj_assign.
  destruct (String.eqb (zone_id zone) "__proto__"); [exact H|].
  apply is_Some_obj_set. exact H.
Qed.

Lemma is_active_id_true id a :
  is_active_id id a = true -> a = Some id.
Proof.
  unfold is_active_id. destruct a as [a|]; [|discriminate].
  intros E. apply String.eqb_eq in E. congruence.
Qed.

Lemma is_Some_patch_seek zs seekUpdate a :
  is_Some (obj_get zs a) -> is_Some (obj_get (patch_seek zs seekUpdate) a).
Proof.
  intros H. unfold patch_seek.
  destruct (obj_get zs (su_zone_id seekUpdate)); [|exact H].
  apply is_Some_obj_set. exact H.
Qed.

Lemma registry_inv_same st st' :
  zones st' = zones st -> activeZoneId st' = activeZoneId st ->
  activeZone st' = activeZone st ->
  registry_inv st -> registry_inv st'.
Proof.
  unfold registry_inv, selection_in_registry. intros -> -> ->. tauto.
Qed.

Lemma registry_inv_activate now z st :
  registry_keyed (zones st) ->
  (forall zone, z = Some zone -> is_Some (obj_get (zones st) (zone_id zone))) ->
  registry_inv (activateZone now z st).
Proof.
  intros Hk Hz. unfold registry_inv, selection_in_registry.
  rewrite activateZone_zones, activateZone_activeZoneId,
    activateZone_activeZone.
  split; [exact Hk|]. split; [reflexivity|].
  intros a Ha. destruct z as [zone|]; [|discriminate].
  injection Ha as <-. apply Hz. reflexivity.
Qed.

Lemma registry_inv_select now st :
  registry_keyed (zones st) -> registry_inv (selectAndActivateZone now st).
Proof.
  intros Hk. rewrite selectAndActivateZone_selected.
  apply registry_inv_activate; [exact Hk|].
  intros zone Hs. apply selected_in_registry in Hs.
  unfold in_registry in Hs. apply in_map_iff in Hs.
  destruct Hs as ([k z'] & Hz & Hin). simpl in Hz. subst z'.
  rewrite (proj2 Hk _ _ Hin). eapply In_obj_get. exact Hin.
Qed.

Lemma registry_inv_zone_removed now st id :
  registry_inv st -> registry_inv (zone_removed now st id).
Proof.
  intros [Hk [Hc Hin]]. unfold zone_removed. cbv zeta.
  change (activeZoneId (set_zones (obj_delete (zones st) id) st))
    with (activeZoneId st).
  destruct (is_active_id id (activeZoneId st)) eqn:E.
  - apply registry_inv_activate; [|discriminate].
    apply registry_keyed_delete. exact Hk.
  - split; [apply registry_keyed_delete; exact Hk|].
    split; [exact Hc|]. intros a Ha.
    change (is_Some (obj_get (obj_delete (zones st) id) a)).
    rewrite obj_get_delete. unfold is_active_id in E.
    change (activeZoneId (set_zones (obj_delete (zones st) id) st))
      with (activeZoneId st) in Ha.
    rewrite Ha in E. rewrite E. apply Hin. exact Ha.
Qed.

Lemma registry_inv_zone_added st zone :
  registry_inv st -> registry_inv (zone_added st zone).
Proof.
  intros [Hk [Hc Hin]]. split; [apply registry_keyed_put; exact Hk|].
  split; [exact Hc|]. intros a Ha.
  change (is_Some (obj_get (put_zone (zones st) zone) a)).
  apply is_Some_put_zone. apply Hin. exact Ha.
Qed.

Lemma registry_inv_zone_changed now st zone :
  registry_inv st -> registry_inv (zone_changed now st zone).
Proof.
  intros H. unfold zone_changed. cbv zeta.
  change (activeZoneId (set_zones (obj_assign (zones st) (zone_id zone) zone) st))
    with (activeZoneId st).
  destruct (is_active_id (zone_id zone) (activeZoneId st)) eqn:Ea.
  - apply registry_inv_activate.
    + apply (registry_keyed_put (zones st) zone). apply H.
    + intros z E. injection E as <-.
      change (is_Some (obj_get (put_zone (zones st) zone) (zone_id zone))).
      apply is_Some_put_zone. apply (proj2 (proj2 H)).
      apply is_active_id_true. exact Ea.
  - apply (registry_inv_zone_added st zone H).
Qed.

Lemma registry_inv_zone_seek_changed now st seekUpdate :
  registry_inv st -> registry_inv (zone_seek_changed now st seekUpdate).
Proof.
  intros [Hk [Hc Hin]].
  destruct (zone_seek_changed_kept now st seekUpdate)
    as (_ & _ & _ & Ha & Hz & _ & _).
  unfold registry_inv, selection_in_registry.
  rewrite zones_zone_seek_changed, Ha, Hz.
  split; [apply registry_keyed_patch; exact Hk|].
  split; [exact Hc|]. intros a Hact.
  apply is_Some_patch_seek. apply Hin. exact Hact.
Qed.

Lemma registry_inv_onZonesChanged now changeSet st :
  registry_inv st -> registry_inv (onZonesChanged now changeSet st).
Proof.
  intros H0. unfold onZonesChanged. cbv zeta.
  match goal with |- registry_inv (if _ then _ else ?s) => set (st4 := s) end.
  assert (H4 : registry_inv st4).
  { subst st4.
    assert (H1 : registry_inv
                   match zones_removed changeSet with
                   | Some l => fold_left (zone_removed now) l st
                   | None => st
                   end).
    { destruct (zones_removed changeSet); [|exact H0].
      apply fold_left_invariant; [|exact H0].
      intros s x _. apply registry_inv_zone_removed. }
    revert H1. generalize (match zones_removed changeSet with
                           | Some l => fold_left (zone_removed now) l st
                           | None => st
                           end). intros st1 H1.
    assert (H2 : registry_inv
                   match zones_added changeSet with
                   | Some l => fold_left zone_added l st1
                   | None => st1
                   end).
    { destruct (zones_added changeSet); [|exact H1].
      apply fold_left_invariant; [|exact H1].
      intros s x _. apply registry_inv_zone_added. }
    revert H2. generalize (match zones_added changeSet with
                           | Some l => fold_left zone_added l st1
                           | None => st1
                           end). intros st2 H2.
    assert (H3 : registry_inv
                   match zones_changed changeSet with
                   | Some l => fold_left (zone_changed now) l st2
                   | None => st2
                   end).
    { destruct (zones_changed changeSet); [|exact H2].
      apply fold_left_invariant; [|exact H2].
      intros s x _. apply registry_inv_zone_changed. }
    revert H3. generalize (match zones_changed changeSet with
                           | Some l => fold_left (zone_changed now) l st2
                           | None => st2
                           end). intros st3 H3.
    destruct (zones_seek_changed changeSet); [|exact H3].
    apply fold_left_invariant; [|exact H3].
    intros s x _. apply registry_inv_zone_seek_changed. }
  clearbody st4. destruct (negb _); [|exact H4].
  apply registry_inv_select. apply H4.
Qed.

Lemma registry_keyed_nil : registry_keyed [].
Proof. split; [apply NoDup_nil_2|]. intros k z []. Qed.

Lemma registry_keyed_puts l zs :
  registry_keyed zs -> registry_keyed (fold_left put_zone l zs).
Proof.
  revert zs. induction l as [|x l IH]; intros zs H; [exact H|].
  simpl. apply IH. apply registry_keyed_put. exact H.
Qed.

Lemma registry_inv_ensure now st :
  registry_inv st -> registry_inv (ensureActiveZone now st).1.
Proof.
  intros H. unfold ensureActiveZone.
  destruct (activeZone st); [exact H|].
  cbv zeta. simpl fst. apply registry_inv_select. apply H.
Qed.

Lemma registry_inv_setStatus m e st :
  registry_inv st -> registry_inv (setStatus m e st).
Proof. intros H. exact H. Qed.

Lemma registry_inv_handle now ev st st' :
  registry_inv st -> handle now ev st = Returned st' -> registry_inv st'.
Proof.
  intros H.
  destruct ev as [core|core|msg|verb|offset|event|i reply];
    cbv beta iota delta [handle].
  - intros E. injection E as <-. exact H.
  - intros E. injection E as <-. unfold onCoreUnpaired. cbv zeta.
    apply registry_inv_setStatus.
    apply registry_inv_activate; [apply registry_keyed_nil|discriminate].
  - intros E. injection E as <-.
    destruct msg as [zs|changeSet| |command];
      cbv beta iota delta [on_zones_message].
    + unfold onZonesSubscribed. cbv zeta. apply registry_inv_select.
      apply (registry_keyed_puts (default [] zs) []), registry_keyed_nil.
    + apply registry_inv_onZonesChanged. exact H.
    + apply registry_inv_activate; [apply registry_keyed_nil|discriminate].
    + exact H.
  - intros E. injection E as <-. unfold sendTransportCommand.
    pose proof (registry_inv_ensure now st H) as H1.
    destruct (ensureActiveZone now st) as [st1 zone]. simpl in H1.
    destruct zone; [|exact H1]. destruct (transport st1); exact H1.
  - unfold on_seek.
    pose proof (registry_inv_ensure now st H) as H1.
    destruct (ensureActiveZone now st) as [st1 zone]. simpl in H1.
    destruct zone; [|intros E; injection E as <-; exact H1].
    unfold transport_seek. destruct (transport st1); [|discriminate].
    intros E. injection E as <-. exact H1.
  - unfold on_position.
    pose proof (registry_inv_ensure now st H) as H1.
    destruct (ensureActiveZone now st) as [st1 zone]. simpl in H1.
    destruct zone; [|intros E; injection E as <-; exact H1].
    destruct (_ && _); [intros E; injection E as <-; exact H1|].
    unfold transport_seek. destruct (transport st1); [|discriminate].
    intros E. injection E as <-. exact H1.
  - intros E. injection E as <-.
    destruct (on_art_settled_same i reply st) as (Hk & _).
    apply kept_fields in Hk.
    destruct Hk as (_ & _ & _ & Hz & Hid & Haz & _).
    revert H. apply registry_inv_same; assumption.
Qed.

Lemma reachable_registry_inv st : reachable st -> registry_inv st.
Proof.
  induction 1 as [now existing|now ev st st' Hr IH Hh].
  - split; [apply registry_keyed_nil|]. split; [reflexivity|discriminate].
  - eapply registry_inv_handle; eassumption.
Qed.

(** X10.  In every reachable state the registry holds at most one zone
    per id, and the zone found under an id carries that id. *)
Theorem registry_one_zone_per_id (st : State) :
  reachable st ->
  NoDup (map fst (zones st))
  /\ (forall k z, obj_get (zones st) k = Some z -> zone_id z = k)
  /\ (forall z, in_registry z (zones st) ->
                obj_get (zones st) (zone_id z) = Some z).
Proof.
  intros Hr. destruct (reachable_registry_inv st Hr) as [Hk _].
  split; [apply Hk|]. split.
  - intros k z Hg. apply (proj2 Hk). apply obj_get_In_pair. exact Hg.
  - intros z Hin. unfold in_registry in Hin. apply in_map_iff in Hin.
    destruct Hin as ([k z'] & Hz & Hin). simpl in Hz. subst z'.
    rewrite (proj2 Hk _ _ Hin). apply registry_keyed_lookup; assumption.
Qed.

(** X11.  In every state that the bridge reaches through events whose
    zone ids name no member of [Object.prototype], the selection is
    consistent: the active id is the id of the active zone, that id is a
    key of the registry, and no zone is active exactly when the registry
    is empty. *)
Theorem selection_consistent (st : State) :
  reachable_plain st ->
  activeZoneId st = option_map zone_id (activeZone st)
  /\ (forall zone, activeZone st = Some zone ->
        is_Some (obj_get (zones st) (zone_id zone)))
  /\ (activeZone st = None <-> zones st = []).
Proof.
  intros Hp. pose proof (reachable_plain_reachable st Hp) as Hr. clear Hp.
  destruct (reachable_registry_inv st Hr) as [_ [Hc Hin]].
  split; [exact Hc|]. split.
  - intros zone Hz. apply Hin. rewrite Hc, Hz. reflexivity.
  - split; [apply reachable_registry; exact Hr|].
    intros Hz. destruct (activeZone st) as [zone|] eqn:E; [|reflexivity].
    exfalso. destruct (Hin (zone_id zone)) as [z' Hz'].
    + rewrite Hc. reflexivity.
    + rewrite Hz in Hz'. discriminate.
Qed.

(** ** The projection in the reachable states *)

Definition status_valid (s : string) : Prop :=
  s = "Playing" \/ s = "Paused" \/ s = "Stopped".

Definition loop_valid (s : string) : Prop :=
  s = "None" \/ s = "Track" \/ s = "Playlist".

(** The track id the selection calls for. *)
Definition selection_trackid (active : option string) : string :=
  match active with
  | Some a => objectPath ("zone/" +:+ a)
  | None => objectPath DEFAULT_TRACK_ID_SUFFIX
  end.

(** The projection agrees with the selection: the track id is the one of
    the active id, the statuses are values of the control surface, an
    active zone makes the surface controllable, and with no active id
    the idle projection shows, whatever art URL came late. *)
Definition projection_inv (st : State) : Prop :=
  let p := player st in
  mpris_trackid (metadata p) = selection_trackid (activeZoneId st)
  /\ status_valid (playbackStatus p) /\ loop_valid (loopStatus p)
  /\ (is_Some (activeZoneId st) -> canControl p = true)
  /\ (activeZoneId st = None ->
      xesam_title (metadata p) = "Roon" /\ xesam_album (metadata p) = "—"
      /\ xesam_artist (metadata p) = ["—"] /\ mpris_length (metadata p) = None
      /\ playbackStatus p = "Stopped" /\ canPlay p = false
      /\ canPause p = false /\ canSeek p = false /\ canGoNext p = false
      /\ canGoPrevious p = false /\ shuffle p = false
      /\ loopStatus p = "None").

Lemma mapPlaybackStatus_valid (s : option string) :
  status_valid (mapPlaybackStatus s).
Proof.
  unfold mapPlaybackStatus, status_valid. cbv zeta.
  destruct (String.eqb _ "playing"); [tauto|].
  destruct (String.eqb _ "paused"); [tauto|].
  destruct (String.eqb _ "loading"); tauto.
Qed.

Lemma mapLoopStatus_valid (s : option string) : loop_valid (mapLoopStatus s).
Proof.
  unfold mapLoopStatus, loop_valid. cbv zeta.
  destruct (String.eqb _ "loop_one"); [tauto|].
  destruct (String.eqb _ "loop"); tauto.
Qed.

Lemma projection_inv_same st st' :
  player st' = player st -> activeZoneId st' = activeZoneId st ->
  projection_inv st -> projection_inv st'.
Proof. unfold projection_inv. cbv zeta. intros -> ->. tauto. Qed.

Lemma activateZone_None_player now st :
  player (activateZone now None st)
  = {| metadata := idle_metadata; playbackStatus := "Stopped";
       canControl := bool_decide (is_Some (transport st));
       canPlay := false; canPause := false; canSeek := false;
       canGoNext := false; canGoPrevious := false;
       shuffle := false; loopStatus := "None" |}.
Proof. unfold activateZone. destruct (activeCore _); reflexivity. Qed.

Lemma projection_inv_activate now z st :
  projection_inv (activateZone now z st).
Proof.
  unfold projection_inv. cbv zeta. rewrite activateZone_activeZoneId.
  destruct z as [zone|].
  - rewrite activateZone_Some_player.
    split; [reflexivity|].
    split; [apply mapPlaybackStatus_valid|].
    split; [|split; [reflexivity|discriminate]].
    change (loop_valid match settings zone with
                       | Some s => mapLoopStatus (settings_loop s)
                       | None => "None"
                       end).
    destruct (settings zone); [apply mapLoopStatus_valid|left; reflexivity].
  - rewrite activateZone_None_player.
    split; [reflexivity|].
    split; [right; right; reflexivity|].
    split; [left; reflexivity|].
    split; [intros [x Hx]; discriminate|].
    intros _. repeat split; reflexivity.
Qed.

Lemma projection_inv_zone_removed now st id :
  projection_inv st -> projection_inv (zone_removed now st id).
Proof.
  intros H. unfold zone_removed. cbv zeta.
  destruct (is_active_id _ _); [apply projection_inv_activate|exact H].
Qed.

Lemma projection_inv_zone_changed now st zone :
  projection_inv st -> projection_inv (zone_changed now st zone).
Proof.
  intros H. unfold zone_changed. cbv zeta.
  destruct (is_active_id _ _); [apply projection_inv_activate|exact H].
Qed.

Lemma projection_inv_zone_seek_changed now st seekUpdate :
  projection_inv st -> projection_inv (zone_seek_changed now st seekUpdate).
Proof.
  destruct (zone_seek_changed_kept now st seekUpdate)
    as (_ & _ & _ & Ha & _ & _ & Hp).
  apply projection_inv_same; assumption.
Qed.

Lemma projection_inv_onZonesChanged now changeSet st :
  projection_inv st -> projection_inv (onZonesChanged now changeSet st).
Proof.
  intros H0. unfold onZonesChanged. cbv zeta.
  match goal with |- projection_inv (if _ then _ else ?s) =>
    set (st4 := s) end.
  assert (H4 : projection_inv st4).
  { subst st4.
    assert (H1 : projection_inv
                   match zones_removed changeSet with
                   | Some l => fold_left (zone_removed now) l st
                   | None => st
                   end).
    { destruct (zones_removed changeSet); [|exact H0].
      apply fold_left_invariant; [|exact H0].
      intros s x _. apply projection_inv_zone_removed. }
    revert H1. generalize (match zones_removed changeSet with
                           | Some l => fold_left (zone_removed now) l st
                           | None => st
                           end). intros st1 H1.
    assert (H2 : projection_inv
                   match zones_added changeSet with
                   | Some l => fold_left zone_added l st1
                   | None => st1
                   end).
    { destruct (zones_added changeSet); [|exact H1].
      apply fold_left_invariant; [|exact H1].
      intros s x _ Hs. exact Hs. }
    revert H2. generalize (match zones_added changeSet with
                           | Some l => fold_left zone_added l st1
                           | None => st1
                           end). intros st2 H2.
    assert (H3 : projection_inv
                   match zones_changed changeSet with
                   | Some l => fold_left (zone_changed now) l st2
                   | None => st2
                   end).
    { destruct (zones_changed changeSet); [|exact H2].
      apply fold_left_invariant; [|exact H2].
      intros s x _. apply projection_inv_zone_changed. }
    revert H3. generalize (match zones_changed changeSet with
                           | Some l => fold_left (zone_changed now) l st2
                           | None => st2
                           end). intros st3 H3.
    destruct (zones_seek_changed changeSet); [|exact H3].
    apply fold_left_invariant; [|exact H3].
    intros s x _. apply projection_inv_zone_seek_changed. }
  clearbody st4. destruct (negb _); [|exact H4].
  rewrite selectAndActivateZone_selected. apply projection_inv_activate.
Qed.

Lemma projection_inv_ensure now st :
  projection_inv st -> projection_inv (ensureActiveZone now st).1.
Proof.
  intros H. unfold ensureActiveZone.
  destruct (activeZone st); [exact H|].
  cbv zeta. simpl fst. rewrite selectAndActivateZone_selected.
  apply projection_inv_activate.
Qed.

Lemma projection_inv_setStatus m e st :
  projection_inv st -> projection_inv (setStatus m e st).
Proof. intros H. exact H. Qed.

Lemma projection_inv_art_url url st :
  projection_inv st -> projection_inv (apply_art_url url st).
Proof.
  intros H. unfold apply_art_url. destruct (negb _); exact H.
Qed.

Lemma projection_inv_set_art m fs jobs reqs st :
  projection_inv st -> projection_inv (set_art m fs jobs reqs st).
Proof. intros H. exact H. Qed.

Lemma projection_inv_art_settled i reply st :
  projection_inv st -> projection_inv (on_art_settled i reply st).
Proof.
  intros H. unfold on_art_settled.
  destruct (artJobs st !! i) as [job|]; [|exact H].
  unfold settle_art. destruct job as [url|key].
  - apply projection_inv_art_url, projection_inv_set_art. exact H.
  - destruct reply as [|ct written];
      [apply projection_inv_set_art; exact H|].
    cbv zeta. destruct written; [|apply projection_inv_set_art; exact H].
    apply projection_inv_art_url.
    apply projection_inv_set_art, projection_inv_set_art. exact H.
Qed.

Lemma projection_inv_handle now ev st st' :
  projection_inv st -> handle now ev st = Returned st' -> projection_inv st'.
Proof.
  intros H.
  destruct ev as [core|core|msg|verb|offset|event|i reply];
    cbv beta iota delta [handle].
  - intros E. injection E as <-. exact H.
  - intros E. injection E as <-. unfold onCoreUnpaired. cbv zeta.
    apply projection_inv_setStatus, projection_inv_activate.
  - intros E. injection E as <-.
    destruct msg as [zs|changeSet| |command];
      cbv beta iota delta [on_zones_message].
    + unfold onZonesSubscribed. cbv zeta.
      rewrite selectAndActivateZone_selected. apply projection_inv_activate.
    + apply projection_inv_onZonesChanged. exact H.
    + apply projection_inv_activate.
    + exact H.
  - intros E. injection E as <-. unfold sendTransportCommand.
    pose proof (projection_inv_ensure now st H) as H1.
    destruct (ensureActiveZone now st) as [st1 zone]. simpl in H1.
    destruct zone; [|exact H1]. destruct (transport st1); exact H1.
  - unfold on_seek.
    pose proof (projection_inv_ensure now st H) as H1.
    destruct (ensureActiveZone now st) as [st1 zone]. simpl in H1.
    destruct zone; [|intros E; injection E as <-; exact H1].
    unfold transport_seek. destruct (transport st1); [|discriminate].
    intros E. injection E as <-. exact H1.
  - unfold on_position.
    pose proof (projection_inv_ensure now st H) as H1.
    destruct (ensureActiveZone now st) as [st1 zone]. simpl in H1.
    destruct zone; [|intros E; injection E as <-; exact H1].
    destruct (_ && _); [intros E; injection E as <-; exact H1|].
    unfold transport_seek. destruct (transport st1); [|discriminate].
    intros E. injection E as <-. exact H1.
  - intros E. injection E as <-. apply projection_inv_art_settled. exact H.
Qed.

Lemma reachable_projection_inv st : reachable st -> projection_inv st.
Proof.
  induction 1 as [now existing|now ev st st' Hr IH Hh].
  - unfold projection_inv. cbv zeta.
    split; [reflexivity|]. split; [right; right; reflexivity|].
    split; [left; reflexivity|]. split; [intros [x Hx]; discriminate|].
    intros _. repeat split; reflexivity.
  - eapply projection_inv_handle; eassumption.
Qed.

(** X12.  In every reachable state the projected track id tells the
    selection: it is the id derived from the active zone id while a zone
    is active and the idle default id while none is, and with no active
    zone the whole idle projection shows (title Roon, placeholders,
    Stopped, every control but canControl disabled), except for an art
    URL that arrived late. *)
Theorem track_id_tells_selection (st : State) :
  reachable st ->
  (forall zone, activeZone st = Some zone ->
     mpris_trackid (metadata (player st))
     = objectPath ("zone/" +:+ zone_id zone)
     /\ canControl (player st) = true)
  /\ (activeZone st = None ->
      mpris_trackid (metadata (player st)) = objectPath DEFAULT_TRACK_ID_SUFFIX
      /\ xesam_title (metadata (player st)) = "Roon"
      /\ xesam_album (metadata (player st)) = "—"
      /\ xesam_artist (metadata (player st)) = ["—"]
      /\ mpris_length (metadata (player st)) = None
      /\ playbackStatus (player st) = "Stopped"
      /\ canPlay (player st) = false /\ canPause (player st) = false
      /\ canSeek (player st) = false /\ canGoNext (player st) = false
      /\ canGoPrevious (player st) = false).
Proof.
  intros Hr. pose proof (reachable_projection_inv st Hr) as H.
  unfold projection_inv in H. cbv zeta in H.
  destruct H as (Ht & _ & _ & Hc & Hi).
  destruct (reachable_registry_inv st Hr) as [_ [Hs _]].
  split.
  - intros zone Hz. rewrite Hz in Hs. simpl in Hs. rewrite Hs in *.
    split; [exact Ht|]. apply Hc. eexists. reflexivity.
  - intros Hz. rewrite Hz in Hs. simpl in Hs. rewrite Hs in Ht.
    destruct (Hi Hs) as (H1 & H2 & H3 & H4 & H5 & H6 & H7 & H8 & H9 & H10 & _).
    repeat split; assumption.
Qed.

(** X13.  In every reachable state the playback status is Playing,
    Paused or Stopped and the loop status is None, Track or Playlist,
    whatever state and loop strings the zones carried. *)
Theorem statuses_always_valid (st : State) :
  reachable st ->
  status_valid (playbackStatus (player st))
  /\ loop_valid (loopStatus (player st)).
Proof.
  intros Hr. pose proof (reachable_projection_inv st Hr) as H.
  unfold projection_inv in H. cbv zeta in H. tauto.
Qed.

(** ** The art cache *)

Lemma string_length_append (a b : string) :
  String.length (a +:+ b) = (String.length a + String.length b)%nat.
Proof. induction a as [|c a IH]; simpl; [reflexivity|f_equal; exact IH]. Qed.

Lemma string_append_assoc (a b c : string) : (a +:+ b) +:+ c = a +:+ (b +:+ c).
Proof.
  induction a as [|x a IH]; [reflexivity|].
  change (String x ((a +:+ b) +:+ c) = String x (a +:+ (b +:+ c))).
  rewrite IH. reflexivity.
Qed.

Lemma substring_after (a b : string) (m : nat) :
  substring (String.length a) m (a +:+ b) = substring 0 m b.
Proof. induction a as [|c a IH]; simpl; [reflexivity|exact IH]. Qed.

Lemma substring_before (a b : string) :
  substring 0 (String.length a) (a +:+ b) = a.
Proof.
  induction a as [|c a IH]; simpl.
  - destruct b; reflexivity.
  - f_equal. exact IH.
Qed.

Lemma strip_image_ext_jpg (x : string) : strip_image_ext (x +:+ ".jpg") = x.
Proof.
  unfold strip_image_ext. cbv zeta. rewrite string_length_append.
  change (String.length ".jpg") with 4%nat.
  replace (String.length x + 4 - 4)%nat with (String.length x) by lia.
  replace (4 <=? String.length x + 4)%nat with true
    by (symmetry; apply Nat.leb_le; lia).
  rewrite substring_after, substring_before. reflexivity.
Qed.

Lemma safe_char_safe (c : ascii) : safe_char (safe_char c) = safe_char c.
Proof.
  unfold safe_char at 2. cbv zeta.
  destruct (_ || _)%bool eqn:E; [reflexivity|].
  unfold safe_char at 2. cbv zeta. rewrite E. reflexivity.
Qed.

Lemma safe_char_not_slash (c : ascii) : safe_char c <> "/"%char.
Proof.
  unfold safe_char. cbv zeta.
  destruct (_ || _)%bool eqn:E; [|discriminate].
  intros ->. vm_compute in E. discriminate.
Qed.

Lemma targetBase_eq (imageKey : string) :
  targetBase imageKey = path_join artCacheDir (sanitize imageKey).
Proof.
  unfold targetBase, keyToFilename, path_join.
  rewrite <- !string_append_assoc. apply strip_image_ext_jpg.
Qed.

(** The characters of a string. *)
Fixpoint chars (s : string) : list ascii :=
  match s with
  | EmptyString => []
  | String c s' => c :: chars s'
  end.

(** X14.  The file of an image key lies directly in the cache
    directory, under the sanitized key: sanitizing keeps the length of
    the key, leaves no path separator in it and changes nothing when
    applied again, and the [.jpg] that [keyToFilename] appends is the
    extension [resolveArtFile] strips to form the base path. *)
Theorem art_file_in_cache_dir (imageKey : string) :
  targetBase imageKey = artCacheDir +:+ "/" +:+ sanitize imageKey
  /\ String.length (sanitize imageKey) = String.length imageKey
  /\ ~ In "/"%char (chars (sanitize imageKey))
  /\ sanitize (sanitize imageKey) = sanitize imageKey.
Proof.
  split; [apply targetBase_eq|].
  induction imageKey as [|c k (IH1 & IH2 & IH3)]; simpl.
  - split; [reflexivity|]. split; [tauto|reflexivity].
  - split; [rewrite IH1; reflexivity|]. split.
    + intros [H|H]; [exact (safe_char_not_slash c H)|exact (IH2 H)].
    + rewrite safe_char_safe, IH3. reflexivity.
Qed.

Lemma append_nonempty (a b : string) : b <> EmptyString -> a +:+ b <> EmptyString.
Proof. intros H. destruct a; simpl; [exact H|discriminate]. Qed.

(** X15.  When the image arrives and is written, the key is resolved to
    a file that exists, the PNG of the key if there is one and its JPEG
    otherwise; the art URL of that file is added to the metadata the
    player has at that moment, whose other fields stay; and a later
    resolve call for the key issues no fetch.  When the image service
    fails or the write fails, nothing is recorded. *)
Theorem art_reply_settles (imageKey contentType : string) (st : State) :
  let st' := settle_art (art_fetch imageKey) (image_body contentType true) st in
  (exists path,
      keyToFilePath st' !! imageKey = Some path
      /\ path ∈ files st' /\ path <> EmptyString
      /\ (path = targetBase imageKey +:+ ".png"
          \/ (path = targetBase imageKey +:+ ".jpg"
              /\ targetBase imageKey +:+ ".png" ∉ files st'))
      /\ mpris_artUrl (metadata (player st')) = Some ("file://" +:+ path))
  /\ mpris_trackid (metadata (player st'))
     = mpris_trackid (metadata (player st))
  /\ xesam_title (metadata (player st')) = xesam_title (metadata (player st))
  /\ xesam_artist (metadata (player st')) = xesam_artist (metadata (player st))
  /\ xesam_album (metadata (player st')) = xesam_album (metadata (player st))
  /\ mpris_length (metadata (player st')) = mpris_length (metadata (player st))
  /\ (is_Some (imageSvc st) -> imageKey <> EmptyString ->
      imageRequests (resolveArtFile imageKey st') = imageRequests st)
  /\ settle_art (art_fetch imageKey) image_error st = st
  /\ settle_art (art_fetch imageKey) (image_body contentType false) st = st.
Proof.
  cbv zeta. unfold settle_art. cbv zeta.
  set (base := targetBase imageKey).
  set (ext1 := if includes "png" (ascii_toLowerCase contentType)
               then "png" else "jpg").
  set (fs := files st ∪ {[ base +:+ "." +:+ ext1 ]}).
  set (ext2 := if bool_decide (base +:+ ".png" ∈ fs) then "png" else "jpg").
  assert (Hin : base +:+ "." +:+ ext2 ∈ fs
                /\ (ext2 = "png" \/ (ext2 = "jpg" /\ base +:+ ".png" ∉ fs))).
  { subst ext2. destruct (bool_decide (base +:+ ".png" ∈ fs)) eqn:E.
    - apply bool_decide_eq_true in E. split; [exact E|left; reflexivity].
    - apply bool_decide_eq_false in E. split; [|right; split; [reflexivity|exact E]].
      subst fs. apply elem_of_union_r, elem_of_singleton.
      subst ext1. destruct (includes "png" (ascii_toLowerCase contentType));
        [|reflexivity].
      exfalso. apply E. apply elem_of_union_r, elem_of_singleton. reflexivity. }
  clearbody ext2. destruct Hin as [Hin Hext].
  unfold apply_art_url.
  change (truthy_string ("file://" +:+ ?x)) with true. cbv beta iota delta [negb].
  split; [|split; [reflexivity|split; [reflexivity|split; [reflexivity|
    split; [reflexivity|split; [reflexivity|split;
      [|split; reflexivity]]]]]]].
  - exists (base +:+ "." +:+ ext2).
    split; [apply lookup_insert_eq|]. split; [exact Hin|].
    split; [apply append_nonempty, append_nonempty;
            destruct Hext as [->|[-> _]]; discriminate|].
    split; [|reflexivity].
    destruct Hext as [->|[-> Hn]]; [left; reflexivity|right].
    split; [reflexivity|exact Hn].
  - intros Hsvc Hkey. unfold resolveArtFile.
    match goal with |- context [imageSvc ?s] =>
      change (imageSvc s) with (imageSvc st) end.
    rewrite (bool_decide_eq_true_2 _ Hsvc).
    rewrite (proj2 (truthy_string_true _) Hkey).
    cbv beta iota delta [negb orb].
    match goal with |- context [keyToFilePath ?s !! imageKey] =>
      change (keyToFilePath s)
        with (<[imageKey := base +:+ "." +:+ ext2]> (keyToFilePath st));
      change (files s) with fs end.
    rewrite lookup_insert_eq.
    replace (truthy_string (base +:+ "." +:+ ext2)) with true.
    + rewrite (bool_decide_eq_true_2 _ Hin). reflexivity.
    + symmetry. apply truthy_string_true, append_nonempty, append_nonempty.
      destruct Hext as [->|[-> _]]; discriminate.
Qed.

(** ** What each event sends out *)

Lemma fold_left_calls {A} (f : State -> A -> State) (l : list A) st :
  (forall s x, transportCalls (f s x) = transportCalls s
               /\ seekedSignals (f s x) = seekedSignals s) ->
  transportCalls (fold_left f l st) = transportCalls st
  /\ seekedSignals (fold_left f l st) = seekedSignals st.
Proof.
  intros Hf.
  apply (fold_left_invariant
           (fun s => transportCalls s = transportCalls st
                     /\ seekedSignals s = seekedSignals st));
    [|split; reflexivity].
  intros s x _ [H1 H2]. destruct (Hf s x) as [-> ->]. split; assumption.
Qed.

Lemma setStatus_outputs m e st :
  transportCalls (setStatus m e st) = transportCalls st
  /\ seekedSignals (setStatus m e st) = seekedSignals st.
Proof. split; reflexivity. Qed.

Lemma activateZone_outputs now z st :
  transportCalls (activateZone now z st) = transportCalls st
  /\ seekedSignals (activateZone now z st) = seekedSignals st.
Proof. split; apply activateZone_fields. Qed.

Lemma selectAndActivateZone_outputs now st :
  transportCalls (selectAndActivateZone now st) = transportCalls st
  /\ seekedSignals (selectAndActivateZone now st) = seekedSignals st.
Proof. rewrite selectAndActivateZone_selected. apply activateZone_outputs. Qed.

Lemma zone_removed_outputs now st id :
  transportCalls (zone_removed now st id) = transportCalls st
  /\ seekedSignals (zone_removed now st id) = seekedSignals st.
Proof.
  unfold zone_removed. cbv zeta.
  destruct (is_active_id _ _); [|split; reflexivity].
  match goal with |- context [activateZone now ?z ?s] =>
    destruct (activateZone_outputs now z s) as [-> ->] end.
  split; reflexivity.
Qed.

Lemma zone_changed_outputs now st zone :
  transportCalls (zone_changed now st zone) = transportCalls st
  /\ seekedSignals (zone_changed now st zone) = seekedSignals st.
Proof.
  unfold zone_changed. cbv zeta.
  destruct (is_active_id _ _); [|split; reflexivity].
  match goal with |- context [activateZone now ?z ?s] =>
    destruct (activateZone_outputs now z s) as [-> ->] end.
  split; reflexivity.
Qed.

Lemma zone_seek_changed_signal now st seekUpdate :
  seekedSignals (zone_seek_changed now st seekUpdate)
  = if bool_decide (is_Some (obj_get (zones st) (su_zone_id seekUpdate)))
       && is_active_id (su_zone_id seekUpdate) (activeZoneId st)
    then (seekedSignals st
          ++ [Math_floor
                (num_mul (or_zero (su_seek_position seekUpdate))
                   (Finite 1000000))])%list
    else seekedSignals st.
Proof.
  unfold zone_seek_changed.
  destruct (obj_get (zones st) (su_zone_id seekUpdate)) as [zone|];
    [|reflexivity].
  cbv zeta.
  change (activeZoneId (set_zones ?zs st)) with (activeZoneId st).
  destruct (is_active_id (su_zone_id seekUpdate) (activeZoneId st));
    [|reflexivity].
  unfold updateSeekState.
  destruct (normaliseNumber (seek_position _)); reflexivity.
Qed.

Lemma seek_loop_signals now l st :
  exists signals,
    seekedSignals (fold_left (zone_seek_changed now) l st)
    = (seekedSignals st ++ signals)%list
    /\ (length signals <= length l)%nat.
Proof.
  revert st. induction l as [|x l IH]; intros st.
  - exists []. split; [symmetry; apply app_nil_r|reflexivity].
  - simpl fold_left. destruct (IH (zone_seek_changed now st x)) as (s & -> & Hs).
    rewrite zone_seek_changed_signal.
    destruct (_ && _).
    + exists (Math_floor (num_mul (or_zero (su_seek_position x))
                            (Finite 1000000)) :: s).
      split; [rewrite <- app_assoc; reflexivity|simpl; lia].
    + exists s. split; [reflexivity|simpl; lia].
Qed.

Lemma seek_loop_calls now l st :
  transportCalls (fold_left (zone_seek_changed now) l st) = transportCalls st.
Proof.
  apply (fold_left_invariant (fun s => transportCalls s = transportCalls st));
    [|reflexivity].
  intros s x _ Hs.
  destruct (zone_seek_changed_kept now s x) as (_ & _ & _ & _ & _ & -> & _).
  exact Hs.
Qed.

Lemma onZonesChanged_outputs now changeSet st :
  transportCalls (onZonesChanged now changeSet st) = transportCalls st
  /\ exists signals,
       seekedSignals (onZonesChanged now changeSet st)
       = (seekedSignals st ++ signals)%list
       /\ (length signals
           <= length (default [] (zones_seek_changed changeSet)))%nat.
Proof.
  unfold onZonesChanged. cbv zeta.
  match goal with |- context [if _ then _ else ?s] => set (st4 := s) end.
  assert (H4 : transportCalls st4 = transportCalls st
               /\ exists signals,
                    seekedSignals st4 = (seekedSignals st ++ signals)%list
                    /\ (length signals
                        <= length (default [] (zones_seek_changed changeSet)))%nat).
  { subst st4.
    match goal with |- context [match zones_seek_changed _ with
                                | Some l => _ | None => ?s end] =>
      set (st3 := s) end.
    assert (H3 : transportCalls st3 = transportCalls st
                 /\ seekedSignals st3 = seekedSignals st).
    { subst st3.
      (destruct (zones_changed changeSet);
       [match goal with |- context [fold_left ?f ?l ?s] =>
          destruct (fold_left_calls f l s (zone_changed_outputs now))
            as [-> ->] end|]);
      (destruct (zones_added changeSet);
       [match goal with |- context [fold_left ?f ?l ?s] =>
          destruct (fold_left_calls f l s
                      (fun s' _ => conj (eq_refl (transportCalls s'))
                                        (eq_refl (seekedSignals s'))))
            as [-> ->] end|]);
      (destruct (zones_removed changeSet);
       [match goal with |- context [fold_left ?f ?l ?s] =>
          destruct (fold_left_calls f l s (zone_removed_outputs now))
            as [-> ->] end|]);
      split; reflexivity. }
    clearbody st3. destruct H3 as [H3 H3'].
    destruct (zones_seek_changed changeSet) as [l|].
    - rewrite seek_loop_calls. split; [exact H3|].
      destruct (seek_loop_signals now l st3) as (s & -> & Hs).
      exists s. rewrite H3'. split; [reflexivity|exact Hs].
    - split; [exact H3|]. exists []. rewrite H3'.
      split; [symmetry; apply app_nil_r|reflexivity]. }
  clearbody st4. destruct (negb _); [|exact H4].
  destruct (selectAndActivateZone_outputs now st4) as [-> ->]. exact H4.
Qed.

Lemma ensureActiveZone_outputs now st :
  transportCalls (ensureActiveZone now st).1 = transportCalls st
  /\ seekedSignals (ensureActiveZone now st).1 = seekedSignals st.
Proof.
  unfold ensureActiveZone. destruct (activeZone st); [split; reflexivity|].
  cbv zeta. simpl fst. apply selectAndActivateZone_outputs.
Qed.

Lemma transport_seek_outputs zone how seconds st st' :
  transport_seek zone how seconds st = Returned st' ->
  transportCalls st'
  = (transportCalls st ++ [seek_call (zone_id zone) how seconds])%list
  /\ seekedSignals st' = seekedSignals st.
Proof.
  unfold transport_seek. destruct (transport st); [|discriminate].
  intros E. injection E as <-. split; reflexivity.
Qed.

(** X16.  Commands go to the core only as the reaction to a request
    of the desktop, at most one call for each request, and [seeked]
    signals are emitted only while a change set of the zone feed is
    processed, at most one for each seek update in it.  Pairing,
    unpairing, zone lists, the end of the subscription and art replies
    send neither. *)
Theorem outputs_by_event (now : Z) (ev : Event) (st st' : State) :
  handle now ev st = Returned st' ->
  match ev with
  | mpris_control _ | mpris_seek _ | mpris_position _ =>
      (transportCalls st' = transportCalls st
       \/ exists call, transportCalls st' = (transportCalls st ++ [call])%list)
      /\ seekedSignals st' = seekedSignals st
  | zones_message (Changed changeSet) =>
      transportCalls st' = transportCalls st
      /\ exists signals,
           seekedSignals st' = (seekedSignals st ++ signals)%list
           /\ (length signals
               <= length (default [] (zones_seek_changed changeSet)))%nat
  | _ =>
      transportCalls st' = transportCalls st
      /\ seekedSignals st' = seekedSignals st
  end.
Proof.
  destruct ev as [core|core|msg|verb|offset|event|i reply];
    cbv beta iota delta [handle].
  - intros E. injection E as <-. split; reflexivity.
  - intros E. injection E as <-. unfold onCoreUnpaired. cbv zeta.
    match goal with |- context [setStatus ?m ?e ?s] =>
      destruct (setStatus_outputs m e s) as [-> ->] end.
    match goal with |- context [activateZone now ?z ?s] =>
      destruct (activateZone_outputs now z s) as [-> ->] end.
    split; reflexivity.
  - intros E. injection E as <-.
    destruct msg as [zs|changeSet| |command];
      cbv beta iota delta [on_zones_message].
    + unfold onZonesSubscribed. cbv zeta.
      match goal with |- context [selectAndActivateZone now ?s] =>
        destruct (selectAndActivateZone_outputs now s) as [-> ->] end.
      split; reflexivity.
    + apply onZonesChanged_outputs.
    + match goal with |- context [activateZone now ?z ?s] =>
        destruct (activateZone_outputs now z s) as [-> ->] end.
      split; reflexivity.
    + split; reflexivity.
  - intros E. injection E as <-. unfold sendTransportCommand.
    pose proof (ensureActiveZone_outputs now st) as [H1 H2].
    destruct (ensureActiveZone now st) as [st1 zone]. simpl fst in H1, H2.
    destruct zone as [zone|]; [|split; [left; exact H1|exact H2]].
    destruct (transport st1); [|split; [left; exact H1|exact H2]].
    split; [right|exact H2].
    exists (control_call (zone_id zone) verb).
    rewrite <- H1. reflexivity.
  - unfold on_seek.
    pose proof (ensureActiveZone_outputs now st) as [H1 H2].
    destruct (ensureActiveZone now st) as [st1 zone]. simpl fst in H1, H2.
    destruct zone as [zone|].
    + intros E. destruct (transport_seek_outputs _ _ _ _ _ E) as [-> ->].
      split; [right|exact H2]. rewrite H1. eexists. reflexivity.
    + intros E. injection E as <-. split; [left; exact H1|exact H2].
  - unfold on_position.
    pose proof (ensureActiveZone_outputs now st) as [H1 H2].
    destruct (ensureActiveZone now st) as [st1 zone]. simpl fst in H1, H2.
    destruct zone as [zone|].
    + destruct (_ && _).
      * intros E. injection E as <-. split; [left; exact H1|exact H2].
      * intros E. destruct (transport_seek_outputs _ _ _ _ _ E) as [-> ->].
        split; [right|exact H2]. rewrite H1. eexists. reflexivity.
    + intros E. injection E as <-. split; [left; exact H1|exact H2].
  - intros E. injection E as <-.
    destruct (kept_fields _ _ (proj1 (on_art_settled_same i reply st)))
      as (_ & _ & _ & _ & _ & _ & -> & ->).
    split; reflexivity.
Qed.

Lemma activateZone_None_art now st :
  keyToFilePath (activateZone now None st) = keyToFilePath st
  /\ files (activateZone now None st) = files st.
Proof. unfold activateZone. destruct (activeCore _); split; reflexivity. Qed.

Lemma activateZone_None_statusLog now st :
  activeCore st = None ->
  statusLog (activateZone now None st) = statusLog st.
Proof.
  intros H. unfold activateZone. cbv zeta.
  destruct (activeCore (set_player _ _)) as [c|] eqn:E; [|reflexivity].
  assert (E' : activeCore st = Some c) by exact E.
  rewrite H in E'. discriminate E'.
Qed.

Lemma setStatus_fields m e st :
  kept (setStatus m e st) = kept st
  /\ player (setStatus m e st) = player st
  /\ lastSeekSeconds (setStatus m e st) = lastSeekSeconds st
  /\ activeLengthSeconds (setStatus m e st) = activeLengthSeconds st
  /\ lastKnownZoneState (setStatus m e st) = lastKnownZoneState st
  /\ keyToFilePath (setStatus m e st) = keyToFilePath st
  /\ files (setStatus m e st) = files st
  /\ statusLog (setStatus m e st) = (statusLog st ++ [(m, e)])%list.
Proof. repeat split; reflexivity. Qed.

Lemma session_dropped_fields st :
  let st1 := set_zones [] (set_session None None (imageSvc st) st) in
  activeCore st1 = None /\ transport st1 = None /\ zones st1 = []
  /\ imageSvc st1 = imageSvc st /\ keyToFilePath st1 = keyToFilePath st
  /\ files st1 = files st /\ statusLog st1 = statusLog st
  /\ transportCalls st1 = transportCalls st.
Proof. cbv zeta. repeat split; reflexivity. Qed.

(** X17.  When the core is lost the zone registry is emptied and the
    idle projection is shown with control disabled and the anchor reset;
    the image service and the art cache stay as they were.  Until a core
    is paired again every transport action sends nothing, and the
    position reads zero. *)
Theorem core_lost_resets (now now' : Z) (core : Core) (verb : string)
    (st : State) :
  let st' := onCoreUnpaired now core st in
  activeCore st' = None /\ transport st' = None /\ zones st' = []
  /\ idle_projection st' /\ canControl (player st') = false
  /\ lastSeekSeconds st' = 0%Q /\ activeLengthSeconds st' = None
  /\ lastKnownZoneState st' = "stopped"
  /\ imageSvc st' = imageSvc st /\ keyToFilePath st' = keyToFilePath st
  /\ files st' = files st
  /\ statusLog st'
     = (statusLog st ++ [("Waiting for Roon Core authorisation...", false)])%list
  /\ transportCalls (sendTransportCommand now' verb st') = transportCalls st
  /\ getPosition now' (sendTransportCommand now' verb st') = Finite 0.
Proof.
  cbv zeta. unfold onCoreUnpaired. cbv zeta.
  pose proof (session_dropped_fields st) as S. cbv zeta in S.
  set (st1 := set_zones [] (set_session None None (imageSvc st) st)) in *.
  clearbody st1. destruct S as (S1 & S2 & S3 & S4 & S5 & S6 & S7 & S8).
  pose proof (activateZone_fields now None st1)
    as (F1 & F2 & F3 & F4 & F5 & F6 & F7 & _).
  pose proof (activateZone_None_idle now st1) as Hidle.
  pose proof (activateZone_None_anchor now st1) as (A1 & A2 & A3).
  pose proof (activateZone_None_player now st1) as Hp.
  pose proof (activateZone_None_art now st1) as (R1 & R2).
  pose proof (activateZone_None_statusLog now st1 S1) as R3.
  set (a := activateZone now None st1) in *. clearbody a.
  pose proof (setStatus_fields "Waiting for Roon Core authorisation..." false a)
    as (K & P & T1 & T2 & T3 & T4 & T5 & T6).
  apply kept_fields in K. destruct K as (K1 & K2 & K3 & K4 & K5 & K6 & K7 & _).
  set (s' := setStatus "Waiting for Roon Core authorisation..." false a) in *.
  clearbody s'.
  assert (Hz : zones s' = []) by congruence.
  assert (Hn : activeZone s' = None) by congruence.
  split; [congruence|]. split; [congruence|]. split; [exact Hz|].
  split; [exact (idle_same_selection a s' P K5 K6 Hidle)|].
  split; [rewrite P, Hp, S2; reflexivity|].
  split; [congruence|]. split; [congruence|]. split; [congruence|].
  split; [congruence|]. split; [congruence|]. split; [congruence|].
  split; [rewrite T6, R3, S7; reflexivity|].
  unfold sendTransportCommand.
  rewrite (ensureActiveZone_none now' s' (fun _ => Hz) Hn).
  split; [rewrite activateZone_transportCalls; congruence|].
  unfold getPosition. rewrite activateZone_activeZone. reflexivity.
Qed.

(** ** The projection as a function of the zone *)

Lemma updateMetadata_metadata zone st st' :
  metadata (player (updateMetadata zone st))
  = metadata (player (updateMetadata zone st')).
Proof. reflexivity. Qed.

Lemma projected_player_same zone status m m' st st' :
  m = m' ->
  set_playbackStatus status
    (set_metadata m (player (updateCapabilities zone st)))
  = set_playbackStatus status
      (set_metadata m' (player (updateCapabilities zone st'))).
Proof. intros ->. reflexivity. Qed.

(** X18.  What the player shows for an active zone is a function of
    that zone alone: activating the same zone from any two states, at
    any two times, gives the same player properties and the same anchor
    but for its wall-clock time, which is the time of the activation.
    Nothing of the zone shown before is left in them at that moment:
    the art URL is absent right after the activation.  (A fetch that is
    still pending, for the new image or for an earlier one, sets it when
    it settles.) *)
Theorem projection_of_zone_alone (now now' : Z) (zone : Zone)
    (st st' : State) :
  player (activateZone now (Some zone) st)
  = player (activateZone now' (Some zone) st')
  /\ lastSeekSeconds (activateZone now (Some zone) st)
     = lastSeekSeconds (activateZone now' (Some zone) st')
  /\ activeLengthSeconds (activateZone now (Some zone) st)
     = activeLengthSeconds (activateZone now' (Some zone) st')
  /\ lastKnownZoneState (activateZone now (Some zone) st)
     = lastKnownZoneState (activateZone now' (Some zone) st')
  /\ lastSeekUpdate (activateZone now (Some zone) st) = now
  /\ mpris_artUrl (metadata (player (activateZone now (Some zone) st))) = None.
Proof.
  destruct (activateZone_Some_anchor now zone st) as (-> & -> & -> & ->).
  destruct (activateZone_Some_anchor now' zone st') as (-> & _ & -> & ->).
  rewrite !activateZone_Some_player.
  split; [apply projected_player_same, updateMetadata_metadata|].
  split; [reflexivity|]. split; [reflexivity|]. split; [reflexivity|].
  split; reflexivity.
Qed.

(** X19.  When the zone subscription ends the registry is emptied and
    the idle projection is shown; the session with the core stays, and
    control stays offered exactly when a transport is set.  A transport
    action that follows sends nothing. *)
Theorem subscription_end_idles (now now' : Z) (verb : string) (st : State) :
  let st' := on_zones_message now Unsubscribed st in
  zones st' = [] /\ idle_projection st'
  /\ canControl (player st') = bool_decide (is_Some (transport st))
  /\ activeCore st' = activeCore st /\ transport st' = transport st
  /\ imageSvc st' = imageSvc st
  /\ transportCalls (sendTransportCommand now' verb st') = transportCalls st.
Proof.
  cbv zeta. cbv beta iota delta [on_zones_message].
  pose proof (activateZone_fields now None (set_zones [] st))
    as (F1 & F2 & F3 & F4 & _ & F6 & F7 & _).
  pose proof (activateZone_None_idle now (set_zones [] st)) as Hidle.
  pose proof (activateZone_None_player now (set_zones [] st)) as Hp.
  set (a := activateZone now None (set_zones [] st)) in *. clearbody a.
  assert (Hz : zones a = []) by (rewrite F4; reflexivity).
  split; [exact Hz|]. split; [exact Hidle|].
  split; [rewrite Hp; reflexivity|].
  split; [rewrite F1; reflexivity|]. split; [rewrite F2; reflexivity|].
  split; [rewrite F3; reflexivity|].
  unfold sendTransportCommand.
  rewrite (ensureActiveZone_none now' a (fun _ => Hz) F6).
  rewrite activateZone_transportCalls, F7. reflexivity.
Qed.

End Bridge.


(** * Examples *)

(** ** The rounding and the primitive floats *)

(** The value of a binary64 float of the kernel. *)
Definition float_value (f : float) : Number :=
  match Prim2SF f with
  | S754_zero _ => Finite 0
  | S754_infinity negative => Infinity negative
  | S754_nan => NaN
  | S754_finite negative m e =>
      let v := if (0 <=? e)%Z then inject_Z (Zpos m * 2 ^ e)
               else (inject_Z (Zpos m) / inject_Z (2 ^ (- e)))%Q in
      Finite (Qred (if negative then (- v)%Q else v))
  end.

Definition same_number (a b : Number) : bool :=
  match a, b with
  | NaN, NaN => true
  | Infinity s, Infinity t => Bool.eqb s t
  | Finite p, Finite q => Qeq_bool p q
  | _, _ => false
  end.

(** The operation of the kernel on two floats against the operation of
    this development on their values. *)
Definition agree (prim : float -> float -> float)
    (op : Number -> Number -> Number) (a b : float) : bool :=
  same_number (float_value (prim a b)) (op (float_value a) (float_value b)).

(** The float that the kernel reads from a decimal literal against the
    rounding of the literal. *)
Definition agree_literal (literal : Q) (f : float) : bool :=
  same_number (float_value f) (round literal).

#[local] Set Warnings "-inexact-float".

(** [round] and the three operations agree with the binary64 floats of
    the kernel on products, sums and quotients of the kind the script
    forms, on ties, on subnormal results and at the overflow
    threshold. *)
Lemma operations_agree_with_binary64 :
  forallb (fun ab => agree PrimFloat.mul num_mul ab.1 ab.2)
    [ (10.569, 1000000); (8.2, 1000000); (1.000001, 1000000);
      (0.3, 1000000); (-0.3, 1000000); (3, 0.1); (1e300, 1e10);
      (1e-300, 1e-10); (1e-300, 1e-30); (4.9e-324, 0.5);
      (4.9e-324, 0.75); (4.9e-324, 1.5);
      (1.7976931348623157e308, 1.0000000000000002);
      (2.2250738585072014e-308, 0.9999999999999999);
      (2.2250738585072014e-308, 0.5000000000000001) ]%float
  && forallb (fun ab => agree PrimFloat.add num_add ab.1 ab.2)
       [ (10, 0.569); (0.1, 0.2); (1.7976931348623157e308, 1e292);
         (1.7976931348623157e308, 9.9e291); (9007199254740992, 1);
         (9007199254740992, 3) ]%float
  && forallb (fun ab => agree PrimFloat.div num_div ab.1 ab.2)
       [ (569, 1000); (1, 3); (-7, 1000000); (5000000, 1000000);
         (1e308, 1e-10) ]%float
  && forallb (fun qf => agree_literal qf.1 qf.2)
       [ (8.2%Q, 8.2%float); (0.1%Q, 0.1%float);
         (1.000001%Q, 1.000001%float); ((-0.3)%Q, (-0.3)%float);
         (123456789.123456789%Q, 123456789.123456789%float);
         (1e308%Q, 1e308%float); (1e-320%Q, 1e-320%float);
         (2.5e-324%Q, 4.9e-324%float); (2.4e-324%Q, 0%float);
         (1.7976931348623158e308%Q, 1.7976931348623157e308%float);
         (1.7976931348623159e308%Q, infinity) ]
  = true.
Proof. vm_compute. reflexivity. Qed.

(** ** The bridge at work *)

(** [Number.prototype.toString] on integers; no other number occurs in a
    text position below. *)
Definition integer_toString (n : Q) : string :=
  NilZero.string_of_int (Z.to_int (Qfloor n)).

Definition no_preference : string := EmptyString.

Definition tmp : string := "/tmp".

Definition core0 : Core := {| core_display_name := "Core" |}.

Definition simple_zone (id name st : string) (np : option NowPlaying) : Zone :=
  {| zone_id := id; display_name_property := js_value name; state := Some st;
     now_playing := np;
     is_play_allowed := true; is_pause_allowed := true;
     is_seek_allowed := true; is_next_allowed := true;
     is_previous_allowed := true;
     settings := None; outputs := None; queue_time_remaining := None |}.

Definition track (name : string) (position len : Q) : NowPlaying :=
  {| title := JsString name; artist := JsAbsent; album := JsAbsent;
     artist_line := JsAbsent; three_line := JsAbsent; two_line := JsAbsent;
     one_line := JsAbsent; np_length := Some len;
     seek_position := Some position; image_key := None |}.

Definition z1 : Zone := simple_zone "z1" "Kitchen" "playing" (Some (track "Song" 10 200)).
Definition z2 : Zone := simple_zone "z2" "Bedroom" "stopped" None.
Definition z2_playing : Zone := simple_zone "z2" "Bedroom" "playing" None.

Definition removes (ids : list string) : ChangeSet :=
  {| zones_removed := Some ids; zones_added := None; zones_changed := None;
     zones_seek_changed := None |}.

Definition changes (l : list Zone) : ChangeSet :=
  {| zones_removed := None; zones_added := None; zones_changed := Some l;
     zones_seek_changed := None |}.

Definition adds (l : list Zone) : ChangeSet :=
  {| zones_removed := None; zones_added := Some l; zones_changed := None;
     zones_seek_changed := None |}.

(** Paired with a core, no zone list received yet. *)
Definition paired : State := onCorePaired core0 (init 0 ∅).

(** After the initial zone list [l], received at time 0. *)
Definition subscribed (preference : string) (l : list Zone) : State :=
  on_zones_message preference integer_toString ascii_toLowerCase 0 (Subscribed (Some l)) paired.

Lemma reachable_paired preference :
  reachable preference integer_toString ascii_toLowerCase tmp paired.
Proof.
  apply (reachable_step preference integer_toString ascii_toLowerCase tmp 0 (core_paired core0)
           (init 0 ∅) paired).
  - apply reachable_init.
  - reflexivity.
Qed.

Lemma reachable_subscribed preference l :
  reachable preference integer_toString ascii_toLowerCase tmp (subscribed preference l).
Proof.
  apply (reachable_step preference integer_toString ascii_toLowerCase tmp 0
           (zones_message (Subscribed (Some l))) paired).
  - apply reachable_paired.
  - reflexivity.
Qed.

Lemma reachable_plain_subscribed preference l :
  Forall (fun k => inherited_key k = false) (map zone_id l) ->
  reachable_plain preference integer_toString ascii_toLowerCase tmp
    (subscribed preference l).
Proof.
  intros Hl.
  apply (reachable_plain_step preference integer_toString ascii_toLowerCase
           tmp 0 (zones_message (Subscribed (Some l))) paired).
  - apply (reachable_plain_step preference integer_toString
             ascii_toLowerCase tmp 0 (core_paired core0) (init 0 ∅) paired).
    + apply reachable_plain_init.
    + constructor.
    + reflexivity.
  - exact Hl.
  - reflexivity.
Qed.

(** The core is lost, and a change set of the zone subscription, which
    nothing has cancelled, then adds a zone: the zone is selected while
    no transport is set. *)
Definition late_zone : State :=
  onZonesChanged no_preference integer_toString ascii_toLowerCase 2 (adds [z1])
    (onCoreUnpaired integer_toString ascii_toLowerCase 1 core0
       (subscribed no_preference [z1])).

Lemma reachable_plain_late_zone :
  reachable_plain no_preference integer_toString ascii_toLowerCase tmp
    late_zone.
Proof.
  apply (reachable_plain_step no_preference integer_toString
           ascii_toLowerCase tmp 2 (zones_message (Changed (adds [z1])))
           (onCoreUnpaired integer_toString ascii_toLowerCase 1 core0
              (subscribed no_preference [z1]))).
  - apply (reachable_plain_step no_preference integer_toString
             ascii_toLowerCase tmp 1 (core_unpaired core0)
             (subscribed no_preference [z1])).
    + apply reachable_plain_subscribed. repeat constructor.
    + constructor.
    + reflexivity.
  - repeat constructor.
  - cbv beta iota delta [handle on_zones_message late_zone]. reflexivity.
Qed.


(** ** Artwork requests *)

Definition with_art : Zone :=
  simple_zone "z1" "Kitchen" "playing"
    (Some {| title := JsString "Song"; artist := JsAbsent; album := JsAbsent;
             artist_line := JsAbsent; three_line := JsAbsent;
             two_line := JsAbsent; one_line := JsAbsent;
             np_length := Some 200%Q; seek_position := Some 10%Q;
             image_key := Some "k" |}).

(** Two resolve calls for one unresolved key, the second made while the
    fetch of the first is pending, issue two fetches.  It happens when
    the active zone is reported changed before its artwork has arrived:
    both requests are then in flight. *)
Lemma two_resolves_two_fetches :
  In (art_fetch "k") (artJobs (resolveArtFile "k" paired))
  /\ keyToFilePath (resolveArtFile "k" paired) !! "k" = None
  /\ imageRequests (resolveArtFile "k" (resolveArtFile "k" paired))
     = ["k"; "k"]
  /\ artJobs (subscribed no_preference [with_art]) = [art_fetch "k"]
  /\ imageRequests
       (onZonesChanged no_preference integer_toString ascii_toLowerCase 1 (changes [with_art])
          (subscribed no_preference [with_art])) = ["k"; "k"]
  /\ artJobs
       (onZonesChanged no_preference integer_toString ascii_toLowerCase 1 (changes [with_art])
          (subscribed no_preference [with_art]))
     = [art_fetch "k"; art_fetch "k"].
Proof. vm_compute. repeat split. left. reflexivity. Qed.

Lemma resolve_fetches_unless_cached_witness :
  is_Some (imageSvc paired)
  /\ "art" <> EmptyString
  /\ ~ art_cached "art" paired
  /\ imageRequests (resolveArtFile "art" (resolveArtFile "art" paired))
     = ["art"; "art"].
Proof.
  assert (Hs : is_Some (imageSvc paired)) by (exists RoonApiImage; reflexivity).
  assert (Hk : "art" <> EmptyString) by discriminate.
  assert (Hc : ~ art_cached "art" paired).
  { intros [p [E _]]. vm_compute in E. discriminate. }
  destruct (resolve_fetches_unless_cached "art" paired Hs Hk) as [_ Hmiss].
  destruct (Hmiss Hc) as (_ & _ & H).
  split; [exact Hs|]. split; [exact Hk|]. split; [exact Hc|exact H].
Defined.

(** ** Removal of the active zone *)

(** With two zones in the registry, removing the active one leaves the
    other active at the end of the event, not the idle projection. *)
Lemma removed_active_zone_reselects :
  reachable no_preference integer_toString ascii_toLowerCase tmp (subscribed no_preference [z1; z2])
  /\ activeZoneId (subscribed no_preference [z1; z2]) = Some "z1"
  /\ In "z1" (default [] (zones_removed (removes ["z1"])))
  /\ activeZoneId
       (onZonesChanged no_preference integer_toString ascii_toLowerCase 1 (removes ["z1"])
          (subscribed no_preference [z1; z2])) = Some "z2"
  /\ xesam_title
       (metadata
          (player
             (onZonesChanged no_preference integer_toString ascii_toLowerCase 1 (removes ["z1"])
                (subscribed no_preference [z1; z2])))) = "Bedroom"
  /\ ~ idle_projection
         (onZonesChanged no_preference integer_toString ascii_toLowerCase 1 (removes ["z1"])
            (subscribed no_preference [z1; z2])).
Proof.
  split; [apply reachable_subscribed|].
  split; [vm_compute; reflexivity|].
  split; [left; reflexivity|].
  split; [vm_compute; reflexivity|].
  split; [vm_compute; reflexivity|].
  intros (_ & _ & _ & _ & _ & _ & _ & H & _). vm_compute in H. discriminate.
Qed.

Lemma active_zone_removed_witness :
  activeZoneId (subscribed no_preference [z1]) = Some "z1"
  /\ idle_projection
       (onZonesChanged no_preference integer_toString ascii_toLowerCase 1 (removes ["z1"])
          (subscribed no_preference [z1])).
Proof.
  assert (Ha : activeZoneId (subscribed no_preference [z1]) = Some "z1")
    by (vm_compute; reflexivity).
  split; [exact Ha|].
  destruct (active_zone_removed no_preference integer_toString ascii_toLowerCase 1
              (removes ["z1"]) (subscribed no_preference [z1]) "z1" ["z1"]
              Ha eq_refl (or_introl eq_refl)) as (_ & H & _).
  apply H. vm_compute. reflexivity.
Defined.


(** ** Zone selection *)

Definition attic : Zone := simple_zone "a" "Attic" "stopped" None.
Definition unnamed_playing : Zone := simple_zone EmptyString "Hall" "playing" None.
Definition unnamed : Zone := simple_zone EmptyString "Hall" "stopped" None.
Definition kitchen : Zone := simple_zone "zk" "Kitchen" "stopped" None.

(** The state in which the change loop of a Changed event leaves the
    bridge when the active zone, whose id is the empty string, stops
    playing. *)
Definition unnamed_stopped : State :=
  zone_changed integer_toString ascii_toLowerCase 1
    (subscribed no_preference [attic; unnamed_playing]) unnamed.

(** C3.  Rule (3) of the tie-break order, the zone of the current active
    id if it still exists, fails for the zone whose id is the empty
    string: [activeZoneId && zones[activeZoneId]] takes that id for no
    id.  With no preference and no playing zone, the current active id
    the empty string and its zone still in the registry, selection
    activates the first zone of the registry, another one; so does the
    Changed event in which the active zone stops playing. *)
Lemma empty_active_id_not_kept :
  no_preference = EmptyString
  /\ map state (map snd (zones unnamed_stopped))
     = [Some "stopped"; Some "stopped"]
  /\ activeZoneId unnamed_stopped = Some EmptyString
  /\ obj_get (zones unnamed_stopped) EmptyString = Some unnamed
  /\ activeZone
       (selectAndActivateZone no_preference integer_toString ascii_toLowerCase 1 unnamed_stopped)
     = Some attic
  /\ attic <> unnamed
  /\ activeZoneId
       (onZonesChanged no_preference integer_toString ascii_toLowerCase 1 (changes [unnamed])
          (subscribed no_preference [attic; unnamed_playing]))
     = Some "a".
Proof.
  split; [reflexivity|].
  split; [vm_compute; reflexivity|].
  split; [vm_compute; reflexivity|].
  split; [vm_compute; reflexivity|].
  split; [vm_compute; reflexivity|].
  split; [discriminate|].
  vm_compute. reflexivity.
Qed.

(** The preferred zone wins over the playing one and over the active
    one; the preference is compared without regard to case. *)
Lemma zone_selection_tie_break_witness :
  (forall a, activeZoneId (subscribed "KITCHEN" [z2_playing; kitchen]) = Some a ->
             own_or_absent (zones (subscribed "KITCHEN" [z2_playing; kitchen])) a)
  /\ "KITCHEN" <> EmptyString
  /\ exists z,
       activeZone
         (selectAndActivateZone "KITCHEN" integer_toString ascii_toLowerCase 0
            (subscribed "KITCHEN" [z2_playing; kitchen])) = Some z
       /\ in_registry z (zones (subscribed "KITCHEN" [z2_playing; kitchen]))
       /\ zone_matches ascii_toLowerCase "KITCHEN" z.
Proof.
  assert (Ho : forall a,
             activeZoneId (subscribed "KITCHEN" [z2_playing; kitchen]) = Some a ->
             own_or_absent (zones (subscribed "KITCHEN" [z2_playing; kitchen])) a).
  { intros a Ha. vm_compute in Ha. injection Ha as <-.
    left. eexists. vm_compute. reflexivity. }
  assert (Hp : "KITCHEN" <> EmptyString) by discriminate.
  split; [exact Ho|]. split; [exact Hp|].
  destruct (zone_selection_tie_break "KITCHEN" integer_toString
              ascii_toLowerCase ascii_toLowerCase_empty 0
              (subscribed "KITCHEN" [z2_playing; kitchen]) Ho)
    as (_ & _ & H & _).
  apply H; [exact Hp|].
  exists kitchen. split.
  - vm_compute. right. left. reflexivity.
  - right. left. exists "Kitchen". split; reflexivity.
Defined.

(** ** Stickiness *)

(** C4.  Stickiness fails for the zone whose id is the empty string:
    [if (!activeZoneId)] takes that id for no active zone and re-runs
    the selection although a zone is active.  The event removes nothing,
    yet the zone it adds, which is playing, becomes the active one. *)
Lemma empty_id_zone_not_sticky :
  reachable no_preference integer_toString ascii_toLowerCase tmp (subscribed no_preference [unnamed])
  /\ active_zone_is EmptyString (subscribed no_preference [unnamed])
  /\ ~ In EmptyString (default [] (zones_removed (adds [z2_playing])))
  /\ activeZoneId
       (onZonesChanged no_preference integer_toString ascii_toLowerCase 1 (adds [z2_playing])
          (subscribed no_preference [unnamed])) = Some "z2".
Proof.
  split; [apply reachable_subscribed|].
  split; [split; [vm_compute; reflexivity|
                  exists unnamed; split; vm_compute; reflexivity]|].
  split; [intros H; exact H|].
  vm_compute. reflexivity.
Qed.

Lemma active_zone_sticky_witness :
  active_zone_is "z1" (subscribed no_preference [z1; z2])
  /\ active_zone_is "z1"
       (onZonesChanged no_preference integer_toString ascii_toLowerCase 1 (changes [z2_playing])
          (subscribed no_preference [z1; z2])).
Proof.
  assert (Ha : active_zone_is "z1" (subscribed no_preference [z1; z2])).
  { split; [vm_compute; reflexivity|].
    exists z1. split; vm_compute; reflexivity. }
  split; [exact Ha|].
  apply (active_zone_sticky no_preference integer_toString ascii_toLowerCase 1
           (changes [z2_playing]) (subscribed no_preference [z1; z2]) "z1" Ha).
  - discriminate.
  - intros H. exact H.
Defined.


(** ** Position estimate *)

Definition negative_length : Zone :=
  simple_zone "z1" "Kitchen" "paused" (Some (track "Song" 0 (-1))).

(** A zone whose length is negative: the estimate, clamped to zero from
    below, exceeds the length times 1,000,000. *)
Lemma negative_length_exceeded :
  reachable no_preference integer_toString ascii_toLowerCase tmp
    (subscribed no_preference [negative_length])
  /\ activeLengthSeconds (subscribed no_preference [negative_length])
     = Some (-1)%Q
  /\ getPosition 0 (subscribed no_preference [negative_length]) = Finite 0
  /\ ~ num_le (getPosition 0 (subscribed no_preference [negative_length]))
         (num_mul (Finite (-1)) (Finite 1000000))
  /\ ~ (0 <= -1 * 1000000)%Q.
Proof.
  split; [apply reachable_subscribed|].
  split; [vm_compute; reflexivity|].
  split; [vm_compute; reflexivity|].
  split; [vm_compute; intros H; apply H; reflexivity|].
  vm_compute. intros H. apply H. reflexivity.
Qed.

(** The zone of the specification's end-to-end example, one second after
    the zone list. *)
Lemma position_estimate_witness :
  (0 <= 1000)%Z
  /\ mpris_length (metadata (player (subscribed no_preference [z1])))
     = Some (Finite 200000000)
  /\ getPosition 1000 (subscribed no_preference [z1]) = Finite 11000000
  /\ num_le (getPosition 0 (subscribed no_preference [z1]))
       (getPosition 1000 (subscribed no_preference [z1])).
Proof.
  assert (Ht : (0 <= 1000)%Z) by discriminate.
  assert (Hr : is_Some (activeZone (subscribed no_preference [z1]))
               \/ reachable no_preference integer_toString ascii_toLowerCase
                    tmp (subscribed no_preference [z1])).
  { right. apply reachable_subscribed. }
  destruct (position_estimate no_preference integer_toString
              ascii_toLowerCase tmp 0 1000
              (subscribed no_preference [z1]) Hr Ht) as (_ & _ & Hm & _).
  destruct (position_estimate no_preference integer_toString
              ascii_toLowerCase tmp 1000 1000
              (subscribed no_preference [z1]) Hr (Z.le_refl _)) as (Hf & _).
  split; [exact Ht|]. split; [vm_compute; reflexivity|].
  split; [|exact Hm].
  rewrite Hf. vm_compute. reflexivity.
Defined.

(** The estimate is computed in double precision.  With the anchor at 10
    seconds, 569 milliseconds later the elapsed seconds are the double
    nearest to 10.569, a little below it, and the floor of the product
    is 10568999, not 10569000.  A length of 8.2 seconds is projected as
    8199999 microseconds. *)
Lemma estimate_in_double_precision :
  getPosition 569 (subscribed no_preference [z1]) = Finite 10568999
  /\ Qfloor ((10 + 569 / 1000) * 1000000) = 10569000%Z
  /\ mpris_length
       (metadata
          (player
             (subscribed no_preference
                [simple_zone "z1" "Kitchen" "playing"
                   (Some (track "Song" 10 (82 # 10)))])))
     = Some (Finite 8199999).
Proof. vm_compute. repeat split. Qed.

(** ** Metadata text *)

Definition three_line_zone : Zone :=
  {| zone_id := "z3"; display_name_property := js_value "Den"; state := Some "playing";
     now_playing := Some three_line_only;
     is_play_allowed := true; is_pause_allowed := true;
     is_seek_allowed := true; is_next_allowed := true;
     is_previous_allowed := true;
     settings := None; outputs := None; queue_time_remaining := None |}.

Lemma metadata_fallback_chain_witness :
  now_playing three_line_zone = Some three_line_only
  /\ xesam_title
       (metadata (player (updateMetadata integer_toString three_line_zone paired)))
     = "T"
  /\ xesam_artist
       (metadata (player (updateMetadata integer_toString three_line_zone paired)))
     = ["A"]
  /\ xesam_album
       (metadata (player (updateMetadata integer_toString three_line_zone paired)))
     = "Al".
Proof.
  split; [reflexivity|].
  destruct (metadata_fallback_chain integer_toString three_line_zone paired)
    as (_ & _ & _ & H).
  exact (H eq_refl).
Defined.

(** ** Seek deltas *)

Definition seek_to_42 : SeekUpdate :=
  {| su_zone_id := "z1"; su_seek_position := Some 42%Q;
     su_queue_time_remaining := Some 158%Q |}.

Lemma seek_delta_frame_witness :
  obj_get (zones (subscribed no_preference [z1; z2])) "z1" = Some z1
  /\ activeZoneId (subscribed no_preference [z1; z2]) = Some "z1"
  /\ obj_get
       (zones (zone_seek_changed 7 (subscribed no_preference [z1; z2]) seek_to_42))
       "z2" = Some z2
  /\ lastSeekSeconds
       (zone_seek_changed 7 (subscribed no_preference [z1; z2]) seek_to_42)
     = 42%Q
  /\ lastSeekUpdate
       (zone_seek_changed 7 (subscribed no_preference [z1; z2]) seek_to_42)
     = 7
  /\ seekedSignals
       (zone_seek_changed 7 (subscribed no_preference [z1; z2]) seek_to_42)
     = [Finite 42000000].
Proof.
  assert (Hg : obj_get (zones (subscribed no_preference [z1; z2])) "z1"
               = Some z1) by (vm_compute; reflexivity).
  assert (Ha : activeZoneId (subscribed no_preference [z1; z2]) = Some "z1")
    by (vm_compute; reflexivity).
  destruct (seek_delta_frame 7 (subscribed no_preference [z1; z2]) seek_to_42)
    as (_ & H).
  destruct (H z1 Hg) as (_ & Hother & _ & _ & _ & _ & _ & Hact & _).
  destruct (Hact Ha) as (Hs & Hu & _ & _ & Hsig).
  split; [exact Hg|]. split; [exact Ha|].
  split; [rewrite Hother by discriminate; vm_compute; reflexivity|].
  split; [rewrite Hs; vm_compute; reflexivity|]. split; [exact Hu|].
  rewrite Hsig. vm_compute. reflexivity.
Defined.

Definition seek_to_1_000001 : SeekUpdate :=
  {| su_zone_id := "z1"; su_seek_position := Some (1000001 # 1000000)%Q;
     su_queue_time_remaining := None |}.

(** The seeked signal does not carry the floor of the seconds times
    1,000,000: for a seek delta to 1.000001 seconds on the active zone
    the product, in double precision, is 1000000.9999999999 and the
    signal carries 1000000, where the floor of the exact product is
    1000001. *)
Lemma seeked_floor_of_rounded_product :
  obj_get (zones (subscribed no_preference [z1])) "z1" = Some z1
  /\ activeZoneId (subscribed no_preference [z1]) = Some "z1"
  /\ seekedSignals
       (zone_seek_changed 7 (subscribed no_preference [z1]) seek_to_1_000001)
     = [Finite 1000000]
  /\ Qfloor ((1000001 # 1000000) * 1000000) = 1000001%Z
  /\ Finite 1000000 <> Finite (inject_Z 1000001).
Proof.
  split; [vm_compute; reflexivity|].
  split; [vm_compute; reflexivity|].
  split; [vm_compute; reflexivity|].
  split; [vm_compute; reflexivity|].
  discriminate.
Qed.


(** ** Control actions *)

Definition set_position (id : option string) (micros : Z) : PositionEvent :=
  {| trackId := id; position := micros |}.

(** Before any zone is known the projected track id is the idle default
    id; a setPosition event that carries that very id issues no seek,
    as no zone can be resolved.  And once paired, an event that carries
    another track id changes the state: resolving the zone re-applies
    the idle projection, which enables [canControl]. *)
Lemma matching_track_id_without_zone :
  reachable no_preference integer_toString ascii_toLowerCase tmp (init 0 ∅)
  /\ trackId (set_position (Some "/org/node/mediaplayer/roon/track/0") 5000000)
     = Some (mpris_trackid (metadata (player (init 0 ∅))))
  /\ (exists st',
        on_position no_preference integer_toString ascii_toLowerCase 0
          (set_position (Some "/org/node/mediaplayer/roon/track/0") 5000000)
          (init 0 ∅) = Returned st'
        /\ transportCalls st' = [])
  /\ reachable no_preference integer_toString ascii_toLowerCase tmp paired
  /\ canControl (player paired) = false
  /\ exists st',
       on_position no_preference integer_toString ascii_toLowerCase 0
         (set_position (Some "/org/node/mediaplayer/roon/zone/z9") 5000000)
         paired = Returned st'
       /\ canControl (player st') = true.
Proof.
  split; [apply reachable_init|].
  split; [vm_compute; reflexivity|].
  split; [eexists; split; [vm_compute; reflexivity|reflexivity]|].
  split; [apply reachable_paired|].
  split; [reflexivity|].
  eexists. split; [vm_compute; reflexivity|reflexivity].
Qed.

Lemma stale_position_dropped_witness :
  reachable_plain no_preference integer_toString ascii_toLowerCase tmp
    (subscribed no_preference [z1])
  /\ activeZone (subscribed no_preference [z1]) = Some z1
  /\ "/org/node/mediaplayer/roon/zone/z9" <> EmptyString
  /\ "/org/node/mediaplayer/roon/zone/z9"
     <> mpris_trackid (metadata (player (subscribed no_preference [z1])))
  /\ on_position no_preference integer_toString ascii_toLowerCase 5
       (set_position (Some "/org/node/mediaplayer/roon/zone/z9") 5000000)
       (subscribed no_preference [z1])
     = Returned (subscribed no_preference [z1])
  /\ is_Some (transport (subscribed no_preference [z1]))
  /\ exists st',
       on_position no_preference integer_toString ascii_toLowerCase 5
         (set_position (Some "/org/node/mediaplayer/roon/zone/z1") 5000000)
         (subscribed no_preference [z1])
       = Returned st'
       /\ transportCalls st' = [seek_call "z1" "absolute" (Finite 5)].
Proof.
  assert (Hr : reachable_plain no_preference integer_toString
                 ascii_toLowerCase tmp (subscribed no_preference [z1]))
    by (apply reachable_plain_subscribed; repeat constructor).
  assert (Hne : "/org/node/mediaplayer/roon/zone/z9" <> EmptyString)
    by discriminate.
  assert (Ha : activeZone (subscribed no_preference [z1]) = Some z1)
    by (vm_compute; reflexivity).
  assert (Hd : "/org/node/mediaplayer/roon/zone/z9"
               <> mpris_trackid
                    (metadata (player (subscribed no_preference [z1])))).
  { vm_compute. discriminate. }
  assert (Ht : is_Some (transport (subscribed no_preference [z1])))
    by (exists RoonApiTransport; reflexivity).
  destruct (stale_position_dropped no_preference integer_toString
              ascii_toLowerCase tmp 5
              (set_position (Some "/org/node/mediaplayer/roon/zone/z9") 5000000)
              (subscribed no_preference [z1]) Hr) as (_ & Hactive).
  destruct (Hactive z1 Ha) as (Hstale & _).
  destruct (stale_position_dropped no_preference integer_toString
              ascii_toLowerCase tmp 5
              (set_position (Some "/org/node/mediaplayer/roon/zone/z1") 5000000)
              (subscribed no_preference [z1]) Hr) as (_ & Hactive').
  destruct (Hactive' z1 Ha) as (_ & Hseek).
  destruct (Hseek ltac:(vm_compute; reflexivity) Ht) as (st' & Hp & Hc & _).
  split; [exact Hr|]. split; [exact Ha|]. split; [exact Hne|].
  split; [exact Hd|].
  split; [exact (Hstale _ eq_refl Hne Hd)|].
  split; [exact Ht|].
  exists st'. split; [exact Hp|].
  rewrite Hc. vm_compute. reflexivity.
Defined.

(** C9.  The state with a null transport and a zone in the registry is
    reached: the loss of the core does not cancel the zone subscription,
    and a change set that arrives afterwards adds a zone, which is
    selected.  In that state the seek handler and the setPosition
    handler resolve the active zone and call [transport.seek] on the
    null transport, which throws a TypeError; [sendTransportCommand],
    which tests the transport first, sends nothing. *)
Lemma seek_after_core_loss_throws :
  reachable_plain no_preference integer_toString ascii_toLowerCase tmp
    late_zone
  /\ transport late_zone = None
  /\ map fst (zones late_zone) = ["z1"]
  /\ activeZoneId late_zone = Some "z1"
  /\ activeZone late_zone = Some z1
  /\ on_seek no_preference integer_toString ascii_toLowerCase 3 (-3000000)
       late_zone
     = TypeError late_zone
  /\ on_position no_preference integer_toString ascii_toLowerCase 3
       (set_position (Some "/org/node/mediaplayer/roon/zone/z1") 5000000)
       late_zone
     = TypeError late_zone
  /\ sendTransportCommand no_preference integer_toString ascii_toLowerCase 3
       "play" late_zone
     = late_zone.
Proof.
  split; [apply reachable_plain_late_zone|].
  vm_compute. repeat split.
Qed.

(** C10.  With an active zone resolvable, a setPosition event whose
    track id is absent or empty passes the stale-track check, but the
    absolute seek is not issued when the transport is null, the state
    that a change set after the loss of the core leaves: the call on the
    null transport throws a TypeError and no command is sent. *)
Lemma falsy_track_id_after_core_loss_throws :
  ensureActiveZone no_preference integer_toString ascii_toLowerCase 3 late_zone
  = (late_zone, Some z1)
  /\ transport late_zone = None
  /\ truthy_opt (trackId (set_position None 5000000)) = false
  /\ truthy_opt (trackId (set_position (Some EmptyString) 5000000)) = false
  /\ on_position no_preference integer_toString ascii_toLowerCase 3
       (set_position None 5000000) late_zone
     = TypeError late_zone
  /\ on_position no_preference integer_toString ascii_toLowerCase 3
       (set_position (Some EmptyString) 5000000) late_zone
     = TypeError late_zone
  /\ transportCalls late_zone = [].
Proof. vm_compute. repeat split. Qed.

Lemma falsy_track_id_not_stale_witness :
  truthy_opt (trackId (set_position (Some EmptyString) 5000000)) = false
  /\ activeZone (subscribed no_preference [z1]) = Some z1
  /\ is_Some (transport (subscribed no_preference [z1]))
  /\ exists st',
       on_position no_preference integer_toString ascii_toLowerCase 5
         (set_position (Some EmptyString) 5000000)
         (subscribed no_preference [z1])
       = Returned st'
       /\ transportCalls st' = [seek_call "z1" "absolute" (Finite 5)].
Proof.
  assert (Hf : truthy_opt (trackId (set_position (Some EmptyString) 5000000))
               = false) by reflexivity.
  assert (Ha : activeZone (subscribed no_preference [z1]) = Some z1)
    by (vm_compute; reflexivity).
  assert (Ht : is_Some (transport (subscribed no_preference [z1])))
    by (exists RoonApiTransport; reflexivity).
  destruct (falsy_track_id_not_stale no_preference integer_toString
              ascii_toLowerCase 5 (set_position (Some EmptyString) 5000000)
              (subscribed no_preference [z1]) z1 Hf Ha Ht)
    as (st' & Hp & Hc & _).
  split; [exact Hf|]. split; [exact Ha|]. split; [exact Ht|].
  exists st'. split; [exact Hp|].
  rewrite Hc. vm_compute. reflexivity.
Defined.


(** ** The projection of an activated zone *)

Definition loading : Zone :=
  simple_zone "z3" "Study" "Loading" (Some (track "Song" 10 200)).

(** A loading zone is shown as Playing while its position stands still. *)
Lemma status_and_position_of_state_witness :
  state loading <> Some "playing"
  /\ playbackStatus
       (player (activateZone integer_toString ascii_toLowerCase 0 (Some loading) paired))
     = "Playing"
  /\ getPosition 0 (activateZone integer_toString ascii_toLowerCase 0 (Some loading) paired)
     = getPosition 60000
         (activateZone integer_toString ascii_toLowerCase 0 (Some loading) paired).
Proof.
  assert (Hs : state loading <> Some "playing") by discriminate.
  destruct (status_and_position_of_state integer_toString ascii_toLowerCase 0 loading paired)
    as (_ & Hp & Hg).
  split; [exact Hs|].
  split; [exact (Hp "Loading" eq_refl (or_intror eq_refl))|].
  exact (Hg Hs 0 60000).
Defined.

Lemma capabilities_after_activation_witness :
  canPlay (player (activateZone integer_toString ascii_toLowerCase 0 (Some z1) paired)) = true
  /\ canSeek (player (activateZone integer_toString ascii_toLowerCase 0 (Some z1) paired)) = true
  /\ canSeek (player (activateZone integer_toString ascii_toLowerCase 0 (Some z2) paired))
     <> true.
Proof.
  destruct (capabilities_after_activation integer_toString ascii_toLowerCase 0 z1 paired)
    as (_ & Hplay & Hseek & _).
  destruct (capabilities_after_activation integer_toString ascii_toLowerCase 0 z2 paired)
    as (_ & _ & Hseek2 & _).
  split; [exact (Hplay (or_introl eq_refl))|].
  split.
  - apply (proj2 Hseek). split; [reflexivity|].
    exists (track "Song" 10 200), 10%Q. split; reflexivity.
  - intros H. destruct (proj1 Hseek2 H) as (_ & np & q & Hnp & _).
    discriminate Hnp.
Defined.

(** A length of 8.2 seconds: the projected length is 8199999
    microseconds, and the estimate never passes it. *)
Lemma position_within_projected_length_witness :
  normaliseNumber
    (np_length
       (now_playing_or_empty
          (simple_zone "z1" "Kitchen" "playing"
             (Some (track "Song" 10 (82 # 10))))))
  = Some (2308094809027379 # 281474976710656)%Q
  /\ (0 <= 2308094809027379 # 281474976710656)%Q
  /\ Math_floor
       (num_mul (Finite (2308094809027379 # 281474976710656))
          (Finite 1000000))
     = Finite 8199999
  /\ forall t,
       num_le
         (getPosition t
            (activateZone integer_toString ascii_toLowerCase 0
               (Some (simple_zone "z1" "Kitchen" "playing"
                        (Some (track "Song" 10 (82 # 10)))))
               paired))
         (Finite 8199999).
Proof.
  assert (H1 : normaliseNumber
                 (np_length
                    (now_playing_or_empty
                       (simple_zone "z1" "Kitchen" "playing"
                          (Some (track "Song" 10 (82 # 10))))))
               = Some (2308094809027379 # 281474976710656)%Q)
    by (vm_compute; reflexivity).
  assert (H2 : (0 <= 2308094809027379 # 281474976710656)%Q)
    by (vm_compute; discriminate).
  assert (H3 : Math_floor
                 (num_mul (Finite (2308094809027379 # 281474976710656))
                    (Finite 1000000))
               = Finite 8199999)
    by (vm_compute; reflexivity).
  split; [exact H1|]. split; [exact H2|]. split; [exact H3|].
  intros t. rewrite <- H3.
  exact (proj2 (proj2 (position_within_projected_length integer_toString
                         ascii_toLowerCase 0 _ paired _ H1 H2) t)).
Defined.

(** ** Requests of the desktop *)

Lemma control_action_routed_witness :
  reachable_plain no_preference integer_toString ascii_toLowerCase tmp
    (subscribed no_preference [z1])
  /\ activeZone (subscribed no_preference [z1]) = Some z1
  /\ is_Some (transport (subscribed no_preference [z1]))
  /\ transportCalls
       (sendTransportCommand no_preference integer_toString ascii_toLowerCase
          5 "playpause" (subscribed no_preference [z1]))
     = [control_call "z1" "playpause"].
Proof.
  assert (Hr : reachable_plain no_preference integer_toString
                 ascii_toLowerCase tmp (subscribed no_preference [z1]))
    by (apply reachable_plain_subscribed; repeat constructor).
  assert (Ha : activeZone (subscribed no_preference [z1]) = Some z1)
    by (vm_compute; reflexivity).
  assert (Ht : is_Some (transport (subscribed no_preference [z1])))
    by (exists RoonApiTransport; reflexivity).
  destruct (control_action_routed no_preference integer_toString
              ascii_toLowerCase tmp 5 "playpause"
              (subscribed no_preference [z1]) Hr) as [_ H].
  destruct (H z1 Ha) as [Hsome _]. destruct (Hsome Ht) as [Hc _].
  split; [exact Hr|]. split; [exact Ha|]. split; [exact Ht|].
  rewrite Hc. vm_compute. reflexivity.
Defined.

Lemma relative_seek_routed_witness :
  reachable_plain no_preference integer_toString ascii_toLowerCase tmp
    (subscribed no_preference [z1])
  /\ activeZone (subscribed no_preference [z1]) = Some z1
  /\ is_Some (transport (subscribed no_preference [z1]))
  /\ exists st',
       on_seek no_preference integer_toString ascii_toLowerCase 5 (-3000000)
         (subscribed no_preference [z1]) = Returned st'
       /\ transportCalls st' = [seek_call "z1" "relative" (Finite (-3))].
Proof.
  assert (Hr : reachable_plain no_preference integer_toString
                 ascii_toLowerCase tmp (subscribed no_preference [z1]))
    by (apply reachable_plain_subscribed; repeat constructor).
  assert (Ha : activeZone (subscribed no_preference [z1]) = Some z1)
    by (vm_compute; reflexivity).
  assert (Ht : is_Some (transport (subscribed no_preference [z1])))
    by (exists RoonApiTransport; reflexivity).
  destruct (relative_seek_routed no_preference integer_toString
              ascii_toLowerCase tmp 5 (-3000000)
              (subscribed no_preference [z1]) Hr) as [_ H].
  destruct (H z1 Ha) as [Hsome _].
  destruct (Hsome Ht) as (st' & Hs & Hc & _).
  split; [exact Hr|]. split; [exact Ha|]. split; [exact Ht|].
  exists st'. split; [exact Hs|]. rewrite Hc. vm_compute. reflexivity.
Defined.

Lemma outputs_by_event_witness :
  handle no_preference integer_toString ascii_toLowerCase tmp 5 (mpris_control "next")
    (subscribed no_preference [z1])
  = Returned
      (sendTransportCommand no_preference integer_toString ascii_toLowerCase 5 "next"
         (subscribed no_preference [z1]))
  /\ seekedSignals
       (sendTransportCommand no_preference integer_toString ascii_toLowerCase 5 "next"
          (subscribed no_preference [z1]))
     = seekedSignals (subscribed no_preference [z1]).
Proof.
  assert (H : handle no_preference integer_toString ascii_toLowerCase tmp 5
                (mpris_control "next") (subscribed no_preference [z1])
              = Returned
                  (sendTransportCommand no_preference integer_toString ascii_toLowerCase 5
                     "next" (subscribed no_preference [z1])))
    by reflexivity.
  split; [exact H|].
  exact (proj2 (outputs_by_event no_preference integer_toString ascii_toLowerCase tmp 5
                  (mpris_control "next") _ _ H)).
Defined.

(** ** The zone feed *)

(** A zone removed and changed in one event is in the registry after
    it. *)
Lemma change_set_applies_in_order_witness :
  exists z',
    obj_get
      (zones
         (onZonesChanged no_preference integer_toString ascii_toLowerCase 1
            {| zones_removed := Some ["z2"]; zones_added := None;
               zones_changed := Some [z2_playing];
               zones_seek_changed := None |}
            (subscribed no_preference [z1; z2]))) "z2" = Some z'
    /\ same_but_seek z2_playing z'.
Proof.
  assert (Hp : plain_ids
                 {| zones_removed := Some ["z2"]; zones_added := None;
                    zones_changed := Some [z2_playing];
                    zones_seek_changed := None |})
    by (repeat constructor).
  destruct (change_set_applies_in_order no_preference integer_toString
              ascii_toLowerCase 1
              {| zones_removed := Some ["z2"]; zones_added := None;
                 zones_changed := Some [z2_playing];
                 zones_seek_changed := None |}
              (subscribed no_preference [z1; z2]) "z2" Hp) as (H & _).
  apply (H [] z2_playing []); [reflexivity|reflexivity|].
  intros z' [].
Defined.

(** Of two zones of a list with the same id the later is kept. *)
Lemma zone_list_replaces_registry_witness :
  obj_get
    (zones (onZonesSubscribed no_preference integer_toString ascii_toLowerCase 0
              [z2; z1; z2_playing] paired)) "z2" = Some z2_playing
  /\ exists z,
       In z [z2; z1; z2_playing]
       /\ activeZone (onZonesSubscribed no_preference integer_toString ascii_toLowerCase 0
                        [z2; z1; z2_playing] paired) = Some z.
Proof.
  assert (Hp : Forall (fun z => inherited_key (zone_id z) = false)
                 [z2; z1; z2_playing])
    by (repeat constructor).
  destruct (zone_list_replaces_registry no_preference integer_toString
              ascii_toLowerCase 0 [z2; z1; z2_playing] paired Hp
              ltac:(discriminate))
    as (_ & Hlast & _ & Hne).
  split.
  - apply (Hlast [z2; z1] z2_playing []); [reflexivity|]. intros z' [].
  - destruct (Hne ltac:(discriminate)) as (z & Hin & Hz & _).
    exists z. split; [exact Hin|exact Hz].
Defined.

(** ** Invariants of the reachable states *)

Lemma registry_one_zone_per_id_witness :
  reachable no_preference integer_toString ascii_toLowerCase tmp
    (subscribed no_preference [z2; z1; z2_playing])
  /\ NoDup (map fst (zones (subscribed no_preference [z2; z1; z2_playing]))).
Proof.
  assert (Hr : reachable no_preference integer_toString ascii_toLowerCase tmp
                 (subscribed no_preference [z2; z1; z2_playing]))
    by apply reachable_subscribed.
  split; [exact Hr|].
  exact (proj1 (registry_one_zone_per_id no_preference integer_toString ascii_toLowerCase tmp
                  _ Hr)).
Defined.

Lemma selection_consistent_witness :
  reachable_plain no_preference integer_toString ascii_toLowerCase tmp
    (subscribed no_preference [z2; z1])
  /\ activeZoneId (subscribed no_preference [z2; z1])
     = option_map zone_id (activeZone (subscribed no_preference [z2; z1])).
Proof.
  assert (Hr : reachable_plain no_preference integer_toString
                 ascii_toLowerCase tmp (subscribed no_preference [z2; z1]))
    by (apply reachable_plain_subscribed; repeat constructor).
  split; [exact Hr|].
  exact (proj1 (selection_consistent no_preference integer_toString ascii_toLowerCase tmp
                  _ Hr)).
Defined.

Lemma track_id_tells_selection_witness :
  reachable no_preference integer_toString ascii_toLowerCase tmp
    (subscribed no_preference [z2; z1])
  /\ activeZone (subscribed no_preference [z2; z1]) = Some z1
  /\ mpris_trackid (metadata (player (subscribed no_preference [z2; z1])))
     = objectPath ("zone/" +:+ zone_id z1).
Proof.
  assert (Hr : reachable no_preference integer_toString ascii_toLowerCase tmp
                 (subscribed no_preference [z2; z1]))
    by apply reachable_subscribed.
  assert (Ha : activeZone (subscribed no_preference [z2; z1]) = Some z1)
    by (vm_compute; reflexivity).
  split; [exact Hr|]. split; [exact Ha|].
  exact (proj1 (proj1 (track_id_tells_selection no_preference
                         integer_toString ascii_toLowerCase tmp _ Hr) z1 Ha)).
Defined.

Lemma statuses_always_valid_witness :
  reachable no_preference integer_toString ascii_toLowerCase tmp
    (subscribed no_preference [z2; z1])
  /\ status_valid (playbackStatus (player (subscribed no_preference [z2; z1]))).
Proof.
  assert (Hr : reachable no_preference integer_toString ascii_toLowerCase tmp
                 (subscribed no_preference [z2; z1]))
    by apply reachable_subscribed.
  split; [exact Hr|].
  exact (proj1 (statuses_always_valid no_preference integer_toString ascii_toLowerCase tmp
                  _ Hr)).
Defined.

(** ** The art cache *)

(** A key whose image has arrived and been written is not fetched
    again. *)
Lemma art_reply_settles_witness :
  is_Some (imageSvc paired) /\ "k" <> EmptyString
  /\ imageRequests
       (resolveArtFile "k"
          (settle_art tmp (art_fetch "k") (image_body "image/jpeg" true)
             paired))
     = imageRequests paired.
Proof.
  assert (Hs : is_Some (imageSvc paired)) by (exists RoonApiImage; reflexivity).
  assert (Hk : "k" <> EmptyString) by discriminate.
  destruct (art_reply_settles tmp "k" "image/jpeg" paired)
    as (_ & _ & _ & _ & _ & _ & H & _).
  split; [exact Hs|]. split; [exact Hk|]. exact (H Hs Hk).
Defined.
